(** * svg-anim-demo: layer compiler, state store, reconciliation, runtime service

    A shallow embedding of the Python sources under [svg_anim_demo/] and the
    properties of their specification.

    Conventions of the embedding.
    - A Python [dict] used as a map is a [gmap]; the items of a dict that are
      iterated in insertion order ([props.items()], [dom_layers.items()]) are
      an association list.
    - A Python [float] is a binary64 [float] of the kernel, with the IEEE 754
      operations Python computes with; an [int] payload is the [float] of the
      same value, so [int] and [float] payloads are both [VNum].
    - [str] is [string]; a character is one [ascii].
    - A method that mutates [self] is a computation in a state-and-exception
      monad [M St A]: the state stays as the raising call left it, as in
      Python.  [_iso_now()] reads the wall clock: the clock is a tick counter
      [clk] and [iso_of t] is the text read at tick [t].
    - [deepcopy] is the identity on immutable values. *)

From Stdlib Require Import Floats Ascii.
From stdpp Require Import gmap strings list fin_maps numbers pretty.

Set Warnings "-register-all,-inexact-float".
Local Open Scope string_scope.
Local Open Scope list_scope.

(** ** Python values *)

Inductive value : Type :=
  | VNone
  | VBool (b : bool)
  | VNum (f : float)
  | VStr (s : string)
  | VObj (fields : list (string * value)).

Inductive exn : Type :=
  | KeyError (key : string)
  | ValueError (msg : string)
  | TypeError
  | RecursionError
  | PermissionError (msg : string)
  | RuntimeError (msg : string)
  | ParseError.

Inductive result (A : Type) : Type :=
  | Ok (a : A)
  | Raise (e : exn).
Arguments Ok {A} a.
Arguments Raise {A} e.

(** What a call returned, when it returned. *)
Definition res_value {A : Type} (r : result A) : option A :=
  match r with Ok a => Some a | Raise _ => None end.

(** [min(a, b)] and [max(a, b)] of Python return the first argument unless
    the second one is strictly better. *)
Definition py_min (a b : float) : float := if PrimFloat.ltb b a then b else a.
Definition py_max (a b : float) : float := if PrimFloat.ltb a b then b else a.

(** [bool(v)] *)
Definition truthy (v : value) : bool :=
  match v with
  | VNone => false
  | VBool b => b
  | VNum f => negb (PrimFloat.eqb f 0)
  | VStr s => negb (bool_decide (s = ""))
  | VObj [] => false
  | VObj (_ :: _) => true
  end.

(** [isinstance(v, (int, float))]: [bool] is a subclass of [int]. *)
Definition as_number (v : value) : option float :=
  match v with
  | VNum f => Some f
  | VBool b => Some (if b then 1%float else 0%float)
  | _ => None
  end.

Fixpoint assoc {A : Type} (k : string) (l : list (string * A)) : option A :=
  match l with
  | [] => None
  | (k', v) :: rest => if bool_decide (k' = k) then Some v else assoc k rest
  end.

(** [l.pop()]: the last element and the list without it. *)
Fixpoint pop {A : Type} (l : list A) : option (list A * A) :=
  match l with
  | [] => None
  | x :: rest =>
      match pop rest with
      | None => Some ([], x)
      | Some (rest', y) => Some (x :: rest', y)
      end
  end.

(** [a == b]: numbers by value, strings by content, dicts key by key. *)
Fixpoint py_eqb (a b : value) : bool :=
  match a, b with
  | VNone, VNone => true
  | VStr s, VStr s' => bool_decide (s = s')
  | VObj l, VObj l' =>
      bool_decide (length l = length l') &&
      (fix all (items : list (string * value)) : bool :=
         match items with
         | [] => true
         | (k, v) :: rest =>
             match assoc k l' with
             | Some w => py_eqb v w
             | None => false
             end && all rest
         end) l
  | _, _ =>
      match as_number a, as_number b with
      | Some x, Some y => PrimFloat.eqb x y
      | _, _ => false
      end
  end.

(** ** The state-and-exception monad *)

Record Run (St A : Type) : Type := mkRun { res : result A; st : St; clk : nat }.
Arguments mkRun {St A} res st clk.
Arguments res {St A} r.
Arguments st {St A} r.
Arguments clk {St A} r.

Definition M (St A : Type) : Type := St -> nat -> Run St A.

Definition ret {St A} (a : A) : M St A := fun s t => mkRun (Ok a) s t.
Definition raise {St A} (e : exn) : M St A := fun s t => mkRun (Raise e) s t.
Definition bind {St A B} (m : M St A) (f : A -> M St B) : M St B :=
  fun s t =>
    let r := m s t in
    match res r with
    | Ok a => f a (st r) (clk r)
    | Raise e => mkRun (Raise e) (st r) (clk r)
    end.
Definition get {St} : M St St := fun s t => mkRun (Ok s) s t.
Definition put {St} (s' : St) : M St unit := fun _ t => mkRun (Ok tt) s' t.
Definition modify {St} (f : St -> St) : M St unit := fun s t => mkRun (Ok tt) (f s) t.
Definition lift_result {St A} (r : result A) : M St A := fun s t => mkRun r s t.

Notation "x <- m ;; k" := (bind m (fun x => k))
  (at level 100, m at next level, right associativity).
Notation "m ;;; k" := (bind m (fun _ => k))
  (at level 100, right associativity).

Fixpoint for_each {St A} (l : list A) (body : A -> M St unit) : M St unit :=
  match l with
  | [] => ret tt
  | a :: rest => body a ;;; for_each rest body
  end.

(** [n] consecutive calls of [m], with what each returned. *)
Fixpoint times {St A} (n : nat) (m : M St A) : M St (list A) :=
  match n with
  | O => ret []
  | S k => a <- m ;; rest <- times k m ;; ret (a :: rest)
  end.

(** ** What the embedding takes from the Python runtime *)

Class PyRuntime : Type := {
  iso_of : nat -> string;                 (* the clock text read at a tick *)
  float_of_str : string -> option float;     (* [float(s)] for a [str], [None]: ValueError *)
  repr : value -> string;                 (* [str(v)] for a value that is not a [str] *)
  recursion_limit : nat;                  (* the interpreter's frame budget *)
}.

Section StateStoreModel.
Context {rt : PyRuntime}.

(** [_iso_now()] *)
Definition _iso_now {St} : M St string := fun s t => mkRun (Ok (iso_of t)) s (S t).

(** [float(v)] *)
Definition py_float (v : value) : result float :=
  match v with
  | VNum f => Ok f
  | VBool b => Ok (if b then 1%float else 0%float)
  | VStr s =>
      match float_of_str s with
      | Some q => Ok q
      | None => Raise (ValueError "could not convert string to float")
      end
  | VNone | VObj _ => Raise TypeError
  end.

(** [str(v)] *)
Definition py_str (v : value) : string :=
  match v with
  | VStr s => s
  | _ => repr v
  end.

(** ** runtime/state_store.py *)

Definition TRACKED_FIELDS : list string :=
  ["x"; "y"; "scale"; "rotation"; "opacity"; "visible"; "origin"; "status";
   "lastUpdate"; "z"].

(** [ADDITIVE_FIELDS] is a Python set; the order below is the one the loop of
    [_propagate_group_delta] is unrolled in.  The four updates are
    independent, so the order shows only in which of them are done when
    [float] raises in the middle. *)
Definition ADDITIVE_FIELDS : list string := ["x"; "y"; "rotation"; "z"].

Definition _clamp_opacity (v : float) : float := py_max 0 (py_min 1 v).

(** The dict [_default_layer_state] builds, given what [_iso_now()] read. *)
Definition default_state (default_origin : value) (now : string) : gmap string value :=
  list_to_map
    [("x", VNum 0); ("y", VNum 0); ("scale", VNum 1); ("rotation", VNum 0);
     ("opacity", VNum 1); ("visible", VBool true);
     ("origin", if truthy default_origin then default_origin else VNone);
     ("status", VStr "idle"); ("lastUpdate", VStr now); ("z", VNum 0)].

Definition _default_layer_state {St} (default_origin : value) : M St (gmap string value) :=
  now <- _iso_now ;;
  ret (default_state default_origin now).

Record StateStore : Type := mkStore {
  layer_tree : gmap string (list string);
  current : gmap string (gmap string value);
  history : list (gmap string (gmap string value));
  future : list (gmap string (gmap string value));
}.

Definition set_current (c : gmap string (gmap string value)) (s : StateStore) : StateStore :=
  mkStore (layer_tree s) c (history s) (future s).
Definition set_layer_tree (lt : gmap string (list string)) (s : StateStore) : StateStore :=
  mkStore lt (current s) (history s) (future s).

(** [self.current[layer_id]] *)
Definition current_at (layer_id : string) : M StateStore (gmap string value) :=
  s <- get ;;
  match current s !! layer_id with
  | Some state => ret state
  | None => raise (KeyError layer_id)
  end.

Definition get_layer_tree (layer_id : string) : M StateStore (list string) :=
  s <- get ;; ret (default [] (layer_tree s !! layer_id)).

Definition _ensure_layer (layer_id : string) : M StateStore unit :=
  s <- get ;;
  (if bool_decide (is_Some (current s !! layer_id)) then ret tt
   else
     state <- _default_layer_state VNone ;;
     modify (fun s => set_current (<[layer_id := state]> (current s)) s)) ;;;
  s <- get ;;
  if bool_decide (is_Some (layer_tree s !! layer_id)) then ret tt
  else modify (fun s => set_layer_tree (<[layer_id := []]> (layer_tree s)) s).

Definition get_layer_state (layer_id : string) : M StateStore (gmap string value) :=
  _ensure_layer layer_id ;;;
  current_at layer_id.

Definition get_state : M StateStore (gmap string (gmap string value)) :=
  s <- get ;; ret (current s).

Definition _commit_history : M StateStore unit :=
  modify (fun s => mkStore (layer_tree s) (current s) (history s ++ [current s]) []).

Definition normalize_one (key : string) (v : value) : result (option value) :=
  if negb (bool_decide (key ∈ TRACKED_FIELDS)) then Ok None
  else if bool_decide (key = "opacity") then
    match py_float v with
    | Ok f => Ok (Some (VNum (_clamp_opacity f)))
    | Raise e => Raise e
    end
  else if bool_decide (key = "scale") then
    match py_float v with Ok f => Ok (Some (VNum f)) | Raise e => Raise e end
  else if bool_decide (key ∈ ["x"; "y"; "rotation"; "z"]) then
    match py_float v with Ok f => Ok (Some (VNum f)) | Raise e => Raise e end
  else if bool_decide (key = "visible") then Ok (Some (VBool (truthy v)))
  else if bool_decide (key = "origin") then Ok (Some v)
  else if bool_decide (key = "status") then Ok (Some (VStr (py_str v)))
  else if bool_decide (key = "lastUpdate") then Ok (Some (VStr (py_str v)))
  else Ok None.

Fixpoint normalize_items (items : list (string * value)) (normalized : gmap string value)
  : result (gmap string value) :=
  match items with
  | [] => Ok normalized
  | (key, v) :: rest =>
      match normalize_one key v with
      | Ok (Some v') => normalize_items rest (<[key := v']> normalized)
      | Ok None => normalize_items rest normalized
      | Raise e => Raise e
      end
  end.

Definition _normalize_props {St} (props : list (string * value)) : M St (gmap string value) :=
  normalized <- lift_result (normalize_items props ∅) ;;
  if bool_decide (is_Some (normalized !! "lastUpdate")) then ret normalized
  else now <- _iso_now ;; ret (<["lastUpdate" := VStr now]> normalized).

(** [self.current[layer_id].update(delta)] *)
Definition update_current (layer_id : string) (delta : gmap string value) : M StateStore unit :=
  state <- current_at layer_id ;;
  modify (fun s => set_current (<[layer_id := delta ∪ state]> (current s)) s).

Definition _apply_direct (layer_id : string) (props : list (string * value))
  : M StateStore (gmap string value) :=
  _ensure_layer layer_id ;;;
  normalized <- _normalize_props props ;;
  update_current layer_id normalized ;;;
  ret normalized.

(** [float(d.get(key, dflt))] *)
Definition float_get (d : gmap string value) (key : string) (dflt : float) : result float :=
  py_float (default (VNum dflt) (d !! key)).

Definition diff_of (key : string) (old_parent new_parent : gmap string value)
  : result float :=
  match float_get new_parent key 0 with
  | Ok a => match float_get old_parent key 0 with
            | Ok b => Ok (a - b)%float
            | Raise e => Raise e
            end
  | Raise e => Raise e
  end.

Definition ratio_of (key : string) (old_parent new_parent : gmap string value)
  : result float :=
  match float_get old_parent key 1 with
  | Ok old_v => match float_get new_parent key 1 with
                | Ok new_v => Ok (if PrimFloat.eqb old_v 0 then 1 else new_v / old_v)%float
                | Raise e => Raise e
                end
  | Raise e => Raise e
  end.

(** [self.current[child_id][key] = v] *)
Definition store_field (child_id key : string) (v : value) : M StateStore unit :=
  state <- current_at child_id ;;
  modify (fun s => set_current (<[child_id := <[key := v]> state]> (current s)) s).

Definition add_field (child_id : string) (deltas : gmap string float) (key : string)
  : M StateStore unit :=
  state <- current_at child_id ;;
  v <- lift_result (float_get state key 0) ;;
  store_field child_id key (VNum (v + default 0 (deltas !! key))%float).

(** The body of [for child_id in children], over the recursive call. *)
Definition propagate_child
    (recurse : string -> gmap string value -> gmap string value -> M StateStore unit)
    (deltas : gmap string float) (scale_ratio opacity_ratio : float) (child_id : string)
  : M StateStore unit :=
  _ensure_layer child_id ;;;
  child_before <- current_at child_id ;;
  for_each ADDITIVE_FIELDS (add_field child_id deltas) ;;;
  state <- current_at child_id ;;
  sc <- lift_result (float_get state "scale" 1) ;;
  store_field child_id "scale" (VNum (sc * scale_ratio)%float) ;;;
  state <- current_at child_id ;;
  op <- lift_result (float_get state "opacity" 1) ;;
  store_field child_id "opacity" (VNum (_clamp_opacity (op * opacity_ratio)%float)) ;;;
  now <- _iso_now ;;
  store_field child_id "lastUpdate" (VStr now) ;;;
  child_after <- current_at child_id ;;
  recurse child_id child_before child_after.

(** One Python frame per level of the layer tree: [fuel] frames are left.
    [new_parent] is the live dict [self.current[layer_id]] in the source; it
    is read for the deltas and the ratios only, before the loop over the
    children changes anything, so its value at the call is what counts. *)
Fixpoint _propagate_group_delta (fuel : nat) (layer_id : string)
    (old_parent new_parent : gmap string value) : M StateStore unit :=
  match fuel with
  | O => raise RecursionError
  | S fuel' =>
      children <- get_layer_tree layer_id ;;
      if bool_decide (children = []) then ret tt
      else
        dx <- lift_result (diff_of "x" old_parent new_parent) ;;
        dy <- lift_result (diff_of "y" old_parent new_parent) ;;
        drot <- lift_result (diff_of "rotation" old_parent new_parent) ;;
        dz <- lift_result (diff_of "z" old_parent new_parent) ;;
        let deltas : gmap string float :=
          list_to_map [("x", dx); ("y", dy); ("rotation", drot); ("z", dz)] in
        scale_ratio <- lift_result (ratio_of "scale" old_parent new_parent) ;;
        opacity_ratio <- lift_result (ratio_of "opacity" old_parent new_parent) ;;
        for_each children
          (propagate_child (_propagate_group_delta fuel') deltas scale_ratio opacity_ratio)
  end.

(** [if propagate and self.layer_tree.get(layer_id): ...] *)
Definition propagate_from (propagate : bool) (layer_id : string)
    (old_parent : gmap string value) : M StateStore unit :=
  children <- get_layer_tree layer_id ;;
  if propagate && negb (bool_decide (children = [])) then
    new_parent <- current_at layer_id ;;
    _propagate_group_delta recursion_limit layer_id old_parent new_parent
  else ret tt.

Definition set (layer_id : string) (props : list (string * value)) (propagate : bool)
  : M StateStore (gmap string value) :=
  _ensure_layer layer_id ;;;
  _commit_history ;;;
  old_parent <- current_at layer_id ;;
  applied <- _apply_direct layer_id props ;;
  propagate_from propagate layer_id old_parent ;;;
  ret applied.

(** One entry of [changes]: [change.get("layerId")] and [change.get("props")],
    [None] when the key is absent. *)
Record Change : Type := mkChange { layerId : option string; props : option value }.

Fixpoint batch_loop (changes : list Change) (propagate : bool)
    (applied_changes : list (string * gmap string value))
  : M StateStore (list (string * gmap string value)) :=
  match changes with
  | [] => ret applied_changes
  | change :: rest =>
      match layerId change, default (VObj []) (props change) with
      | Some layer_id, VObj items =>
          if bool_decide (layer_id = "") then batch_loop rest propagate applied_changes
          else
            _ensure_layer layer_id ;;;
            old_parent <- current_at layer_id ;;
            applied <- _apply_direct layer_id items ;;
            propagate_from propagate layer_id old_parent ;;;
            batch_loop rest propagate (applied_changes ++ [(layer_id, applied)])
      | _, _ => batch_loop rest propagate applied_changes
      end
  end.

Definition batch_set (changes : list Change) (propagate : bool)
  : M StateStore (list (string * gmap string value)) :=
  _commit_history ;;;
  batch_loop changes propagate [].

Definition undo : M StateStore bool :=
  s <- get ;;
  match pop (history s) with
  | None => ret false
  | Some (history', top) =>
      put (mkStore (layer_tree s) top history' (future s ++ [current s])) ;;;
      ret true
  end.

Definition redo : M StateStore bool :=
  s <- get ;;
  match pop (future s) with
  | None => ret false
  | Some (future', top) =>
      put (mkStore (layer_tree s) top (history s ++ [current s]) future') ;;;
      ret true
  end.

(** *** The layer tree a propagation walks *)

(** A finite tree of layer ids. *)
Inductive LayerTree : Type :=
  | LNode (root : string) (subtrees : list LayerTree).

Definition lt_root (T : LayerTree) : string :=
  match T with LNode root _ => root end.
Definition lt_subtrees (T : LayerTree) : list LayerTree :=
  match T with LNode _ subtrees => subtrees end.

Fixpoint lt_ids (T : LayerTree) : list string :=
  match T with LNode root subtrees => root :: flat_map lt_ids subtrees end.

(** The (parent, child) pairs of a tree. *)
Fixpoint lt_edges (T : LayerTree) : list (string * string) :=
  match T with
  | LNode root subtrees =>
      map (fun sub => (root, lt_root sub)) subtrees ++ flat_map lt_edges subtrees
  end.

Fixpoint lt_height (T : LayerTree) : nat :=
  match T with
  | LNode _ subtrees => S (foldr Nat.max O (map lt_height subtrees))
  end.

(** [layer_tree] records the tree [T]: the children it lists for every node
    of [T] are the roots of the node's subtrees, in order. *)
Inductive describes (tree : gmap string (list string)) : LayerTree -> Prop :=
  | describes_node root subtrees :
      default [] (tree !! root) = map lt_root subtrees ->
      Forall (describes tree) subtrees ->
      describes tree (LNode root subtrees).

(** Two stores list the same children for every layer. *)
Definition same_children (s s' : StateStore) : Prop :=
  forall id, default [] (layer_tree s' !! id) = default [] (layer_tree s !! id).

Definition NUMERIC_FIELDS : list string :=
  ["x"; "y"; "rotation"; "z"; "scale"; "opacity"].

(** A layer state whose transform fields all hold numbers, as every state
    the store builds does. *)
Definition numeric (state : gmap string value) : Prop :=
  forall key, key ∈ NUMERIC_FIELDS -> exists f, state !! key = Some (VNum f).

(** [float(state.get(key, dflt))] where it does not raise. *)
Definition fget (state : gmap string value) (key : string) (dflt : float) : float :=
  match float_get state key dflt with
  | Ok f => f
  | Raise _ => dflt
  end.

(** The additive delta and the guarded ratio of one field between the
    before and after states of a parent. *)
Definition delta (key : string) (old_parent new_parent : gmap string value) : float :=
  (fget new_parent key 0 - fget old_parent key 0)%float.
Definition ratio (key : string) (old_parent new_parent : gmap string value) : float :=
  if PrimFloat.eqb (fget old_parent key 1) 0 then 1%float
  else (fget new_parent key 1 / fget old_parent key 1)%float.

(** A child state after one propagation step with the given deltas and
    ratios, stamped [now]. *)
Definition moved (dx dy drot dz scale_ratio opacity_ratio : float)
    (child : gmap string value) (now : string) : gmap string value :=
  <["lastUpdate" := VStr now]>
    (<["opacity" := VNum (_clamp_opacity (fget child "opacity" 1 * opacity_ratio)%float)]>
       (<["scale" := VNum (fget child "scale" 1 * scale_ratio)%float]>
          (<["z" := VNum (fget child "z" 0 + dz)%float]>
             (<["rotation" := VNum (fget child "rotation" 0 + drot)%float]>
                (<["y" := VNum (fget child "y" 0 + dy)%float]>
                   (<["x" := VNum (fget child "x" 0 + dx)%float]> child)))))).

(** The state of a child after its parent went from [old_parent] to
    [new_parent]. *)
Definition child_after (old_parent new_parent child : gmap string value) (now : string)
  : gmap string value :=
  moved (delta "x" old_parent new_parent) (delta "y" old_parent new_parent)
        (delta "rotation" old_parent new_parent) (delta "z" old_parent new_parent)
        (ratio "scale" old_parent new_parent) (ratio "opacity" old_parent new_parent)
        child now.

(** Between the state maps [cur] and [cur'], every child of the pairs
    [edges] has followed its own parent. *)
Definition follows_parents (edges : list (string * string))
    (cur cur' : gmap string (gmap string value)) : Prop :=
  forall p c, (p, c) ∈ edges ->
    exists sp sp' sc now,
      cur !! p = Some sp /\ cur' !! p = Some sp'
      /\ cur !! c = Some sc /\ cur' !! c = Some (child_after sp sp' sc now).

(** Between [cur] and [cur'], the roots of [subs] have moved by the given
    deltas and ratios. *)
Definition follows_directly (dx dy drot dz scale_ratio opacity_ratio : float)
    (subs : list LayerTree) (cur cur' : gmap string (gmap string value)) : Prop :=
  forall sub, sub ∈ subs ->
    exists sc now,
      cur !! lt_root sub = Some sc
      /\ cur' !! lt_root sub
         = Some (moved dx dy drot dz scale_ratio opacity_ratio sc now).

(** The state map holds a numeric state for each of [ids]. *)
Definition known_numeric (ids : list string) (cur : gmap string (gmap string value)) : Prop :=
  forall id, id ∈ ids -> exists state, cur !! id = Some state /\ numeric state.

(** What one call of [_propagate_group_delta] on the root of [T] does, on a
    store that records [T] and holds numeric states below the root. *)
Definition propagate_ok (T : LayerTree) : Prop :=
  forall fuel old_parent new_parent s t,
    lt_height T <= fuel ->
    describes (layer_tree s) T ->
    NoDup (lt_ids T) ->
    numeric old_parent -> numeric new_parent ->
    known_numeric (flat_map lt_ids (lt_subtrees T)) (current s) ->
    exists s' t',
      _propagate_group_delta fuel (lt_root T) old_parent new_parent s t = mkRun (Ok tt) s' t'
      /\ same_children s s'
      /\ (forall id, id ∉ flat_map lt_ids (lt_subtrees T) -> current s' !! id = current s !! id)
      /\ follows_directly
           (delta "x" old_parent new_parent) (delta "y" old_parent new_parent)
           (delta "rotation" old_parent new_parent) (delta "z" old_parent new_parent)
           (ratio "scale" old_parent new_parent) (ratio "opacity" old_parent new_parent)
           (lt_subtrees T) (current s) (current s')
      /\ follows_parents (flat_map lt_edges (lt_subtrees T)) (current s) (current s').

(** A caller issuing [set] calls one after the other, whatever each returns
    or raises. *)
Record SetCall : Type := mkSetCall {
  sc_layer_id : string; sc_props : list (string * value); sc_propagate : bool;
}.

Fixpoint set_calls (calls : list SetCall) (s : StateStore) (t : nat) : StateStore * nat :=
  match calls with
  | [] => (s, t)
  | c :: rest =>
      let r := set (sc_layer_id c) (sc_props c) (sc_propagate c) s t in
      set_calls rest (st r) (clk r)
  end.

(** The entries of [changes] that [batch_set] does not skip. *)
Definition kept_layer_id (change : Change) : option string :=
  match layerId change, default (VObj []) (props change) with
  | Some layer_id, VObj _ => if bool_decide (layer_id = "") then None else Some layer_id
  | _, _ => None
  end.

(** [normalized] with the [lastUpdate] stamp [_normalize_props] adds when
    the props carry none. *)
Definition stamped (normalized : gmap string value) (now : string) : gmap string value :=
  if bool_decide (is_Some (normalized !! "lastUpdate")) then normalized
  else <["lastUpdate" := VStr now]> normalized.

(** The state map as [_ensure_layer] leaves it. *)
Definition ensured (layer_id : string) (s : StateStore) (t : nat)
  : gmap string (gmap string value) :=
  current (st (_ensure_layer layer_id s t)).

End StateStoreModel.

(** A relation on stores that a computation preserves, whatever it returns
    or raises. *)
Definition preserves {A} (R : StateStore -> StateStore -> Prop) (m : M StateStore A) : Prop :=
  forall s t, R s (st (m s t)).

(** The two stacks are the same. *)
Definition same_stacks (s s' : StateStore) : Prop :=
  history s' = history s /\ future s' = future s.

(** The layers outside [X] hold the same state. *)
Definition same_outside (X : gset string) (s s' : StateStore) : Prop :=
  forall id, id ∉ X -> current s' !! id = current s !! id.

(** ** runtime/reconcile.py *)

(** [sorted(set(ids))]: insertion into a strictly increasing list. *)
Fixpoint insert_uniq (x : string) (l : list string) : list string :=
  match l with
  | [] => [x]
  | y :: rest =>
      if bool_decide (x = y) then l
      else if String.ltb x y then x :: l
      else y :: insert_uniq x rest
  end.

Definition sorted_set (l : list string) : list string := foldr insert_uniq [] l.

Definition RECONCILE_FIELDS : list string :=
  ["x"; "y"; "scale"; "rotation"; "opacity"; "visible"; "origin"; "status"; "z"].

Record ReconcileResult : Type := mkReconcileResult {
  changed_layer_ids : list string;
  dom_patch : gmap string (gmap string value);
}.

Definition _values_different (a b : value) (tolerance : float) : bool :=
  match as_number a, as_number b with
  | Some x, Some y => PrimFloat.ltb tolerance (abs (x - y))
  | _, _ => negb (py_eqb a b)
  end.

(** The locals of one iteration of the layer loop. *)
Record FieldDiff : Type := mkFieldDiff {
  needs_change : bool;
  update_for_store : list (string * value);
  update_for_dom : gmap string value;
}.

Section ReconcileModel.
Context {rt : PyRuntime}.

Definition authority_of (store_state : gmap string value) (prefer : string) : string :=
  if bool_decide (py_str (default (VStr "") (store_state !! "status")) = "locked")
  then "store" else prefer.

(** The body of [for field in RECONCILE_FIELDS]. *)
Definition reconcile_field (authoritative : string)
    (store_state dom_state : gmap string value) (tolerance : float)
    (acc : FieldDiff) (field : string) : FieldDiff :=
  if bool_decide (dom_state !! field = None) && bool_decide (store_state !! field = None)
  then acc
  else if bool_decide (authoritative = "dom") && bool_decide (dom_state !! field = None)
  then acc
  else if bool_decide (authoritative = "store") && bool_decide (store_state !! field = None)
  then acc
  else
    let store_value := default VNone (store_state !! field) in
    let dom_value := default VNone (dom_state !! field) in
    if negb (_values_different store_value dom_value tolerance) then acc
    else if bool_decide (authoritative = "dom")
    then mkFieldDiff true (update_for_store acc ++ [(field, dom_value)]) (update_for_dom acc)
    else mkFieldDiff true (update_for_store acc) (<[field := store_value]> (update_for_dom acc)).

Definition diff_layer (store_state dom_state : gmap string value)
    (prefer : string) (tolerance : float) : FieldDiff :=
  foldl (reconcile_field (authority_of store_state prefer) store_state dom_state tolerance)
        (mkFieldDiff false [] ∅) RECONCILE_FIELDS.

(** The body of [for layer_id, dom_state in dom_layers.items()]. *)
Fixpoint reconcile_loop (dom_layers : list (string * gmap string value))
    (prefer : string) (dry_run : bool) (tolerance : float)
    (changed : list string) (patch : gmap string (gmap string value))
  : M StateStore (list string * gmap string (gmap string value)) :=
  match dom_layers with
  | [] => ret (changed, patch)
  | (layer_id, dom_state) :: rest =>
      s <- get ;;
      match current s !! layer_id with
      | None => reconcile_loop rest prefer dry_run tolerance changed patch
      | Some store_state =>
          let d := diff_layer store_state dom_state prefer tolerance in
          if negb (needs_change d)
          then reconcile_loop rest prefer dry_run tolerance changed patch
          else if dry_run
          then reconcile_loop rest prefer dry_run tolerance (changed ++ [layer_id]) patch
          else
            (match update_for_store d with
             | [] => ret tt
             | _ :: _ => set layer_id (update_for_store d) false ;;; ret tt
             end) ;;;
            reconcile_loop rest prefer dry_run tolerance (changed ++ [layer_id])
              (if bool_decide (size (update_for_dom d) = O) then patch
               else <[layer_id := update_for_dom d]> patch)
      end
  end.

Definition reconcile_with_dom (dom_layers : list (string * gmap string value))
    (prefer : string) (dry_run : bool) (tolerance : float) : M StateStore ReconcileResult :=
  if negb (bool_decide (prefer ∈ ["dom"; "store"]))
  then raise (ValueError "prefer must be 'dom' or 'store'")
  else
    out <- reconcile_loop dom_layers prefer dry_run tolerance [] ∅ ;;
    ret (mkReconcileResult (sorted_set (fst out)) (snd out)).

Definition reconcile_state_from_dom (dom_layers : list (string * gmap string value))
    (prefer : string) (dry_run : bool) : M StateStore (list string) :=
  result <- reconcile_with_dom dom_layers prefer dry_run 1e-6%float ;;
  ret (changed_layer_ids result).

(** The layers one pass reports as changed, read off a state map: those
    known to the store whose field loop found a difference. *)
Definition changed_of (dom_layers : list (string * gmap string value))
    (prefer : string) (tolerance : float) (cur : gmap string (gmap string value))
  : list string :=
  flat_map (fun item =>
              match cur !! item.1 with
              | Some store_state =>
                  if needs_change (diff_layer store_state item.2 prefer tolerance)
                  then [item.1] else []
              | None => []
              end) dom_layers.

End ReconcileModel.

(** ** compiler/layer_compiler.py *)

(** An [xml.etree.ElementTree.Element]: tag, attributes, text, children. *)
Inductive Element : Type :=
  | mkElement (tag : string) (attrib : list (string * string))
              (text : option string) (children : list Element).

Definition el_tag (node : Element) : string :=
  match node with mkElement tag _ _ _ => tag end.
Definition el_attrib (node : Element) : list (string * string) :=
  match node with mkElement _ attrib _ _ => attrib end.
Definition el_text (node : Element) : option string :=
  match node with mkElement _ _ text _ => text end.
Definition el_children (node : Element) : list Element :=
  match node with mkElement _ _ _ children => children end.

Inductive LayerType : Type := LT_text | LT_shape | LT_group | LT_image | LT_unknown.

Definition LayerType_value (t : LayerType) : string :=
  match t with
  | LT_text => "text" | LT_shape => "shape" | LT_group => "group"
  | LT_image => "image" | LT_unknown => "unknown"
  end.

Record BBox : Type := mkBBox {
  bx_x : float; bx_y : float; bx_width : float; bx_height : float;
  bx_cx : float; bx_cy : float;
}.

Record LayerCapabilities : Type := mkCaps {
  cap_move : bool; cap_scale : bool; cap_rotate : bool; cap_opacity : bool;
  cap_depth : bool; cap_effect : bool; cap_jitter : bool;
  cap_maxRotation : option float; cap_minDepth : option float;
  cap_maxDepth : option float;
}.

Record Metadata : Type := mkMetadata {
  md_tag : string; md_parent : option string; md_attributeCount : nat;
}.

(** One entry of [collected] / of the full layer map. *)
Record LayerRow : Type := mkLayerRow {
  lid : string;
  label : string;
  ltype : string;
  bbox : BBox;
  defaultOrigin : value;
  zIndex : nat;
  tags : list string;
  aliases : list string;
  capabilities : gmap string value;
  fingerprint : string;
  children : list string;
  constraints : gmap string value;
  metadata : Metadata;
}.

(** An entry of the minimal layer map: [children], [constraints] and
    [metadata] are popped. *)
Record LayerRowMin : Type := mkLayerRowMin {
  min_lid : string;
  min_label : string;
  min_ltype : string;
  min_bbox : BBox;
  min_defaultOrigin : value;
  min_zIndex : nat;
  min_tags : list string;
  min_aliases : list string;
  min_capabilities : gmap string value;
  min_fingerprint : string;
}.

Record LayerMapDocument (Row : Type) : Type := mkLayerMap {
  schemaVersion : string;
  compilerVersion : string;
  sourceChecksum : string;
  generatedAt : string;
  layerCount : nat;
  layers : list Row;
}.
Arguments mkLayerMap {Row}.
Arguments schemaVersion {Row}.
Arguments compilerVersion {Row}.
Arguments sourceChecksum {Row}.
Arguments generatedAt {Row}.
Arguments layerCount {Row}.
Arguments layers {Row}.

Record CompileResult : Type := mkCompileResult {
  layer_map_min : LayerMapDocument LayerRowMin;
  layer_map_full : LayerMapDocument LayerRow;
  compile_manifest : gmap string value;
  recompile_required : bool;
  recompile_reason : option string;
}.

Record LayerCompiler : Type := mkLayerCompiler { compiler_version : string }.

(** What the compiler takes from the XML parser, [hashlib], [json], the
    process settings and the float geometry of [_bbox_for_element]. *)
Class CompilerLibs : Type := {
  fromstring : string -> option Element;             (* [None]: ParseError *)
  sha1_hexdigest : string -> string;
  sha256_hexdigest : string -> string;
  dumps_structure : string -> list (string * string) -> string -> string;
  dumps_min : LayerMapDocument LayerRowMin -> string;
  dumps_full : LayerMapDocument LayerRow -> string;
  _bbox_for_element : Element -> BBox;
  settings_compiler_version : string;
}.

(** *** String helpers *)

Definition chars (s : string) : list ascii := String.list_ascii_of_string s.
Definition of_chars (l : list ascii) : string := String.string_of_list_ascii l.

Definition code (c : ascii) : nat := Ascii.nat_of_ascii c.
Definition between (lo hi : nat) (c : ascii) : bool :=
  Nat.leb lo (code c) && Nat.leb (code c) hi.

Definition py_isspace (c : ascii) : bool := between 9 13 c || between 28 32 c.
Definition is_lower (c : ascii) : bool := between 97 122 c.
Definition is_upper (c : ascii) : bool := between 65 90 c.
Definition is_digit (c : ascii) : bool := between 48 57 c.

Fixpoint drop_spaces (l : list ascii) : list ascii :=
  match l with
  | [] => []
  | c :: rest => if py_isspace c then drop_spaces rest else l
  end.

(** [s.strip()] *)
Definition strip (s : string) : string :=
  of_chars (rev (drop_spaces (rev (drop_spaces (chars s))))).

(** [s.lower()] *)
Definition lower (s : string) : string :=
  of_chars (map (fun c => if is_upper c then Ascii.ascii_of_nat (code c + 32) else c)
                (chars s)).

(** [s.replace(a, b)] for single characters. *)
Definition replace_char (a b : ascii) (s : string) : string :=
  of_chars (map (fun c => if bool_decide (c = a) then b else c) (chars s)).

(** [tag.split("}", 1)[1] if "}" in tag else tag] *)
Fixpoint after_brace (l : list ascii) : option (list ascii) :=
  match l with
  | [] => None
  | c :: rest => if bool_decide (c = "}"%char) then Some rest else after_brace rest
  end.

Definition _strip_ns (tag : string) : string :=
  match after_brace (chars tag) with
  | Some rest => of_chars rest
  | None => tag
  end.

(** [re.split(r"[^a-z0-9]+", s)], empty tokens dropped. *)
Fixpoint split_tokens (l : list ascii) (cur : list ascii) : list string :=
  match l with
  | [] => if bool_decide (cur = []) then [] else [of_chars (rev cur)]
  | c :: rest =>
      if is_lower c || is_digit c then split_tokens rest (c :: cur)
      else if bool_decide (cur = []) then split_tokens rest []
      else of_chars (rev cur) :: split_tokens rest []
  end.

Definition _tokenize_aliases (values : list string) : list string :=
  sorted_set
    (flat_map (fun v => filter (fun token => 1 < String.length token)%nat
                               (split_tokens (chars (lower v)) []))
              values).

Definition _infer_type (tag : string) : LayerType :=
  if bool_decide (tag = "text") then LT_text
  else if bool_decide (tag ∈ ["rect"; "circle"; "ellipse"; "line"; "polygon"; "polyline"; "path"])
  then LT_shape
  else if bool_decide (tag = "g") then LT_group
  else if bool_decide (tag = "image") then LT_image
  else LT_unknown.

Definition _infer_capabilities (layer_type : LayerType) : LayerCapabilities :=
  let common effect jitter :=
    mkCaps true true true true true effect jitter
           (Some 45%float) (Some (-200)%float) (Some 200%float) in
  match layer_type with
  | LT_shape => common true true
  | LT_image => common true false
  | LT_group => common true false
  | LT_text => common false false
  | LT_unknown => common false false
  end.

Definition opt_num (o : option float) : value :=
  match o with Some f => VNum f | None => VNone end.

(** [_model_dump] of a [LayerCapabilities]. *)
Definition dump_capabilities (c : LayerCapabilities) : gmap string value :=
  list_to_map
    [("move", VBool (cap_move c)); ("scale", VBool (cap_scale c));
     ("rotate", VBool (cap_rotate c)); ("opacity", VBool (cap_opacity c));
     ("depth", VBool (cap_depth c)); ("effect", VBool (cap_effect c));
     ("jitter", VBool (cap_jitter c));
     ("maxRotation", opt_num (cap_maxRotation c));
     ("minDepth", opt_num (cap_minDepth c)); ("maxDepth", opt_num (cap_maxDepth c))].

(** [o or dflt] for an optional float. *)
Definition or_default (o : option float) (dflt : float) : float :=
  match o with
  | Some f => if PrimFloat.eqb f 0 then dflt else f
  | None => dflt
  end.

Definition min_of (first : float) (others : list float) : float :=
  foldl py_min first others.
Definition max_of (first : float) (others : list float) : float :=
  foldl py_max first others.

Definition _bbox_union (boxes : list BBox) : BBox :=
  match boxes with
  | [] => mkBBox 0 0 0 0 0 0
  | b :: rest =>
      let min_x := min_of (bx_x b) (map bx_x rest) in
      let min_y := min_of (bx_y b) (map bx_y rest) in
      let right_of (b : BBox) := (bx_x b + bx_width b)%float in
      let bottom_of (b : BBox) := (bx_y b + bx_height b)%float in
      let max_x := max_of (right_of b) (map right_of rest) in
      let max_y := max_of (bottom_of b) (map bottom_of rest) in
      let width := py_max 0 (max_x - min_x) in
      let height := py_max 0 (max_y - min_y) in
      mkBBox min_x min_y width height (min_x + width / 2) (min_y + height / 2)
  end.

(** [sorted(node.attrib.items())] *)
Fixpoint insert_item (kv : string * string) (l : list (string * string))
  : list (string * string) :=
  match l with
  | [] => [kv]
  | kv' :: rest =>
      if String.ltb (fst kv') (fst kv) then kv' :: insert_item kv rest else kv :: l
  end.

Definition sorted_items (l : list (string * string)) : list (string * string) :=
  foldr insert_item [] l.

(** [node.attrib.get(key) or ""] *)
Definition attrib_or_empty (node : Element) (key : string) : string :=
  default "" (assoc key (el_attrib node)).

Definition first_nonempty (a b : string) : string :=
  if bool_decide (a = "") then b else a.

Definition STRUCTURAL_TAGS : list string :=
  ["defs"; "clipPath"; "mask"; "style"; "metadata"; "title"; "desc"].

Section CompilerModel.
Context {rt : PyRuntime} {libs : CompilerLibs}.

Definition _sha256_text (v : string) : string := "sha256:" +:+ sha256_hexdigest v.

Definition _fingerprint_for_node (node : Element) : string :=
  let tag := _strip_ns (el_tag node) in
  let attrs :=
    map (fun kv => (fst kv, strip (snd kv)))
        (filter (fun kv => fst kv ≠ "id") (sorted_items (el_attrib node))) in
  let text := strip (default "" (el_text node)) in
  String.substring 0 12 (sha1_hexdigest (dumps_structure tag attrs text)).

Definition sanitize_id (s : string) : string :=
  of_chars (map (fun c =>
                   if is_lower c || is_upper c || is_digit c
                      || bool_decide (c = "_"%char) || bool_decide (c = "-"%char)
                   then c else "_"%char)
                (chars s)).

Definition _stable_layer_id (node : Element) (fingerprint : string) : string :=
  let source_id := strip (attrib_or_empty node "id") in
  if negb (bool_decide (source_id = "")) then sanitize_id source_id
  else "layer_" +:+ _strip_ns (el_tag node) +:+ "_" +:+ fingerprint.

Definition _layer_label (node : Element) (layer_id : string) : string :=
  let label :=
    strip (first_nonempty (attrib_or_empty node "data-label")
                          (attrib_or_empty node "inkscape:label")) in
  if negb (bool_decide (label = "")) then label
  else if String.prefix "layer_" layer_id then
    first_nonempty
      (strip (replace_char "_"%char " "%char
                (String.substring 6 (String.length layer_id - 6) layer_id)))
      layer_id
  else layer_id.

Definition source_checksum (self : LayerCompiler) (svg_text : string) : string :=
  _sha256_text svg_text.

Definition new_LayerCompiler (compiler_version : option string) : LayerCompiler :=
  mkLayerCompiler
    (first_nonempty (default "" compiler_version) settings_compiler_version).

Definition needs_recompile (self : LayerCompiler) (svg_text : string)
    (previous_manifest : option (gmap string value)) (manual_recompile : bool)
  : bool * option string :=
  if manual_recompile then (true, Some "manual_recompile")
  else
    match previous_manifest with
    | None => (true, Some "missing_manifest")
    | Some manifest =>
        if bool_decide (size manifest = O) then (true, Some "missing_manifest")
        else
          let checksum := source_checksum self svg_text in
          if negb (py_eqb (default VNone (manifest !! "sourceChecksum")) (VStr checksum))
          then (true, Some "source_checksum_changed")
          else if negb (py_eqb (default VNone (manifest !! "compilerVersion"))
                               (VStr (compiler_version self)))
          then (true, Some "compiler_version_changed")
          else (false, None)
    end.

(** The loop [for child in list(node)] of [visit], over the visit of one
    child; [acc] is [collected] with [z_counter[0]].  An exception of a
    child's visit ends the loop. *)
Fixpoint visit_children
    (visit : Element -> option string -> list LayerRow * nat ->
             result (option BBox * (list LayerRow * nat)))
    (layer_id : string) (cs : list Element) (acc : list LayerRow * nat)
    (child_boxes : list BBox) (child_ids : list string)
  : result ((list LayerRow * nat) * list BBox * list string) :=
  match cs with
  | [] => Ok (acc, child_boxes, child_ids)
  | child :: rest =>
      let child_fingerprint := _fingerprint_for_node child in
      let child_layer_id := _stable_layer_id child child_fingerprint in
      match visit child (Some layer_id) acc with
      | Raise e => Raise e
      | Ok (child_bbox, acc') =>
          match child_bbox with
          | Some b =>
              visit_children visit layer_id rest acc'
                (child_boxes ++ [b]) (child_ids ++ [child_layer_id])
          | None => visit_children visit layer_id rest acc' child_boxes child_ids
          end
      end
  end.

Definition structural (node : Element) : bool :=
  bool_decide (_strip_ns (el_tag node) ∈ STRUCTURAL_TAGS).

(** The closure [visit] of [_collect_layers].  It calls itself on every
    child, one Python frame per level of the document: [fuel] frames are
    left, and a call with none left raises [RecursionError], whatever the
    node is. *)
Fixpoint visit (fuel : nat) (node : Element) (parent_id : option string)
    (acc : list LayerRow * nat) : result (option BBox * (list LayerRow * nat)) :=
  match fuel with
  | O => Raise RecursionError
  | S fuel' =>
      let tag := _strip_ns (el_tag node) in
      if structural node then Ok (None, acc)
      else
        let fingerprint := _fingerprint_for_node node in
        let layer_id := _stable_layer_id node fingerprint in
        let label := _layer_label node layer_id in
        let aliases := _tokenize_aliases [layer_id; label] in
        let tags :=
          _tokenize_aliases
            [attrib_or_empty node "data-label"; attrib_or_empty node "class"] in
        let layer_type := _infer_type tag in
        let capabilities := _infer_capabilities layer_type in
        match visit_children (visit fuel') layer_id (el_children node) acc [] [] with
        | Raise e => Raise e
        | Ok (acc1, child_boxes, child_ids) =>
            let bbox :=
              match layer_type with
              | LT_group => _bbox_union child_boxes
              | _ =>
                  let own_bbox := _bbox_for_element node in
                  match child_boxes with
                  | [] => own_bbox
                  | _ :: _ => _bbox_union (own_bbox :: child_boxes)
                  end
              end in
            let constraints : gmap string value :=
              list_to_map
                [("maxRotation", VNum (or_default (cap_maxRotation capabilities) 45));
                 ("minDepth", VNum (or_default (cap_minDepth capabilities) (-200)));
                 ("maxDepth", VNum (or_default (cap_maxDepth capabilities) 200))] in
            let z_index := snd acc1 in
            Ok (Some bbox,
                (fst acc1 ++
                   [mkLayerRow layer_id label (LayerType_value layer_type) bbox
                      (VObj [("x", VNum (bx_cx bbox)); ("y", VNum (bx_cy bbox))])
                      z_index tags aliases (dump_capabilities capabilities) fingerprint
                      child_ids constraints
                      (mkMetadata tag parent_id (length (el_attrib node)))],
                 S z_index))
        end
  end.

(** The first call of [visit] has the interpreter's frame budget. *)
Definition _collect_layers (root : Element) : result (list LayerRow) :=
  match visit recursion_limit root None ([], O) with
  | Ok (_, (collected, _)) => Ok collected
  | Raise e => Raise e
  end.

(** [sorted(rows, key=lambda item: item["zIndex"])]: stable. *)
Fixpoint insert_by_zIndex (row : LayerRow) (l : list LayerRow) : list LayerRow :=
  match l with
  | [] => [row]
  | row' :: rest =>
      if Nat.leb (zIndex row) (zIndex row') then row :: l
      else row' :: insert_by_zIndex row rest
  end.

Definition sorted_by_zIndex (rows : list LayerRow) : list LayerRow :=
  foldr insert_by_zIndex [] rows.

Definition min_row (row : LayerRow) : LayerRowMin :=
  mkLayerRowMin (lid row) (label row) (ltype row) (bbox row) (defaultOrigin row)
    (zIndex row) (tags row) (aliases row) (capabilities row) (fingerprint row).

Definition _payload_checksum_min (payload : LayerMapDocument LayerRowMin) : string :=
  _sha256_text (dumps_min payload).
Definition _payload_checksum_full (payload : LayerMapDocument LayerRow) : string :=
  _sha256_text (dumps_full payload).

Definition compile {St} (self : LayerCompiler) (svg_text : string) : M St CompileResult :=
  match fromstring svg_text with
  | None => raise ParseError
  | Some root =>
      let checksum := source_checksum self svg_text in
      generated_at <- _iso_now ;;
      layer_rows <- lift_result (_collect_layers root) ;;
      let layer_rows_sorted := sorted_by_zIndex layer_rows in
      let full_layers := layer_rows_sorted in
      let min_layers := map min_row layer_rows_sorted in
      let layer_map_min :=
        mkLayerMap "1.0" (compiler_version self) checksum generated_at
                   (length min_layers) min_layers in
      let layer_map_full :=
        mkLayerMap "1.0" (compiler_version self) checksum generated_at
                   (length full_layers) full_layers in
      let compile_manifest : gmap string value :=
        list_to_map
          [("schemaVersion", VStr "1.0");
           ("compilerVersion", VStr (compiler_version self));
           ("sourceChecksum", VStr checksum);
           ("layerMapMinChecksum", VStr (_payload_checksum_min layer_map_min));
           ("layerMapFullChecksum", VStr (_payload_checksum_full layer_map_full));
           ("generatedAt", VStr generated_at)] in
      ret (mkCompileResult layer_map_min layer_map_full compile_manifest true
                           (Some "compiled"))
  end.

(** The layer id [visit] gives a node. *)
Definition layer_id_of (node : Element) : string :=
  _stable_layer_id node (_fingerprint_for_node node).

(** The nodes that become layers, in depth-first order with every node after
    the nodes of its subtree; a structural node hides its whole subtree. *)
Fixpoint emitted (node : Element) : list Element :=
  if structural node then []
  else flat_map emitted (el_children node) ++ [node].

(** The frames the visit of [node] takes: one for the node and, below a
    node that is a layer, those of its deepest child. *)
Fixpoint frames (node : Element) : nat :=
  if structural node then 1
  else S (foldr Nat.max 0 (map frames (el_children node))).

(** [rows] are the rows of the nodes [nodes], in that order, numbered from
    [z0] on. *)
Definition rows_of_nodes (z0 : nat) (nodes : list Element) (rows : list LayerRow) : Prop :=
  map zIndex rows = seq z0 (length nodes)
  /\ map lid rows = map layer_id_of nodes
  /\ map fingerprint rows = map _fingerprint_for_node nodes
  /\ map (fun row => md_tag (metadata row)) rows
     = map (fun node => _strip_ns (el_tag node)) nodes.

(** What one visit has appended when it returned [r], for a node that is a
    layer. *)
Definition visit_emits (node : Element) (parent_id : option string)
    (acc : list LayerRow * nat) (r : option BBox * (list LayerRow * nat))
    (rows : list LayerRow) (own : LayerRow) : Prop :=
  (exists b, r = (Some b, (acc.1 ++ rows ++ [own], S (zIndex own))))
  /\ rows_of_nodes acc.2 (flat_map emitted (el_children node)) rows
  /\ zIndex own = acc.2 + length rows
  /\ lid own = layer_id_of node
  /\ fingerprint own = _fingerprint_for_node node
  /\ md_tag (metadata own) = _strip_ns (el_tag node)
  /\ md_parent (metadata own) = parent_id
  /\ children own
     = map layer_id_of (filter (fun child => structural child = false) (el_children node)).

(** What a visit with [fuel] frames does when it returns, for a structural
    node and for a layer. *)
Definition visit_spec (fuel : nat) : Prop :=
  forall node parent_id acc r,
    visit fuel node parent_id acc = Ok r ->
    (structural node = true -> r = (None, acc))
    /\ (structural node = false -> exists rows own, visit_emits node parent_id acc r rows own).

End CompilerModel.

(** ** runtime/state_store.py: construction from a compiled layer map *)

Section FromLayerMap.
Context {rt : PyRuntime}.

Fixpoint from_layers {St} (layers : list LayerRow) (store : StateStore) : M St StateStore :=
  match layers with
  | [] => ret store
  | layer :: rest =>
      state <- _default_layer_state (defaultOrigin layer) ;;
      from_layers rest
        (mkStore (<[lid layer := children layer]> (layer_tree store))
                 (<[lid layer := state]> (current store)) [] [])
  end.

Definition from_layer_map_full {St} (layer_map_full : LayerMapDocument LayerRow)
  : M St StateStore :=
  from_layers (layers layer_map_full) (mkStore ∅ ∅ [] []).

End FromLayerMap.

(** ** runtime/engine.py *)

Record Step : Type := mkStep {
  step_layerId : string; step_action : string; step_props : gmap string value;
}.

Record RunRecord : Type := mkRunRecord {
  run_id : string;
  kind : string;
  status : string;
  started_at : string;
  finished_at : option string;
  steps : list Step;
}.

(** The engine's [store] is the service's store object; the model keeps that
    one store in the service record. *)
Record ExecutionEngine : Type := mkEngine {
  _counter : nat;
  active_runs : gmap string RunRecord;
  completed_runs : gmap string RunRecord;
}.

(** ** api/runtime_service.py *)

(** The three response caches are not part of the model. *)
Record RuntimeService : Type := mkService {
  svc_svg_text : string;
  svc_compiler : LayerCompiler;
  svc_layer_map_min : option (LayerMapDocument LayerRowMin);
  svc_layer_map_full : option (LayerMapDocument LayerRow);
  svc_compile_manifest : gmap string value;
  svc_store : option StateStore;
  svc_engine : option ExecutionEngine;
  svc_dom_layers : gmap string (gmap string value);
  svc_state_version : nat;
}.

Definition with_store (s : option StateStore) (svc : RuntimeService) : RuntimeService :=
  mkService (svc_svg_text svc) (svc_compiler svc) (svc_layer_map_min svc)
    (svc_layer_map_full svc) (svc_compile_manifest svc) s (svc_engine svc)
    (svc_dom_layers svc) (svc_state_version svc).

Definition with_engine (e : option ExecutionEngine) (svc : RuntimeService) : RuntimeService :=
  mkService (svc_svg_text svc) (svc_compiler svc) (svc_layer_map_min svc)
    (svc_layer_map_full svc) (svc_compile_manifest svc) (svc_store svc) e
    (svc_dom_layers svc) (svc_state_version svc).

(** [d[key] = v] on the items of a dict: an existing key keeps its place. *)
Fixpoint assoc_set {A : Type} (key : string) (v : A) (l : list (string * A))
  : list (string * A) :=
  match l with
  | [] => [(key, v)]
  | (k, w) :: rest =>
      if bool_decide (k = key) then (k, v) :: rest else (k, w) :: assoc_set key v rest
  end.

(** [f"{n:06d}"] *)
Definition zfill6 (digits : string) : string :=
  of_chars (replicate (6 - String.length digits) "0"%char) +:+ digits.

Section ServiceModel.
Context {rt : PyRuntime} {libs : CompilerLibs}.

(** A store method called through [self.store] (or [self.engine.store]). *)
Definition on_store {A} (m : M StateStore A) : M RuntimeService A :=
  fun svc t =>
    match svc_store svc with
    | None => mkRun (Raise (RuntimeError "State store is not initialized")) svc t
    | Some s => let r := m s t in mkRun (res r) (with_store (Some (st r)) svc) (clk r)
    end.

Definition the_engine : M RuntimeService ExecutionEngine :=
  svc <- get ;;
  match svc_engine svc with
  | Some e => ret e
  | None => raise (RuntimeError "Runtime not initialized")
  end.

Definition put_engine (e : ExecutionEngine) : M RuntimeService unit :=
  modify (with_engine (Some e)).

Definition _next_run_id : M RuntimeService string :=
  e <- the_engine ;;
  put_engine (mkEngine (S (_counter e)) (active_runs e) (completed_runs e)) ;;;
  ret ("run_" +:+ zfill6 (pretty (S (_counter e)))).

Definition _finish (run : RunRecord) : M RuntimeService unit :=
  now <- _iso_now ;;
  e <- the_engine ;;
  put_engine
    (mkEngine (_counter e) (delete (run_id run) (active_runs e))
       (<[run_id run :=
            mkRunRecord (run_id run) (kind run) "completed" (started_at run) (Some now)
                        (steps run)]> (completed_runs e))).

Definition run_set (layer_id : string) (props : list (string * value))
  : M RuntimeService (string * gmap string value) :=
  rid <- _next_run_id ;;
  started <- _iso_now ;;
  let run := mkRunRecord rid "set" "running" started None [] in
  e <- the_engine ;;
  put_engine (mkEngine (_counter e) (<[rid := run]> (active_runs e)) (completed_runs e)) ;;;
  applied <- on_store (set layer_id props true) ;;
  let run := mkRunRecord rid "set" "running" started None [mkStep layer_id "set" applied] in
  e <- the_engine ;;
  put_engine (mkEngine (_counter e) (<[rid := run]> (active_runs e)) (completed_runs e)) ;;;
  _finish run ;;;
  planned <- on_store (get_layer_state layer_id) ;;
  ret (rid, planned).

Definition layers_full (self : RuntimeService) : list LayerRow :=
  match svc_layer_map_full self with
  | Some doc => layers doc
  | None => []
  end.

Definition _layer_full_by_id (self : RuntimeService) (layer_id : string) : result LayerRow :=
  match find (fun layer => bool_decide (lid layer = layer_id)) (layers_full self) with
  | Some layer => Ok layer
  | None => Raise (KeyError layer_id)
  end.

Definition get_layer_detail (layer_id : string) : M RuntimeService LayerRow :=
  self <- get ;; lift_result (_layer_full_by_id self layer_id).

Definition cap_map : list (string * string) :=
  [("x", "move"); ("y", "move"); ("scale", "scale"); ("rotation", "rotate");
   ("opacity", "opacity"); ("z", "depth")].

Definition _has_capability (self : RuntimeService) (layer_id prop : string) : result bool :=
  match assoc prop cap_map with
  | None => Ok true
  | Some capability_key =>
      match _layer_full_by_id self layer_id with
      | Ok layer => Ok (truthy (default (VBool false) (capabilities layer !! capability_key)))
      | Raise e => Raise e
      end
  end.

Definition clamp_opacity_prop (output : list (string * value)) : result (list (string * value)) :=
  match assoc "opacity" output with
  | None => Ok output
  | Some v =>
      match py_float v with
      | Ok f => Ok (assoc_set "opacity" (VNum (py_max 0 (py_min 1 f))) output)
      | Raise e => Raise e
      end
  end.

Definition clamp_rotation_prop (constraints : gmap string value)
    (output : list (string * value)) : result (list (string * value)) :=
  match assoc "rotation" output, constraints !! "maxRotation" with
  | Some v, Some bound =>
      match py_float bound with
      | Ok b =>
          let max_rotation := abs b in
          match py_float v with
          | Ok value =>
              Ok (assoc_set "rotation"
                    (VNum (py_max (- max_rotation) (py_min max_rotation value))) output)
          | Raise e => Raise e
          end
      | Raise e => Raise e
      end
  | _, _ => Ok output
  end.

Definition clamp_z_prop (constraints : gmap string value)
    (output : list (string * value)) : result (list (string * value)) :=
  match assoc "z" output with
  | None => Ok output
  | Some v =>
      match float_get constraints "minDepth" (-200) with
      | Ok min_depth =>
          match float_get constraints "maxDepth" 200 with
          | Ok max_depth =>
              match py_float v with
              | Ok z => Ok (assoc_set "z" (VNum (py_max min_depth (py_min max_depth z))) output)
              | Raise e => Raise e
              end
          | Raise e => Raise e
          end
      | Raise e => Raise e
      end
  end.

Definition _clamp_props (self : RuntimeService) (layer_id : string)
    (props : list (string * value)) : result (list (string * value)) :=
  match _layer_full_by_id self layer_id with
  | Raise e => Raise e
  | Ok layer =>
      match clamp_opacity_prop props with
      | Raise e => Raise e
      | Ok output =>
          match clamp_rotation_prop (constraints layer) output with
          | Raise e => Raise e
          | Ok output => clamp_z_prop (constraints layer) output
          end
      end
  end.

Definition _touch_state : M RuntimeService unit :=
  self <- get ;;
  match svc_store self with
  | None => ret tt
  | Some store =>
      put (mkService (svc_svg_text self) (svc_compiler self) (svc_layer_map_min self)
             (svc_layer_map_full self) (svc_compile_manifest self) (svc_store self)
             (svc_engine self) (current store) (S (svc_state_version self)))
  end.

Definition check_capabilities (layer_id : string) (keys : list string)
  : M RuntimeService unit :=
  for_each keys (fun key =>
    self <- get ;;
    ok <- lift_result (_has_capability self layer_id key) ;;
    if ok then ret tt
    else raise (PermissionError ("Layer '" +:+ layer_id +:+ "' does not allow '" +:+ key +:+ "'"))).

Definition set_layer_state (layer_id : string) (props : list (string * value))
  : M RuntimeService (list (string * value) * string) :=
  self <- get ;;
  match svc_store self, svc_engine self with
  | Some _, Some _ =>
      lift_result (_layer_full_by_id self layer_id) ;;;
      check_capabilities layer_id (map fst props) ;;;
      clamped <- lift_result (_clamp_props self layer_id props) ;;
      result <- run_set layer_id clamped ;;
      _touch_state ;;;
      ret (clamped, fst result)
  | _, _ => raise (RuntimeError "Runtime not initialized")
  end.

Definition compile_svg (svg_text : string) (force : bool) : M RuntimeService unit :=
  self <- get ;;
  let '(should, _) :=
    needs_recompile (svc_compiler self) svg_text
      (if bool_decide (size (svc_compile_manifest self) = O) then None
       else Some (svc_compile_manifest self))
      force in
  if negb should && bool_decide (is_Some (svc_layer_map_min self))
     && bool_decide (is_Some (svc_layer_map_full self))
  then ret tt
  else
    result <- compile (svc_compiler self) svg_text ;;
    store <- from_layer_map_full (layer_map_full result) ;;
    put (mkService svg_text (svc_compiler self) (Some (layer_map_min result))
           (Some (layer_map_full result)) (compile_manifest result) (Some store)
           (Some (mkEngine O ∅ ∅)) (current store) O).

End ServiceModel.


(** * Further vocabulary: invariants and reachability *)

(** A computation keeps the invariant [I] of the state, whether it returns
    or raises, and what it returns satisfies [Q]. *)
Definition maintains {St A} (I : St -> Prop) (m : M St A) (Q : A -> Prop) : Prop :=
  forall s t, I s -> I (st (m s t)) /\ forall a, res (m s t) = Ok a -> Q a.

(** From a state that satisfies [I], the computation returns only if [C]
    holds. *)
Definition returns_only_if {St A} (I : St -> Prop) (m : M St A) (C : Prop) : Prop :=
  forall s t a, I s -> res (m s t) = Ok a -> C.

(** A float within [0, 1]. *)
Definition in_unit (f : float) : Prop :=
  PrimFloat.leb 0 f = true /\ PrimFloat.leb f 1 = true.

Section StoreInvariants.
Context {rt : PyRuntime}.

(** A layer state whose six numeric fields hold floats, the opacity one
    within [0, 1]. *)
Definition state_ok (state : gmap string value) : Prop :=
  numeric state /\ exists f, state !! "opacity" = Some (VNum f) /\ in_unit f.

Definition states_ok (cur : gmap string (gmap string value)) : Prop :=
  forall id state, cur !! id = Some state -> state_ok state.

(** The state map and every snapshot on the two stacks hold such states
    only. *)
Definition store_ok (s : StateStore) : Prop :=
  states_ok (current s) /\ Forall states_ok (history s) /\ Forall states_ok (future s).

(** What a dict merged into a layer state may carry for the state to stay
    [state_ok]. *)
Definition delta_ok (delta : gmap string value) : Prop :=
  (forall key v, key ∈ NUMERIC_FIELDS -> delta !! key = Some v -> exists f, v = VNum f)
  /\ (forall v, delta !! "opacity" = Some v -> exists f, v = VNum f /\ in_unit f).

(** What may be stored under [key] for the state to stay [state_ok]. *)
Definition field_ok (key : string) (v : value) : Prop :=
  (key ∈ NUMERIC_FIELDS -> exists f, v = VNum f)
  /\ (key = "opacity" -> exists f, v = VNum f /\ in_unit f).

(** [b] is [a] or below [a] in the layer tree. *)
Inductive descends (tree : gmap string (list string)) : string -> string -> Prop :=
  | descends_refl a : descends tree a a
  | descends_step a b c :
      b ∈ default [] (tree !! a) -> descends tree b c -> descends tree a c.

(** [c] is below [a] in the layer tree: a child of [a], or below one. *)
Definition below (tree : gmap string (list string)) (a c : string) : Prop :=
  exists b, b ∈ default [] (tree !! a) /\ descends tree b c.

(** There is a path of [n] edges from [a] down the layer tree. *)
Inductive path_from (tree : gmap string (list string)) : string -> nat -> Prop :=
  | path_here a : path_from tree a 0
  | path_down a b n :
      b ∈ default [] (tree !! a) -> path_from tree b n -> path_from tree a (S n).

(** The store [s] lists the children [s0] lists, and holds the states of
    [s0] outside [P]. *)
Definition within (s0 : StateStore) (P : string -> Prop) (s : StateStore) : Prop :=
  same_children s0 s /\ forall id, ~ P id -> current s !! id = current s0 !! id.

(** The value a layer holds under [key], if any. *)
Definition field_of (cur : gmap string (gmap string value)) (id key : string)
  : option value :=
  cur !! id ≫= (.!! key).

(** Every layer of [s] holds under [key] what it holds in [s0]. *)
Definition field_kept (s0 : StateStore) (key : string) (s : StateStore) : Prop :=
  forall id, field_of (current s) id key = field_of (current s0) id key.

(** Every value of the state that is not a number is equal to itself under
    [==] (in Python every value of a state map is; in the model a dict that
    holds a NaN is not). *)
Definition self_equal (state : gmap string value) : Prop :=
  forall field v, state !! field = Some v -> as_number v = None -> py_eqb v v = true.

(** The store is the authority for every layer of the snapshot it knows:
    the preference names it, or the layer is locked. *)
Definition store_rules (dom_layers : list (string * gmap string value)) (prefer : string)
    (s : StateStore) : Prop :=
  forall id dom_state store_state,
    (id, dom_state) ∈ dom_layers -> current s !! id = Some store_state ->
    bool_decide (py_str (default (VStr "") (store_state !! "status")) = "locked") = true
    \/ prefer = "store".

(** Every entry of an external patch carries reconciled fields with the
    values the store holds for them. *)
Definition patch_from_store (patch : gmap string (gmap string value)) (s : StateStore) : Prop :=
  forall id fields, patch !! id = Some fields ->
    exists store_state,
      current s !! id = Some store_state
      /\ forall field v, fields !! field = Some v ->
           field ∈ RECONCILE_FIELDS /\ store_state !! field = Some v.

(** [s] holds a state for exactly the layers [s0] holds one for. *)
Definition same_layers (s0 s : StateStore) : Prop :=
  forall id, is_Some (current s !! id) <-> is_Some (current s0 !! id).

End StoreInvariants.

Definition token_char (c : ascii) : bool := is_lower c || is_digit c.

Section CompilerVocabulary.
Context {rt : PyRuntime} {libs : CompilerLibs}.

(** The constraints every compiled row carries. *)
Definition compiled_constraints : gmap string value :=
  list_to_map [("maxRotation", VNum 45); ("minDepth", VNum (-200)); ("maxDepth", VNum 200)].

(** [row] is the row of the node [node]: what of a row is read off its node
    alone. *)
Definition compiled_from (node : Element) (row : LayerRow) : Prop :=
  let tag := _strip_ns (el_tag node) in
  lid row = layer_id_of node
  /\ fingerprint row = _fingerprint_for_node node
  /\ label row = _layer_label node (layer_id_of node)
  /\ aliases row = _tokenize_aliases [layer_id_of node; _layer_label node (layer_id_of node)]
  /\ tags row
     = _tokenize_aliases [attrib_or_empty node "data-label"; attrib_or_empty node "class"]
  /\ ltype row = LayerType_value (_infer_type tag)
  /\ capabilities row = dump_capabilities (_infer_capabilities (_infer_type tag))
  /\ constraints row = compiled_constraints
  /\ defaultOrigin row = VObj [("x", VNum (bx_cx (bbox row))); ("y", VNum (bx_cy (bbox row)))]
  /\ children row
     = map layer_id_of (filter (fun child => structural child = false) (el_children node))
  /\ md_tag (metadata row) = tag
  /\ md_attributeCount (metadata row) = length (el_attrib node).

(** What a visit with [fuel] frames has appended when it returns: the rows
    of the nodes it emits, in order. *)
Definition visit_rows (fuel : nat) : Prop :=
  forall node parent_id acc r,
    visit fuel node parent_id acc = Ok r ->
    exists new,
      r.2 = (acc.1 ++ new, acc.2 + length new)
      /\ Forall2 compiled_from (emitted node) new.

End CompilerVocabulary.

(** * More of the engine and of the service *)

(** ** runtime/engine.py: [cancel_run] *)

Section EngineModel.
Context {rt : PyRuntime}.

Definition cancel_run (rid : string) : M ExecutionEngine bool :=
  e <- get ;;
  match active_runs e !! rid with
  | None => ret false
  | Some run =>
      now <- _iso_now ;;
      put (mkEngine (_counter e) (delete rid (active_runs e))
             (<[rid := mkRunRecord (run_id run) (kind run) "cancelled" (started_at run)
                         (Some now) (steps run)]> (completed_runs e))) ;;;
      ret true
  end.

End EngineModel.

(** ** api/runtime_service.py: more methods *)

Section ServiceModelMore.
Context {rt : PyRuntime} {libs : CompilerLibs}.

(** [RuntimeService.undo] and [RuntimeService.redo] *)
Definition service_undo : M RuntimeService bool :=
  ok <- on_store undo ;;
  (if ok then _touch_state else ret tt) ;;;
  ret ok.

Definition service_redo : M RuntimeService bool :=
  ok <- on_store redo ;;
  (if ok then _touch_state else ret tt) ;;;
  ret ok.

(** [output["applied"]["z"]] is looked up in the dict [set_layer_state]
    returned. *)
Definition set_layer_depth (layer_id : string) (z : value) : M RuntimeService float :=
  output <- set_layer_state layer_id [("z", z)] ;;
  match assoc "z" (fst output) with
  | Some v => lift_result (py_float v)
  | None => raise (KeyError "z")
  end.

Definition set_effect_layer (layer_id : string) (effect : value) : M RuntimeService value :=
  self <- get ;;
  layer <- lift_result (_layer_full_by_id self layer_id) ;;
  if negb (truthy (default (VBool false) (capabilities layer !! "effect")))
  then raise (PermissionError ("Layer '" +:+ layer_id +:+ "' does not allow effect"))
  else
    set_layer_state layer_id [("status", VStr "idle")] ;;;
    ret effect.

(** The message of the [PermissionError] of a refused prop. *)
Definition refusal (layer_id key : string) : exn :=
  PermissionError ("Layer '" +:+ layer_id +:+ "' does not allow '" +:+ key +:+ "'").

(** Every row of the full layer map is the row of some node. *)
Definition compiled_service (self : RuntimeService) : Prop :=
  Forall (fun row => exists node, compiled_from node row) (layers_full self).

End ServiceModelMore.

(** ** The service's compile cache *)

Section CompileCache.
Context {rt : PyRuntime} {libs : CompilerLibs}.

(** [self.compile_manifest if self.compile_manifest else None] *)
Definition previous_manifest (self : RuntimeService) : option (gmap string value) :=
  if bool_decide (size (svc_compile_manifest self) = O) then None
  else Some (svc_compile_manifest self).

(** [not should and self.layer_map_min and self.layer_map_full]: the test
    on which [compile_svg] returns at once. *)
Definition is_cached (self : RuntimeService) (svg_text : string) (force : bool) : bool :=
  negb (fst (needs_recompile (svc_compiler self) svg_text (previous_manifest self) force))
  && bool_decide (is_Some (svc_layer_map_min self))
  && bool_decide (is_Some (svc_layer_map_full self)).

End CompileCache.

(** ** The engine's books *)

(** [f"run_{n:06d}"] *)
Definition run_name (n : nat) : string := "run_" +:+ zfill6 (pretty n).

(** The number a string of decimal digits denotes. *)
Definition digit_value (c : ascii) : N := (N_of_ascii c - 48)%N.

Fixpoint decimal_value (s : string) : N :=
  match s with
  | EmptyString => 0%N
  | String c rest =>
      (digit_value c * 10 ^ N.of_nat (String.length rest) + decimal_value rest)%N
  end.

(** [rid] is the id of a run the engine has counted. *)
Definition named_run (e : ExecutionEngine) (rid : string) : Prop :=
  exists n, 1 <= n <= _counter e /\ rid = run_name n.

(** The books are in order: every record is filed under its own id, which
    the engine has counted; an active run is running, not finished, and not
    among the completed ones; a completed run is completed or cancelled and
    has a finishing time. *)
Definition books_ok (e : ExecutionEngine) : Prop :=
  (forall rid run, active_runs e !! rid = Some run ->
     run_id run = rid /\ status run = "running" /\ finished_at run = None
     /\ completed_runs e !! rid = None /\ named_run e rid)
  /\ (forall rid run, completed_runs e !! rid = Some run ->
        run_id run = rid /\ status run ∈ ["completed"; "cancelled"]
        /\ is_Some (finished_at run) /\ named_run e rid).

Definition service_books_ok (self : RuntimeService) : Prop :=
  forall e, svc_engine self = Some e -> books_ok e.

(** * Concrete inputs *)

(** A runtime to evaluate the model with: the clock text at tick [t] is
    ["t"] followed by [t]; no string parses as a float. *)
Definition demo_rt : PyRuntime :=
  {| iso_of := fun t => "t" +:+ pretty t;
     float_of_str := fun _ => None;
     repr := fun _ => "?";
     recursion_limit := 1000 |}.

(** The states of the lock example: the store holds [{x: 7, status:
    "locked"}], the external snapshot [{x: 99, status: "idle"}]. *)
Definition locked_state : gmap string value :=
  list_to_map [("x", VNum 7); ("status", VStr "locked")].
Definition idle_snapshot : gmap string value :=
  list_to_map [("x", VNum 99); ("status", VStr "idle")].

(** The store of the runtime tests: [root_group] with the children
    [child_a] and [child_b], every layer in its default state. *)
Definition demo_state (now : string) : gmap string value := default_state VNone now.

Definition demo_store : StateStore :=
  mkStore
    (list_to_map [("root_group", ["child_a"; "child_b"]); ("child_a", []); ("child_b", [])])
    (list_to_map [("root_group", demo_state "t0"); ("child_a", demo_state "t1");
                  ("child_b", demo_state "t2")])
    [] [].

Definition empty_store : StateStore := mkStore ∅ ∅ [] [].

(** The layer tree of [demo_store]. *)
Definition demo_tree : LayerTree :=
  LNode "root_group" [LNode "child_a" []; LNode "child_b" []].

(** [demo_store] with its group at half opacity. *)
Definition faded_store : StateStore :=
  set_current (<["root_group" := <["opacity" := VNum 0.5]> (demo_state "t0")]>
                 (current demo_store)) demo_store.

Definition demo_calls : list SetCall :=
  [mkSetCall "child_a" [("x", VNum 12); ("rotation", VNum 15)] true;
   mkSetCall "root_group" [("x", VNum 10); ("scale", VNum 2)] true].

(** The lock example as a store and a snapshot. *)
Definition locked_store : StateStore :=
  mkStore (list_to_map [("child_a", [])]) {["child_a" := locked_state]} [] [].
Definition idle_dom : list (string * gmap string value) := [("child_a", idle_snapshot)].

(** A document to compile: a group [grp] around a rectangle [box]. *)
Definition group_doc : Element :=
  mkElement "g" [("id", "grp")] None [mkElement "rect" [("id", "box")] None []].

Definition demo_svg : string := "<g id='grp'><rect id='box'/></g>".

(** Libraries to evaluate the compiler with: the parser knows [demo_svg],
    digests are the identity, every element has the unit box. *)
Definition demo_libs : CompilerLibs :=
  {| fromstring := fun src => if bool_decide (src = demo_svg) then Some group_doc else None;
     sha1_hexdigest := fun text => text;
     sha256_hexdigest := fun text => text;
     dumps_structure := fun tag attrs text => tag +:+ ":" +:+ text;
     dumps_min := fun doc => "min";
     dumps_full := fun doc => "full";
     _bbox_for_element := fun node => mkBBox 0 0 1 1 0.5 0.5;
     settings_compiler_version := "0.1.0" |}.

Definition blank_row : LayerRow :=
  mkLayerRow "" "" "" (mkBBox 0 0 0 0 0 0) VNone O [] [] ∅ "" [] ∅ (mkMetadata "" None O).

Definition ok_or {A : Type} (dflt : A) (r : result A) : A :=
  match r with Ok a => a | Raise _ => dflt end.

(** The service as its constructor leaves it, on [demo_svg]. *)
Definition blank_service : RuntimeService :=
  mkService "" (mkLayerCompiler "0.1.0") None None ∅ None None ∅ O.

Definition demo_service : RuntimeService :=
  st (compile_svg (rt := demo_rt) (libs := demo_libs) demo_svg false blank_service 0).

Definition box_layer : LayerRow :=
  ok_or blank_row (_layer_full_by_id demo_service "box").

(** A manifest that matches [demo_svg] and the compiler version. *)
Definition demo_manifest : gmap string value :=
  list_to_map
    [("compilerVersion", VStr "0.1.0");
     ("sourceChecksum", VStr ("sha256:" +:+ demo_svg))].


(** * Further concrete inputs *)

(** The state map of [demo_store], as the items of a snapshot. *)
Definition demo_snapshot : list (string * gmap string value) :=
  [("root_group", demo_state "t0"); ("child_a", demo_state "t1");
   ("child_b", demo_state "t2")].

(** The demo service after one mutation. *)
Definition moved_service : RuntimeService :=
  st (set_layer_state (rt := demo_rt) "box" [("x", VNum 5)] demo_service 10).






(** * Properties *)

(** ** Running a computation *)

Lemma bind_run {St A B} (m : M St A) (f : A -> M St B) (s : St) (t : nat) :
  bind m f s t =
  match res (m s t) with
  | Ok a => f a (st (m s t)) (clk (m s t))
  | Raise e => mkRun (Raise e) (st (m s t)) (clk (m s t))
  end.
Proof. reflexivity. Qed.

Lemma bind_ok_inv {St A B} (m : M St A) (f : A -> M St B) (s : St) (t : nat) (b : B) :
  res (bind m f s t) = Ok b ->
  exists a, res (m s t) = Ok a /\ res (f a (st (m s t)) (clk (m s t))) = Ok b.
Proof.
  rewrite bind_run. destruct (res (m s t)) as [a|e]; [|discriminate].
  intros H. exists a. split; [reflexivity | exact H].
Qed.

Lemma bind_step {St A B} (m : M St A) (f : A -> M St B) s t a s' t' :
  m s t = mkRun (Ok a) s' t' -> bind m f s t = f a s' t'.
Proof. intros H. rewrite bind_run, H. reflexivity. Qed.

Lemma bind_raise {St A B} (m : M St A) (f : A -> M St B) s t e s' t' :
  m s t = mkRun (Raise e) s' t' -> bind m f s t = mkRun (Raise e) s' t'.
Proof. intros H. rewrite bind_run, H. reflexivity. Qed.

(** ** Lists used as stacks *)

Lemma pop_snoc {A : Type} (l : list A) (x : A) : pop (l ++ [x]) = Some (l, x).
Proof.
  induction l as [|y l IH]; simpl; [reflexivity|].
  rewrite IH. reflexivity.
Qed.

Lemma pop_nil_inv {A : Type} (l : list A) : pop l = None -> l = [].
Proof.
  destruct l as [|x l]; [reflexivity|]. simpl.
  destruct (pop l) as [[? ?]|]; discriminate.
Qed.

(** ** Relations a store computation preserves *)

Section Preservation.
Context {rt : PyRuntime}.
Variable R : StateStore -> StateStore -> Prop.
Context {R_pre : PreOrder R}.

Lemma pres_ret {A} (a : A) : preserves R (ret a).
Proof. intros s t. reflexivity. Qed.

Lemma pres_raise {A} (e : exn) : preserves R (raise (A := A) e).
Proof. intros s t. reflexivity. Qed.

Lemma pres_lift {A} (r : result A) : preserves R (lift_result r).
Proof. intros s t. reflexivity. Qed.

Lemma pres_get : preserves R get.
Proof. intros s t. reflexivity. Qed.

Lemma pres_iso_now : preserves R _iso_now.
Proof. intros s t. reflexivity. Qed.

Lemma pres_bind {A B} (m : M StateStore A) (f : A -> M StateStore B) :
  preserves R m -> (forall a, preserves R (f a)) -> preserves R (bind m f).
Proof.
  intros Hm Hf s t. rewrite bind_run. specialize (Hm s t).
  destruct (res (m s t)) as [a|e]; simpl; [|exact Hm].
  etransitivity; [exact Hm | apply Hf].
Qed.

Lemma pres_for_each {A} (l : list A) (body : A -> M StateStore unit) :
  (forall a, a ∈ l -> preserves R (body a)) -> preserves R (for_each l body).
Proof.
  induction l as [|a l IH]; intros Hb; simpl.
  - apply pres_ret.
  - apply pres_bind; [apply Hb; left | intros _; apply IH; intros; apply Hb; right; done].
Qed.

Lemma pres_modify (f : StateStore -> StateStore) :
  (forall s, R s (f s)) -> preserves R (modify f).
Proof. intros Hf s t. apply Hf. Qed.

Lemma pres_current_at layer_id : preserves R (current_at layer_id).
Proof.
  unfold current_at. apply pres_bind; [apply pres_get|]. intros s.
  destruct (current s !! layer_id); [apply pres_ret | apply pres_raise].
Qed.

Lemma pres_get_layer_tree layer_id : preserves R (get_layer_tree layer_id).
Proof. unfold get_layer_tree. apply pres_bind; [apply pres_get | intros; apply pres_ret]. Qed.

Lemma pres_default_layer_state v : preserves R (_default_layer_state v).
Proof.
  unfold _default_layer_state. apply pres_bind; [apply pres_iso_now | intros; apply pres_ret].
Qed.

Lemma pres_normalize_props items : preserves R (_normalize_props items).
Proof.
  unfold _normalize_props. apply pres_bind; [apply pres_lift|]. intros normalized.
  destruct (bool_decide _); [apply pres_ret|].
  apply pres_bind; [apply pres_iso_now | intros; apply pres_ret].
Qed.

End Preservation.

Create HintDb pres discriminated.
#[local] Hint Resolve pres_ret pres_raise pres_lift pres_get pres_iso_now pres_current_at
  pres_get_layer_tree pres_default_layer_state pres_normalize_props : pres.
#[local] Hint Extern 1 (PreOrder _) => apply _ : pres.

(** One step of a proof that a computation preserves a relation: the
    structure of the computation is followed down to its [modify] calls. *)
Ltac pres_step :=
  match goal with
  | |- preserves _ (bind _ _) => apply pres_bind; [apply _| |intros ?]
  | |- preserves _ (for_each _ _) => apply pres_for_each; [apply _|intros ? ?]
  | |- preserves _ (if ?b then _ else _) => destruct b eqn:?
  | |- preserves _ (match ?o with Some _ => _ | None => _ end) => destruct o eqn:?
  | |- preserves _ (match ?o with Ok _ => _ | Raise _ => _ end) => destruct o eqn:?
  | |- preserves _ (modify _) => apply pres_modify; intros ?
  | |- preserves _ _ => solve [auto with pres]
  end.

(** ** The history stacks are touched by [_commit_history], [undo], [redo] only *)

#[local] Instance same_stacks_pre : PreOrder same_stacks.
Proof.
  split.
  - intros s. split; reflexivity.
  - intros s1 s2 s3 [H1 H2] [H3 H4]. split; congruence.
Qed.

Section StateStoreFacts.
Context {rt : PyRuntime}.

Abbreviation keeps_stacks := (preserves same_stacks).

Lemma keeps_ensure_layer layer_id : keeps_stacks (_ensure_layer layer_id).
Proof. unfold _ensure_layer. repeat pres_step; split; reflexivity. Qed.

Lemma keeps_update_current layer_id delta : keeps_stacks (update_current layer_id delta).
Proof. unfold update_current. repeat pres_step; split; reflexivity. Qed.

Lemma keeps_store_field child_id key v : keeps_stacks (store_field child_id key v).
Proof. unfold store_field. repeat pres_step; split; reflexivity. Qed.

#[local] Hint Resolve keeps_ensure_layer keeps_update_current keeps_store_field : pres.

Lemma keeps_apply_direct layer_id items : keeps_stacks (_apply_direct layer_id items).
Proof. unfold _apply_direct. repeat pres_step. Qed.

Lemma keeps_add_field child_id deltas key : keeps_stacks (add_field child_id deltas key).
Proof. unfold add_field. repeat pres_step. Qed.

#[local] Hint Resolve keeps_apply_direct keeps_add_field : pres.

Lemma keeps_propagate_child recurse deltas scale_ratio opacity_ratio child_id :
  (forall id before after, keeps_stacks (recurse id before after)) ->
  keeps_stacks (propagate_child recurse deltas scale_ratio opacity_ratio child_id).
Proof. intros Hrec. unfold propagate_child. repeat pres_step. Qed.

Lemma keeps_propagate_group_delta fuel :
  forall layer_id old_parent new_parent,
    keeps_stacks (_propagate_group_delta fuel layer_id old_parent new_parent).
Proof.
  induction fuel as [|fuel IH]; intros layer_id old_parent new_parent; simpl.
  - apply pres_raise; apply _.
  - repeat pres_step. apply keeps_propagate_child. exact IH.
Qed.

#[local] Hint Resolve keeps_propagate_group_delta : pres.

Lemma keeps_propagate_from propagate layer_id old_parent :
  keeps_stacks (propagate_from propagate layer_id old_parent).
Proof. unfold propagate_from. repeat pres_step. Qed.

#[local] Hint Resolve keeps_propagate_from : pres.

(** ** What one [set] and one [batch_set] leave on the stacks *)

Lemma ensure_layer_ok layer_id s t : res (_ensure_layer layer_id s t) = Ok tt.
Proof.
  unfold _ensure_layer, bind, get, ret, modify, _default_layer_state, _iso_now. simpl.
  destruct (bool_decide (is_Some (current s !! layer_id))); simpl;
    match goal with |- context [bool_decide ?P] => destruct (bool_decide P) end;
    reflexivity.
Qed.

Lemma ensured_known layer_id s t :
  is_Some (current s !! layer_id) -> ensured layer_id s t = current s.
Proof.
  intros Hk. unfold ensured, _ensure_layer, bind, get, ret, modify. simpl.
  rewrite bool_decide_true by assumption. simpl.
  match goal with |- context [bool_decide ?P] => destruct (bool_decide P) end;
    reflexivity.
Qed.

Lemma set_stacks layer_id items propagate s t :
  history (st (set layer_id items propagate s t)) = history s ++ [ensured layer_id s t]
  /\ future (st (set layer_id items propagate s t)) = [].
Proof.
  pose proof (ensure_layer_ok layer_id s t) as Hok.
  destruct (keeps_ensure_layer layer_id s t) as [Hh Hf].
  set (r1 := _ensure_layer layer_id s t) in *.
  set (s2 := mkStore (layer_tree (st r1)) (current (st r1))
                     (history (st r1) ++ [current (st r1)]) []).
  assert (E : set layer_id items propagate s t =
              (old_parent <- current_at layer_id ;;
               applied <- _apply_direct layer_id items ;;
               propagate_from propagate layer_id old_parent ;;; ret applied) s2 (clk r1)).
  { unfold set. unfold bind at 1. fold r1. rewrite Hok. reflexivity. }
  assert (Hk : keeps_stacks
    (old_parent <- current_at layer_id ;;
     applied <- _apply_direct layer_id items ;;
     propagate_from propagate layer_id old_parent ;;; ret applied)).
  { repeat pres_step. }
  destruct (Hk s2 (clk r1)) as [Hh2 Hf2].
  rewrite E, Hh2, Hf2. subst s2. simpl. rewrite Hh. split; reflexivity.
Qed.

Lemma batch_loop_keeps changes propagate :
  forall acc, keeps_stacks (batch_loop changes propagate acc).
Proof.
  induction changes as [|change rest IH]; intros acc; simpl.
  - apply pres_ret; apply _.
  - destruct (layerId change) as [layer_id|]; [|apply IH].
    destruct (default (VObj []) (props change)); try apply IH.
    destruct (bool_decide (layer_id = "")); [apply IH|].
    repeat pres_step.
Qed.

Lemma batch_loop_applied changes propagate :
  forall acc s t applied,
    res (batch_loop changes propagate acc s t) = Ok applied ->
    map fst applied = map fst acc ++ omap kept_layer_id changes.
Proof.
  induction changes as [|change rest IH]; intros acc s t applied; simpl.
  - unfold ret. simpl. intros [= <-]. rewrite app_nil_r. reflexivity.
  - unfold kept_layer_id.
    destruct (layerId change) as [layer_id|]; [|apply IH].
    destruct (default (VObj []) (props change)); try apply IH.
    destruct (bool_decide (layer_id = "")); [apply IH|].
    intros H.
    apply bind_ok_inv in H as (_ & _ & H).
    apply bind_ok_inv in H as (old_parent & _ & H).
    apply bind_ok_inv in H as (a & _ & H).
    apply bind_ok_inv in H as (_ & _ & H).
    apply IH in H. rewrite H, map_app, <- app_assoc. reflexivity.
Qed.

Lemma batch_set_stacks changes propagate s t :
  history (st (batch_set changes propagate s t)) = history s ++ [current s]
  /\ future (st (batch_set changes propagate s t)) = [].
Proof.
  change (batch_set changes propagate s t)
    with (batch_loop changes propagate []
            (mkStore (layer_tree s) (current s) (history s ++ [current s]) []) t).
  destruct (batch_loop_keeps changes propagate []
              (mkStore (layer_tree s) (current s) (history s ++ [current s]) []) t)
    as [Hh Hf].
  rewrite Hh, Hf. split; reflexivity.
Qed.

(** ** undo and redo *)

Lemma undo_top s t h x :
  history s = h ++ [x] ->
  undo s t = mkRun (Ok true) (mkStore (layer_tree s) x h (future s ++ [current s])) t.
Proof.
  intros Hh. unfold undo, bind, get, put, ret. simpl.
  rewrite Hh, pop_snoc. reflexivity.
Qed.

Lemma redo_top s t f x :
  future s = f ++ [x] ->
  redo s t = mkRun (Ok true) (mkStore (layer_tree s) x (history s ++ [current s]) f) t.
Proof.
  intros Hf. unfold redo, bind, get, put, ret. simpl.
  rewrite Hf, pop_snoc. reflexivity.
Qed.

Lemma undo_empty s t : history s = [] -> undo s t = mkRun (Ok false) s t.
Proof. intros Hh. unfold undo, bind, get, ret. simpl. rewrite Hh. reflexivity. Qed.

Lemma redo_empty s t : future s = [] -> redo s t = mkRun (Ok false) s t.
Proof. intros Hf. unfold redo, bind, get, ret. simpl. rewrite Hf. reflexivity. Qed.

Lemma redo_undo s t h x :
  history s = h ++ [x] -> st (redo (st (undo s t)) t) = s.
Proof.
  intros Hh. rewrite (undo_top s t h x Hh). simpl.
  erewrite redo_top by reflexivity. simpl. rewrite <- Hh. destruct s; reflexivity.
Qed.

(** ** N sets, N undos, N redos *)

Lemma times_snoc {St A} (n : nat) (m : M St A) (s : St) (t : nat) :
  times (S n) m s t = (rest <- times n m ;; a <- m ;; ret (rest ++ [a])) s t.
Proof.
  revert s t. induction n as [|n IH]; intros s t.
  - simpl. unfold bind, ret. simpl. destruct (res (m s t)); reflexivity.
  - change (times (S (S n)) m) with (a <- m ;; rest <- times (S n) m ;; ret (a :: rest)).
    rewrite bind_run.
    rewrite (bind_run (times (S n) m) (fun rest => a <- m ;; ret (rest ++ [a]))).
    change (times (S n) m s t) with ((a <- m ;; rest <- times n m ;; ret (a :: rest)) s t).
    rewrite (bind_run m (fun a => rest <- times n m ;; ret (a :: rest))).
    destruct (res (m s t)) as [a|e]; [|reflexivity].
    rewrite bind_run, IH, !bind_run.
    set (r2 := times n m _ _).
    destruct (res r2) as [rest|e]; simpl; [|reflexivity].
    rewrite !bind_run. set (r3 := m _ _).
    destruct (res r3); reflexivity.
Qed.

Lemma undo_times snaps :
  forall s t h,
    history s = h ++ snaps ->
    exists s',
      times (length snaps) undo s t = mkRun (Ok (replicate (length snaps) true)) s' t
      /\ history s' = h
      /\ current s' = default (current s) (head snaps)
      /\ times (length snaps) redo s' t = mkRun (Ok (replicate (length snaps) true)) s t.
Proof.
  induction snaps as [|x l IH] using rev_ind; intros s t h Hh.
  - exists s. rewrite app_nil_r in Hh. simpl. unfold ret. auto.
  - rewrite length_app. simpl. rewrite Nat.add_1_r.
    rewrite app_assoc in Hh.
    pose proof (undo_top s t (h ++ l) x Hh) as Hu.
    set (s1 := mkStore (layer_tree s) x (h ++ l) (future s ++ [current s])) in *.
    destruct (IH s1 t h eq_refl) as (s' & Hun & Hh' & Hc' & Hre).
    exists s'. repeat split.
    + simpl times. unfold bind at 1. rewrite Hu. simpl.
      unfold bind at 1. rewrite Hun. reflexivity.
    + exact Hh'.
    + rewrite Hc'. simpl. destruct l; reflexivity.
    + rewrite times_snoc, bind_run, Hre. simpl.
      rewrite bind_run, (redo_top s1 t (future s) (current s) eq_refl). simpl.
      unfold ret. f_equal.
      * f_equal. clear. induction (length l); simpl; congruence.
      * rewrite <- Hh. destruct s; reflexivity.
Qed.

Lemma set_calls_history calls :
  forall s t,
    exists snaps,
      length snaps = length calls
      /\ history (set_calls calls s t).1 = history s ++ snaps
      /\ (forall c, head calls = Some c ->
            head snaps = Some (ensured (sc_layer_id c) s t)).
Proof.
  induction calls as [|c rest IH]; intros s t.
  - exists []. simpl. rewrite app_nil_r. repeat split. discriminate.
  - simpl.
    destruct (set_stacks (sc_layer_id c) (sc_props c) (sc_propagate c) s t) as [Hh _].
    destruct (IH (st (set (sc_layer_id c) (sc_props c) (sc_propagate c) s t))
                 (clk (set (sc_layer_id c) (sc_props c) (sc_propagate c) s t)))
      as (snaps & Hlen & Hhist & _).
    exists (ensured (sc_layer_id c) s t :: snaps). repeat split.
    + simpl. congruence.
    + rewrite Hhist, Hh, <- app_assoc. reflexivity.
    + intros c' Hc'. injection Hc' as <-. reflexivity.
Qed.

(** C3 (as amended): after any sequence of [set] calls whose first call
    names a layer already in the state map, as many [undo()] calls all
    return [True] and leave the state map and the undo stack exactly as they
    were before the first [set]; as many [redo()] calls then all return
    [True] and restore the whole store as the last [set] left it.  [undo()]
    and [redo()] return [False], raise nothing and change nothing when their
    stack is empty. *)
Theorem undo_redo_exact (calls : list SetCall) (s : StateStore) (t : nat) :
  (forall c, head calls = Some c -> is_Some (current s !! sc_layer_id c)) ->
  let n := length calls in
  let after := set_calls calls s t in
  let undone := times n undo after.1 after.2 in
  let redone := times n redo (st undone) (clk undone) in
  res undone = Ok (replicate n true)
  /\ current (st undone) = current s
  /\ history (st undone) = history s
  /\ res redone = Ok (replicate n true)
  /\ st redone = after.1
  /\ (forall s' t', history s' = [] -> undo s' t' = mkRun (Ok false) s' t')
  /\ (forall s' t', future s' = [] -> redo s' t' = mkRun (Ok false) s' t').
Proof.
  intros Hknown n after undone redone.
  destruct (set_calls_history calls s t) as (snaps & Hlen & Hhist & Hhead).
  destruct (undo_times snaps after.1 after.2 (history s) Hhist)
    as (s' & Hun & Hh' & Hc' & Hre).
  rewrite Hlen in Hun, Hre. fold n in Hun, Hre.
  subst undone redone. fold after. rewrite Hun. simpl. rewrite Hre. simpl.
  repeat split; try assumption.
  - rewrite Hc'. destruct calls as [|c rest].
    + destruct snaps; [reflexivity | discriminate].
    + rewrite (Hhead c eq_refl). simpl. apply ensured_known. apply Hknown. reflexivity.
  - apply undo_empty.
  - apply redo_empty.
Qed.

(** C10: every [batch_set] call appends exactly one snapshot, the state map
    it was called on, to the undo stack and empties the redo stack, whatever
    the change list holds and whether or not an entry raises; the applied
    list it returns names exactly the entries that carry a non-empty
    [layerId] and a dict (or no) [props], in order; one [undo()] afterwards
    returns [True] and puts back the state map and the undo stack of before
    the call. *)
Theorem batch_set_one_snapshot (changes : list Change) (propagate : bool)
    (s : StateStore) (t : nat) :
  let r := batch_set changes propagate s t in
  history (st r) = history s ++ [current s]
  /\ length (history (st r)) = S (length (history s))
  /\ future (st r) = []
  /\ (forall applied, res r = Ok applied -> map fst applied = omap kept_layer_id changes)
  /\ res (undo (st r) (clk r)) = Ok true
  /\ current (st (undo (st r) (clk r))) = current s
  /\ history (st (undo (st r) (clk r))) = history s.
Proof.
  intros r. destruct (batch_set_stacks changes propagate s t) as [Hh Hf].
  fold r in Hh, Hf.
  rewrite (undo_top (st r) (clk r) (history s) (current s) Hh). simpl.
  repeat split; try assumption.
  - rewrite Hh, length_app. simpl. lia.
  - intros applied Hres. subst r. apply batch_loop_applied in Hres. exact Hres.
Qed.

End StateStoreFacts.

(** ** Layers a computation leaves alone *)

#[local] Instance same_outside_pre X : PreOrder (same_outside X).
Proof.
  split.
  - intros s id _. reflexivity.
  - intros s1 s2 s3 H1 H2 id Hid. rewrite (H2 id Hid). apply H1, Hid.
Qed.

Lemma same_outside_insert X s id state :
  id ∈ X -> same_outside X s (set_current (<[id := state]> (current s)) s).
Proof.
  intros Hin id' Hout. simpl. apply lookup_insert_ne. intros ->. contradiction.
Qed.

Lemma same_outside_tree X s lt : same_outside X s (set_layer_tree lt s).
Proof. intros id _. reflexivity. Qed.

#[local] Hint Resolve same_outside_insert same_outside_tree : pres.

Section Locality.
Context {rt : PyRuntime}.
Variable X : gset string.

Lemma outside_ensure_layer layer_id :
  layer_id ∈ X -> preserves (same_outside X) (_ensure_layer layer_id).
Proof. intros Hin. unfold _ensure_layer. repeat pres_step; auto with pres. Qed.

Lemma outside_commit_history : preserves (same_outside X) _commit_history.
Proof. unfold _commit_history. pres_step. intros id _. reflexivity. Qed.

Lemma outside_update_current layer_id delta :
  layer_id ∈ X -> preserves (same_outside X) (update_current layer_id delta).
Proof. intros Hin. unfold update_current. repeat pres_step; auto with pres. Qed.

Lemma outside_store_field child_id key v :
  child_id ∈ X -> preserves (same_outside X) (store_field child_id key v).
Proof. intros Hin. unfold store_field. repeat pres_step; auto with pres. Qed.

Lemma outside_apply_direct layer_id items :
  layer_id ∈ X -> preserves (same_outside X) (_apply_direct layer_id items).
Proof.
  intros Hin. unfold _apply_direct.
  repeat pres_step; auto using outside_ensure_layer, outside_update_current.
Qed.

Lemma outside_set_alone layer_id items :
  layer_id ∈ X -> preserves (same_outside X) (set layer_id items false).
Proof.
  intros Hin. unfold set, propagate_from. simpl.
  repeat pres_step;
    auto using outside_ensure_layer, outside_commit_history, outside_apply_direct.
Qed.

End Locality.

(** ** Reconciliation *)

Section ReconcileFacts.
Context {rt : PyRuntime}.

Lemma changed_of_ext dom_layers prefer tolerance cur cur' :
  (forall id, id ∈ map fst dom_layers -> cur' !! id = cur !! id) ->
  changed_of dom_layers prefer tolerance cur' = changed_of dom_layers prefer tolerance cur.
Proof.
  induction dom_layers as [|[layer_id dom_state] rest IH]; intros Hsame; simpl;
    [reflexivity|].
  rewrite (Hsame layer_id) by (simpl; left).
  f_equal. apply IH. intros id Hid. apply Hsame. simpl. right. exact Hid.
Qed.

(** A dry run is a pure reading of the state map. *)
Lemma dry_loop dom_layers prefer tolerance :
  forall changed patch s t,
    reconcile_loop dom_layers prefer true tolerance changed patch s t =
    mkRun (Ok (changed ++ changed_of dom_layers prefer tolerance (current s), patch)) s t.
Proof.
  induction dom_layers as [|[layer_id dom_state] rest IH]; intros changed patch s t; simpl.
  - rewrite app_nil_r. reflexivity.
  - rewrite bind_run. simpl.
    destruct (current s !! layer_id) as [store_state|]; [|apply IH].
    destruct (needs_change (diff_layer store_state dom_state prefer tolerance)); simpl.
    + rewrite IH, <- app_assoc. reflexivity.
    + apply IH.
Qed.

(** A live run that completes has reported the layers the state map it
    started from names. *)
Lemma live_loop dom_layers prefer tolerance :
  NoDup (map fst dom_layers) ->
  forall changed patch s t out,
    res (reconcile_loop dom_layers prefer false tolerance changed patch s t) = Ok out ->
    out.1 = changed ++ changed_of dom_layers prefer tolerance (current s).
Proof.
  induction dom_layers as [|[layer_id dom_state] rest IH];
    intros Hnd changed patch s t out; simpl.
  - unfold ret. simpl. intros [= <-]. simpl. rewrite app_nil_r. reflexivity.
  - simpl in Hnd. apply NoDup_cons in Hnd as [Hfresh Hnd].
    rewrite bind_run. simpl.
    destruct (current s !! layer_id) as [store_state|] eqn:Hcur; [|apply IH; exact Hnd].
    destruct (needs_change (diff_layer store_state dom_state prefer tolerance)); simpl;
      [|apply IH; exact Hnd].
    intros Hres. apply bind_ok_inv in Hres as (_ & _ & Hres).
    apply IH in Hres; [|exact Hnd]. rewrite Hres, <- app_assoc. do 2 f_equal.
    apply changed_of_ext. intros id Hid.
    assert (Hne : id ∉ ({[layer_id]} : gset string)).
    { intros ->%elem_of_singleton. contradiction. }
    destruct (update_for_store (diff_layer store_state dom_state prefer tolerance))
      as [|item items]; [reflexivity|].
    rewrite bind_run.
    pose proof (outside_set_alone {[layer_id]} layer_id (item :: items)
                  ltac:(set_solver) s t id Hne) as Hout.
    destruct (res (set layer_id (item :: items) false s t)); simpl; exact Hout.
Qed.

(** C5 (as amended): a dry run leaves the whole store and the clock as they
    were and returns an empty external patch; for a valid preference it
    always completes, and whenever the live run on the same store and
    snapshot completes, both report the same changed layer ids. *)
Theorem dry_run_reads_only (dom_layers : list (string * gmap string value))
    (prefer : string) (tolerance : float) (s : StateStore) (t : nat) :
  NoDup (map fst dom_layers) ->
  let dry := reconcile_with_dom dom_layers prefer true tolerance s t in
  let live := reconcile_with_dom dom_layers prefer false tolerance s t in
  st dry = s
  /\ clk dry = t
  /\ (forall r, res dry = Ok r -> dom_patch r = ∅)
  /\ (prefer ∈ ["dom"; "store"] -> exists r, res dry = Ok r)
  /\ (forall r_live, res live = Ok r_live ->
        exists r_dry, res dry = Ok r_dry
                      /\ changed_layer_ids r_dry = changed_layer_ids r_live).
Proof.
  intros Hnd dry live. subst dry live. unfold reconcile_with_dom.
  destruct (bool_decide (prefer ∈ ["dom"; "store"])) eqn:Hp; simpl.
  - rewrite !bind_run, dry_loop. simpl. repeat split.
    + intros r [= <-]. reflexivity.
    + intros _. eexists. reflexivity.
    + intros r_live Hlive. eexists. split; [reflexivity|]. simpl.
      destruct (res (reconcile_loop dom_layers prefer false tolerance [] ∅ s t))
        as [out|e] eqn:Hout; [|discriminate].
      apply live_loop in Hout; [|exact Hnd].
      simpl in Hlive. injection Hlive as <-. simpl. rewrite Hout. reflexivity.
  - unfold raise. simpl. repeat split; try discriminate.
    intros Hin. apply bool_decide_eq_false in Hp. contradiction.
Qed.

End ReconcileFacts.

(** ** The layer compiler *)

Lemma Element_nested_ind (P : Element -> Prop) :
  (forall tag attrib text children,
      Forall P children -> P (mkElement tag attrib text children)) ->
  forall node, P node.
Proof.
  intros H. fix IH 1. intros [tag attrib text children]. apply H.
  induction children as [|child rest IHrest]; constructor; [apply IH | exact IHrest].
Qed.

Section CompilerFacts.
Context {rt : PyRuntime} {libs : CompilerLibs}.

Lemma rows_of_nodes_nil z0 : rows_of_nodes z0 [] [].
Proof. repeat split. Qed.

Lemma rows_of_nodes_length z0 nodes rows :
  rows_of_nodes z0 nodes rows -> length rows = length nodes.
Proof.
  intros (Hz & _). apply (f_equal length) in Hz.
  rewrite length_map, length_seq in Hz. exact Hz.
Qed.

Lemma rows_of_nodes_app z0 nodes1 rows1 nodes2 rows2 :
  rows_of_nodes z0 nodes1 rows1 ->
  rows_of_nodes (z0 + length nodes1) nodes2 rows2 ->
  rows_of_nodes z0 (nodes1 ++ nodes2) (rows1 ++ rows2).
Proof.
  intros (Hz1 & Hi1 & Hf1 & Ht1) (Hz2 & Hi2 & Hf2 & Ht2).
  unfold rows_of_nodes. rewrite !map_app, length_app, seq_app.
  rewrite Hz1, Hz2, Hi1, Hi2, Hf1, Hf2, Ht1, Ht2. repeat split.
Qed.

Lemma rows_of_nodes_below z0 nodes rows :
  rows_of_nodes z0 nodes rows ->
  Forall (fun row => z0 <= zIndex row < z0 + length nodes) rows.
Proof.
  intros (Hz & _). apply Forall_forall. intros row Hin.
  assert (Hz' : zIndex row ∈ seq z0 (length nodes)).
  { rewrite <- Hz. apply list_elem_of_fmap. exists row. split; [reflexivity | exact Hin]. }
  apply elem_of_seq in Hz'. exact Hz'.
Qed.

Lemma emitted_rows node parent_id acc r rows own :
  structural node = false ->
  visit_emits node parent_id acc r rows own ->
  rows_of_nodes acc.2 (emitted node) (rows ++ [own]).
Proof.
  intros Hs (_ & Hrows & Hz & Hid & Hfp & Htag & _).
  destruct node as [tag attrib text children]. simpl emitted. rewrite Hs.
  apply rows_of_nodes_app; [exact Hrows|].
  pose proof (rows_of_nodes_length _ _ _ Hrows) as Hlen.
  unfold rows_of_nodes. simpl in *. rewrite Hz, Hid, Hfp, Htag, Hlen. repeat split.
Qed.

Lemma emitted_structural node : structural node = true -> emitted node = [].
Proof. intros Hs. destruct node as [tag attrib text kids]. cbn [emitted]. rewrite Hs. reflexivity. Qed.

Lemma visit_children_spec fuel layer_id cs :
  visit_spec fuel ->
  forall acc child_boxes child_ids out,
    visit_children (visit fuel) layer_id cs acc child_boxes child_ids = Ok out ->
    exists rows boxes,
      out = ((acc.1 ++ rows, acc.2 + length rows), boxes,
             child_ids ++ map layer_id_of (filter (fun child => structural child = false) cs))
      /\ rows_of_nodes acc.2 (flat_map emitted cs) rows.
Proof.
  intros Hspec. induction cs as [|child rest IH]; intros acc child_boxes child_ids out Hout.
  - exists [], child_boxes. simpl in Hout. injection Hout as <-.
    simpl. rewrite !app_nil_r, Nat.add_0_r.
    destruct acc. split; [reflexivity | apply rows_of_nodes_nil].
  - cbn [visit_children] in Hout.
    destruct (visit fuel child (Some layer_id) acc) as [[child_bbox acc']|] eqn:Hvisit;
      [|discriminate].
    destruct (Hspec _ _ _ _ Hvisit) as [Hskip Hemit].
    destruct (structural child) eqn:Hs.
    + specialize (Hskip eq_refl). injection Hskip as -> ->.
      destruct (IH _ _ _ _ Hout) as (rows & boxes & -> & Hrows).
      exists rows, boxes. split.
      * rewrite filter_cons_False by (rewrite Hs; discriminate). reflexivity.
      * simpl. rewrite (emitted_structural _ Hs). exact Hrows.
    + destruct (Hemit eq_refl) as (rows & own & Hv).
      pose proof (emitted_rows _ _ _ _ _ _ Hs Hv) as Hall.
      destruct Hv as ([b Hr] & _). injection Hr as -> ->.
      change (_stable_layer_id child (_fingerprint_for_node child))
        with (layer_id_of child) in Hout.
      destruct (IH _ _ _ _ Hout) as (rows' & boxes & -> & Hrows').
      exists ((rows ++ [own]) ++ rows'), boxes.
      pose proof (rows_of_nodes_length _ _ _ Hall) as Hlen.
      assert (Hz : S (zIndex own) = acc.2 + length (emitted child)).
      { destruct Hall as (Hz & _). rewrite map_app, <- Hlen, length_app, seq_app in Hz.
        apply app_inj_1 in Hz as [_ Hz]; [|rewrite length_map, length_seq; reflexivity].
        simpl in Hz. injection Hz as Hz. rewrite <- Hlen, length_app. simpl. lia. }
      split.
      * simpl fst. simpl snd.
        rewrite filter_cons_True by exact Hs. simpl map.
        rewrite !length_app, <- !app_assoc. simpl.
        rewrite <- Hlen, length_app in Hz. simpl in Hz. repeat f_equal. lia.
      * simpl flat_map. apply rows_of_nodes_app; [exact Hall|].
        simpl in Hrows'. rewrite Hz in Hrows'. exact Hrows'.
Qed.

Lemma visit_correct fuel : visit_spec fuel.
Proof.
  induction fuel as [|fuel IH]; intros node parent_id acc r Hr; [discriminate|].
  cbn [visit] in Hr. destruct (structural node) eqn:Hs.
  - injection Hr as <-. split; [reflexivity | discriminate].
  - split; [discriminate|]. intros _.
    destruct (visit_children (visit fuel) _ (el_children node) acc [] [])
      as [[[acc1 child_boxes] child_ids]|] eqn:Hloop; [|discriminate].
    destruct (visit_children_spec fuel _ _ IH _ _ _ _ Hloop) as (rows & boxes & Hout & Hrows).
    injection Hout as -> -> ->. injection Hr as <-.
    eexists rows, _. unfold visit_emits.
    split; [|split; [exact Hrows|]].
    + eexists. cbn [fst snd]. rewrite <- app_assoc.
      apply (f_equal2 pair); [reflexivity|].
      apply (f_equal2 pair); reflexivity.
    + cbn [zIndex lid fingerprint metadata md_tag md_parent children fst snd].
      cbn [app]. repeat match goal with |- _ /\ _ => split end; reflexivity.
Qed.

Lemma emitted_not_structural node :
  Forall (fun n => structural n = false) (emitted node).
Proof.
  induction node as [tag attrib text kids IH] using Element_nested_ind.
  assert (Hkids : Forall (fun n => structural n = false) (flat_map emitted kids)).
  { induction IH as [|kid rest Hkid _ IHrest]; cbn [flat_map];
      [constructor | apply Forall_app; split; assumption]. }
  cbn [emitted]. destruct (structural (mkElement tag attrib text kids)) eqn:Hs;
    [constructor|].
  apply Forall_app. split; [exact Hkids|].
  constructor; [exact Hs | constructor].
Qed.

(** *** The frames a visit takes *)

Lemma frames_eq node :
  frames node
  = if structural node then 1 else S (foldr Nat.max 0 (map frames (el_children node))).
Proof. destruct node; reflexivity. Qed.

Lemma frames_pos node : 1 <= frames node.
Proof. rewrite frames_eq. destruct (structural node); lia. Qed.

Lemma frames_child node child :
  structural node = false -> child ∈ el_children node -> S (frames child) <= frames node.
Proof.
  intros Hs Hin. rewrite (frames_eq node), Hs. apply le_n_S.
  induction (el_children node) as [|c rest IH]; [inversion Hin|].
  cbn [map foldr]. apply elem_of_cons in Hin as [->|Hin]; [lia|].
  specialize (IH Hin). lia.
Qed.

Lemma visit_children_returns
    (v : Element -> option string -> list LayerRow * nat ->
         result (option BBox * (list LayerRow * nat))) layer_id cs :
  (forall child parent_id acc, child ∈ cs -> exists r, v child parent_id acc = Ok r) ->
  forall acc child_boxes child_ids,
    exists out, visit_children v layer_id cs acc child_boxes child_ids = Ok out.
Proof.
  induction cs as [|child rest IH]; intros Hv acc child_boxes child_ids.
  - eexists. reflexivity.
  - cbn [visit_children].
    destruct (Hv child (Some layer_id) acc) as ([child_bbox acc'] & ->);
      [apply list_elem_of_here|].
    assert (Hrest : forall c parent_id a, c ∈ rest -> exists r, v c parent_id a = Ok r).
    { intros c parent_id a Hc. apply Hv. apply list_elem_of_further, Hc. }
    destruct child_bbox; apply (IH Hrest).
Qed.

Lemma visit_children_raises
    (v : Element -> option string -> list LayerRow * nat ->
         result (option BBox * (list LayerRow * nat))) layer_id cs :
  forall acc child_boxes child_ids e,
    visit_children v layer_id cs acc child_boxes child_ids = Raise e ->
    exists child parent_id acc', child ∈ cs /\ v child parent_id acc' = Raise e.
Proof.
  induction cs as [|child rest IH]; intros acc child_boxes child_ids e Hout; [discriminate|].
  cbn [visit_children] in Hout.
  destruct (v child (Some layer_id) acc) as [[child_bbox acc']|e'] eqn:Hvisit.
  - assert (Hrest : exists c parent_id a, c ∈ rest /\ v c parent_id a = Raise e).
    { destruct child_bbox; apply (IH _ _ _ _ Hout). }
    destruct Hrest as (c & parent_id & a & Hc & Hraise).
    exists c, parent_id, a. split; [apply list_elem_of_further, Hc | exact Hraise].
  - injection Hout as <-. exists child, (Some layer_id), acc.
    split; [apply list_elem_of_here | exact Hvisit].
Qed.

(** A visit returns when it has the frames the node takes. *)
Lemma visit_returns fuel :
  forall node parent_id acc,
    frames node <= fuel -> exists r, visit fuel node parent_id acc = Ok r.
Proof.
  induction fuel as [|fuel IH]; intros node parent_id acc Hfuel.
  - pose proof (frames_pos node). lia.
  - cbn [visit]. destruct (structural node) eqn:Hs; [eexists; reflexivity|].
    destruct (visit_children_returns (visit fuel)
                (_stable_layer_id node (_fingerprint_for_node node)) (el_children node))
      with (acc := acc) (child_boxes := @nil BBox) (child_ids := @nil string)
      as ([[acc1 child_boxes] child_ids] & ->).
    + intros child parent_id' acc' Hin. apply IH.
      pose proof (frames_child node child Hs Hin). lia.
    + eexists. reflexivity.
Qed.

(** A visit raises nothing but [RecursionError], and only for want of
    frames. *)
Lemma visit_raises fuel :
  forall node parent_id acc e,
    visit fuel node parent_id acc = Raise e -> e = RecursionError /\ fuel < frames node.
Proof.
  induction fuel as [|fuel IH]; intros node parent_id acc e Hraise.
  - injection Hraise as <-. split; [reflexivity | apply frames_pos].
  - cbn [visit] in Hraise. destruct (structural node) eqn:Hs; [discriminate|].
    destruct (visit_children (visit fuel) _ (el_children node) acc [] [])
      as [[[acc1 child_boxes] child_ids]|e'] eqn:Hloop; [discriminate|].
    injection Hraise as <-.
    destruct (visit_children_raises _ _ _ _ _ _ _ Hloop)
      as (child & parent_id' & acc' & Hin & Hchild).
    destruct (IH _ _ _ _ Hchild) as [-> Hlt]. split; [reflexivity|].
    pose proof (frames_child node child Hs Hin). lia.
Qed.

Lemma visit_children_mono
    (v v' : Element -> option string -> list LayerRow * nat ->
            result (option BBox * (list LayerRow * nat))) layer_id cs :
  (forall child parent_id acc r, v child parent_id acc = Ok r -> v' child parent_id acc = Ok r) ->
  forall acc child_boxes child_ids out,
    visit_children v layer_id cs acc child_boxes child_ids = Ok out ->
    visit_children v' layer_id cs acc child_boxes child_ids = Ok out.
Proof.
  intros Hv. induction cs as [|child rest IH]; intros acc child_boxes child_ids out Hout;
    [exact Hout|].
  cbn [visit_children] in *.
  destruct (v child (Some layer_id) acc) as [[child_bbox acc']|] eqn:Hvisit; [|discriminate].
  rewrite (Hv _ _ _ _ Hvisit). destruct child_bbox; apply IH, Hout.
Qed.

(** What a visit returns does not depend on the frames it had to spare. *)
Lemma visit_fuel_mono fuel :
  forall fuel' node parent_id acc r,
    fuel <= fuel' ->
    visit fuel node parent_id acc = Ok r -> visit fuel' node parent_id acc = Ok r.
Proof.
  induction fuel as [|fuel IH]; intros fuel' node parent_id acc r Hle Hr; [discriminate|].
  destruct fuel' as [|fuel']; [lia|].
  cbn [visit] in *. destruct (structural node); [exact Hr|].
  destruct (visit_children (visit fuel) _ (el_children node) acc [] [])
    as [[[acc1 child_boxes] child_ids]|] eqn:Hloop; [|discriminate].
  rewrite (visit_children_mono (visit fuel) (visit fuel') _ _
             (fun child p a r' => IH fuel' child p a r' ltac:(lia)) _ _ _ _ Hloop).
  exact Hr.
Qed.

Lemma visit_fuel_same fuel fuel' node parent_id acc r r' :
  visit fuel node parent_id acc = Ok r ->
  visit fuel' node parent_id acc = Ok r' ->
  r = r'.
Proof.
  intros Hr Hr'.
  pose proof (visit_fuel_mono fuel (Nat.max fuel fuel') node parent_id acc r
                (Nat.le_max_l _ _) Hr) as H1.
  pose proof (visit_fuel_mono fuel' (Nat.max fuel fuel') node parent_id acc r'
                (Nat.le_max_r _ _) Hr') as H2.
  congruence.
Qed.

Lemma collect_layers_visit root rows :
  _collect_layers root = Ok rows ->
  exists b z, visit recursion_limit root None ([], 0) = Ok (b, (rows, z)).
Proof.
  unfold _collect_layers.
  destruct (visit recursion_limit root None ([], 0)) as [[b [collected z]]|]; [|discriminate].
  intros [= <-]. exists b, z. reflexivity.
Qed.

Lemma collect_layers_rows root rows :
  _collect_layers root = Ok rows -> rows_of_nodes 0 (emitted root) rows.
Proof.
  intros Hrows. destruct (collect_layers_visit _ _ Hrows) as (b & z & Hvisit).
  destruct (visit_correct _ _ _ _ _ Hvisit) as [Hskip Hemit].
  destruct (structural root) eqn:Hs.
  - specialize (Hskip eq_refl). injection Hskip as _ -> _.
    rewrite (emitted_structural _ Hs). apply rows_of_nodes_nil.
  - destruct (Hemit eq_refl) as (below & own & Hv).
    pose proof (emitted_rows _ _ _ _ _ _ Hs Hv) as Hall.
    destruct Hv as ([b' Hr] & _). injection Hr as _ -> _. exact Hall.
Qed.

Lemma visit_children_all
    (v : Element -> option string -> list LayerRow * nat ->
         result (option BBox * (list LayerRow * nat))) layer_id cs :
  forall acc child_boxes child_ids out,
    visit_children v layer_id cs acc child_boxes child_ids = Ok out ->
    forall child, child ∈ cs -> exists parent_id acc' r, v child parent_id acc' = Ok r.
Proof.
  induction cs as [|c rest IH]; intros acc child_boxes child_ids out Hout child Hin;
    [inversion Hin|].
  cbn [visit_children] in Hout.
  destruct (v c (Some layer_id) acc) as [[child_bbox acc']|] eqn:Hvisit; [|discriminate].
  apply elem_of_cons in Hin as [->|Hin]; [eexists _, _, _; exact Hvisit|].
  destruct child_bbox; apply (IH _ _ _ _ Hout child Hin).
Qed.

(** A visit that returned had the frames the node takes. *)
Lemma visit_needs_frames fuel :
  forall node parent_id acc r, visit fuel node parent_id acc = Ok r -> frames node <= fuel.
Proof.
  induction fuel as [|fuel IH]; intros node parent_id acc r Hr; [discriminate|].
  cbn [visit] in Hr. rewrite frames_eq. destruct (structural node); [lia|].
  destruct (visit_children (visit fuel) _ (el_children node) acc [] [])
    as [[[acc1 child_boxes] child_ids]|] eqn:Hloop; [|discriminate].
  apply le_n_S. pose proof (visit_children_all _ _ _ _ _ _ _ Hloop) as Hall.
  clear Hloop Hr. induction (el_children node) as [|child rest IHrest]; [cbn; lia|].
  cbn [map foldr]. apply Nat.max_lub.
  - destruct (Hall child (list_elem_of_here _ _)) as (p & a & r' & Hchild).
    apply (IH _ _ _ _ Hchild).
  - apply IHrest. intros c Hc. apply Hall. apply list_elem_of_further, Hc.
Qed.

(** [_collect_layers] returns for the documents the frame budget suffices
    for, and raises [RecursionError] for the others. *)
Lemma collect_layers_run root :
  match _collect_layers root with
  | Ok _ => frames root <= recursion_limit
  | Raise e => e = RecursionError /\ recursion_limit < frames root
  end.
Proof.
  unfold _collect_layers.
  destruct (visit recursion_limit root None ([], 0)) as [[b [collected z]]|e] eqn:Hvisit.
  - apply (visit_needs_frames _ _ _ _ _ Hvisit).
  - apply (visit_raises _ _ _ _ _ Hvisit).
Qed.

(** Rows numbered in increasing order are where the stable sort puts them. *)
Lemma sorted_by_zIndex_id rows z0 n :
  map zIndex rows = seq z0 n -> sorted_by_zIndex rows = rows.
Proof.
  revert z0 n. induction rows as [|row rest IH]; intros z0 n Hz; [reflexivity|].
  destruct n as [|n]; [discriminate|]. simpl in Hz. injection Hz as Hrow Hrest.
  unfold sorted_by_zIndex. simpl. fold (sorted_by_zIndex rest). rewrite (IH _ _ Hrest).
  destruct rest as [|row' rest']; [reflexivity|]. simpl.
  destruct n as [|n]; [discriminate|]. simpl in Hrest. injection Hrest as Hrow' _.
  rewrite Hrow, Hrow'. rewrite (leb_correct z0 (S z0)) by lia. reflexivity.
Qed.

(** C1 (as amended): z-indices are assigned once each, [0], [1], ... in the
    order the rows are collected, and that order is depth-first with a node
    after its whole subtree: visiting a node that is a layer appends the
    rows of all layers below it, then the node's own row, whose z-index is
    strictly greater than that of every row below it (its children's among
    them).  A structural node ([defs], [clipPath], [mask], [style],
    [metadata], [title], [desc]) is neither emitted nor traversed: its
    visit returns no box and leaves the collected rows and the counter as
    they were, no row carries a structural tag, and the sort by z-index
    keeps the collection order.  The rows are collected for every document
    the frame budget suffices for: a visit returns when it has the frames
    the node takes, and [_collect_layers] raises, [RecursionError], for a
    document that takes more frames than the budget and for no other. *)
Theorem zindex_after_children (root : Element) :
  match _collect_layers root with
  | Ok rows =>
      frames root <= recursion_limit
      /\ rows_of_nodes 0 (emitted root) rows
      /\ map zIndex rows = seq 0 (length rows)
      /\ sorted_by_zIndex rows = rows
      /\ Forall (fun row => md_tag (metadata row) ∉ STRUCTURAL_TAGS) rows
  | Raise e => e = RecursionError /\ recursion_limit < frames root
  end
  /\ (forall fuel node parent_id acc,
        structural node = true -> visit (S fuel) node parent_id acc = Ok (None, acc))
  /\ (forall fuel node parent_id acc r,
        structural node = false ->
        visit fuel node parent_id acc = Ok r ->
        exists below own,
          visit_emits node parent_id acc r below own
          /\ Forall (fun row => zIndex row < zIndex own) below)
  /\ (forall fuel node parent_id acc,
        frames node <= fuel -> exists r, visit fuel node parent_id acc = Ok r).
Proof.
  split; [|split; [|split]].
  - pose proof (collect_layers_run root) as Hrun.
    destruct (_collect_layers root) as [rows|e] eqn:Hcollect; [|exact Hrun].
    pose proof (collect_layers_rows root rows Hcollect) as Hrows.
    pose proof (rows_of_nodes_length _ _ _ Hrows) as Hlen.
    split; [exact Hrun|]. split; [exact Hrows|]. split; [|split].
    + destruct Hrows as (Hz & _). rewrite Hlen. exact Hz.
    + destruct Hrows as (Hz & _). apply (sorted_by_zIndex_id _ _ _ Hz).
    + destruct Hrows as (_ & _ & _ & Htags).
      pose proof (emitted_not_structural root) as Hns.
      apply Forall_forall. intros row Hin.
      assert (Htag : md_tag (metadata row)
                     ∈ map (fun node => _strip_ns (el_tag node)) (emitted root)).
      { rewrite <- Htags. apply list_elem_of_fmap. exists row. split; [reflexivity|exact Hin]. }
      apply list_elem_of_fmap in Htag as (node & -> & Hnode).
      rewrite Forall_forall in Hns. specialize (Hns node Hnode).
      unfold structural in Hns. apply bool_decide_eq_false in Hns. exact Hns.
  - intros fuel node parent_id acc Hs. cbn [visit]. rewrite Hs. reflexivity.
  - intros fuel node parent_id acc r Hs Hr.
    destruct (visit_correct _ _ _ _ _ Hr) as [_ Hemit].
    destruct (Hemit Hs) as (below & own & Hv). exists below, own. split; [exact Hv|].
    destruct Hv as (_ & Hbelow & Hz & _).
    pose proof (rows_of_nodes_length _ _ _ Hbelow) as Hl.
    apply rows_of_nodes_below in Hbelow. rewrite <- Hl in Hbelow.
    eapply Forall_impl; [exact Hbelow|]. simpl. intros row Hrow. lia.
  - intros fuel node parent_id acc. apply visit_returns.
Qed.

(** *** Two compilations *)

Lemma compile_run {St} (self : LayerCompiler) (svg_text : string) (s : St) (t : nat) :
  compile self svg_text s t
  = match fromstring svg_text with
    | None => mkRun (Raise ParseError) s t
    | Some root =>
        match _collect_layers root with
        | Raise e => mkRun (Raise e) s (S t)
        | Ok collected =>
            let rows := sorted_by_zIndex collected in
            let checksum := source_checksum self svg_text in
            let doc_min :=
              mkLayerMap "1.0" (compiler_version self) checksum (iso_of t)
                         (length (map min_row rows)) (map min_row rows) in
            let doc_full :=
              mkLayerMap "1.0" (compiler_version self) checksum (iso_of t)
                         (length rows) rows in
            mkRun (Ok (mkCompileResult doc_min doc_full
                         (list_to_map
                            [("schemaVersion", VStr "1.0");
                             ("compilerVersion", VStr (compiler_version self));
                             ("sourceChecksum", VStr checksum);
                             ("layerMapMinChecksum", VStr (_payload_checksum_min doc_min));
                             ("layerMapFullChecksum", VStr (_payload_checksum_full doc_full));
                             ("generatedAt", VStr (iso_of t))])
                         true (Some "compiled"))) s (S t)
        end
    end.
Proof.
  unfold compile. destruct (fromstring svg_text) as [root|]; [|reflexivity].
  rewrite (bind_step _iso_now _ s t (iso_of t) s (S t) eq_refl).
  rewrite bind_run. unfold lift_result at 1 2 3. cbn [res st clk].
  destruct (_collect_layers root); reflexivity.
Qed.

(** The layers of a compilation that returned: the collected rows. *)
Lemma compile_layers {St} (self : LayerCompiler) (svg_text : string) (s : St) (t : nat)
    (result : CompileResult) :
  res (compile self svg_text s t) = Ok result ->
  exists root rows,
    fromstring svg_text = Some root
    /\ _collect_layers root = Ok rows
    /\ layers (layer_map_full result) = rows
    /\ layers (layer_map_min result) = map min_row rows
    /\ layerCount (layer_map_full result) = length rows
    /\ layerCount (layer_map_min result) = length rows
    /\ clk (compile self svg_text s t) = S t
    /\ st (compile self svg_text s t) = s.
Proof.
  rewrite compile_run. destruct (fromstring svg_text) as [root|]; [|discriminate].
  destruct (_collect_layers root) as [rows|] eqn:Hrows; [|discriminate].
  cbv zeta. cbn [res st clk]. intros [= <-]. exists root, rows.
  destruct (collect_layers_rows _ _ Hrows) as (Hz & _).
  cbn [layer_map_full layer_map_min layers layerCount].
  rewrite (sorted_by_zIndex_id _ _ _ Hz), length_map.
  split; [reflexivity|]. split; [exact Hrows|].
  repeat (split; [reflexivity|]). reflexivity.
Qed.

End CompilerFacts.

(** C8: two compilations of one source text by one compiler, at any two
    times, in any two program states, with any two clocks and any two frame
    budgets, return, when they both return, layer maps with the same layers
    in the same order: the same rows, hence the same ids, the same
    fingerprints and the same z-indices, in the full and in the minimal map;
    the ids and fingerprints are those of the parsed nodes in collection
    order.  They both return for a source that parses into a document each
    of the two frame budgets suffices for, one fails to parse exactly when
    the other does, and with the same frame budget one raises exactly when
    the other does, and raises the same. *)
Theorem compile_twice_same_layers {libs : CompilerLibs} {St St'} (rt1 rt2 : PyRuntime)
    (self : LayerCompiler)
    (svg_text : string) (s : St) (t : nat) (s' : St') (t' : nat) :
  let once := compile (rt := rt1) self svg_text s t in
  let again := compile (rt := rt2) self svg_text s' t' in
  (forall first second,
      res once = Ok first -> res again = Ok second ->
      layers (layer_map_full first) = layers (layer_map_full second)
      /\ layers (layer_map_min first) = layers (layer_map_min second)
      /\ map lid (layers (layer_map_full first))
         = map lid (layers (layer_map_full second))
      /\ map fingerprint (layers (layer_map_full first))
         = map fingerprint (layers (layer_map_full second))
      /\ map min_lid (layers (layer_map_min first))
         = map min_lid (layers (layer_map_min second))
      /\ map min_fingerprint (layers (layer_map_min first))
         = map min_fingerprint (layers (layer_map_min second))
      /\ exists root,
           fromstring svg_text = Some root
           /\ map lid (layers (layer_map_full first)) = map layer_id_of (emitted root)
           /\ map fingerprint (layers (layer_map_full first))
              = map _fingerprint_for_node (emitted root)
           /\ map zIndex (layers (layer_map_full first))
              = seq 0 (length (emitted root)))
  /\ (forall root,
        fromstring svg_text = Some root ->
        frames root <= recursion_limit (PyRuntime := rt1) ->
        frames root <= recursion_limit (PyRuntime := rt2) ->
        exists first second, res once = Ok first /\ res again = Ok second)
  /\ (res once = Raise ParseError <-> res again = Raise ParseError)
  /\ (recursion_limit (PyRuntime := rt1) = recursion_limit (PyRuntime := rt2) ->
      forall e, res once = Raise e <-> res again = Raise e).
Proof.
  cbv zeta. split; [|split; [|split]].
  - intros first second Hfirst Hsecond.
    destruct (compile_layers (rt := rt1) _ _ _ _ _ Hfirst)
      as (root & rows & Hroot & Hrows & Hfull & Hmin & _).
    destruct (compile_layers (rt := rt2) _ _ _ _ _ Hsecond)
      as (root' & rows' & Hroot' & Hrows' & Hfull' & Hmin' & _).
    rewrite Hroot in Hroot'. injection Hroot' as <-.
    destruct (collect_layers_visit (rt := rt1) _ _ Hrows) as (b & z & Hvisit).
    destruct (collect_layers_visit (rt := rt2) _ _ Hrows') as (b' & z' & Hvisit').
    pose proof (visit_fuel_same _ _ _ _ _ _ _ Hvisit Hvisit') as Hsame.
    injection Hsame as _ <- _.
    rewrite Hfull, Hmin, Hfull', Hmin'.
    repeat match goal with |- _ /\ _ => split end; try reflexivity.
    exists root. split; [exact Hroot|].
    destruct (collect_layers_rows (rt := rt1) _ _ Hrows) as (Hz & Hid & Hfp & _). auto.
  - intros root Hroot Hfuel Hfuel'. rewrite !compile_run, Hroot.
    pose proof (collect_layers_run (rt := rt1) root) as Hrun.
    pose proof (collect_layers_run (rt := rt2) root) as Hrun'.
    destruct (_collect_layers (rt := rt1) root); [|lia].
    destruct (_collect_layers (rt := rt2) root); [|lia].
    eexists _, _. split; reflexivity.
  - rewrite !compile_run. destruct (fromstring svg_text) as [root|].
    + pose proof (collect_layers_run (rt := rt1) root) as Hrun.
      pose proof (collect_layers_run (rt := rt2) root) as Hrun'.
      destruct (_collect_layers (rt := rt1) root) as [|e]; 
        destruct (_collect_layers (rt := rt2) root) as [|e']; cbv zeta; cbn [res].
      * split; discriminate.
      * destruct Hrun' as [-> _]. split; discriminate.
      * destruct Hrun as [-> _]. split; discriminate.
      * destruct Hrun as [-> _], Hrun' as [-> _]. split; discriminate.
    + split; reflexivity.
  - intros Hlimit e. rewrite !compile_run. destruct (fromstring svg_text) as [root|].
    + pose proof (collect_layers_run (rt := rt1) root) as Hrun.
      pose proof (collect_layers_run (rt := rt2) root) as Hrun'.
      destruct (_collect_layers (rt := rt1) root) as [|e1];
        destruct (_collect_layers (rt := rt2) root) as [|e2]; cbv zeta; cbn [res].
      * split; discriminate.
      * exfalso. destruct Hrun' as [_ Hlt]. rewrite Hlimit in Hrun. lia.
      * exfalso. destruct Hrun as [_ Hlt]. rewrite Hlimit in Hlt. lia.
      * destruct Hrun as [-> _], Hrun' as [-> _]. split; intros H; exact H.
    + split; intros H; exact H.
Qed.

(** *** Recompilation *)

Section RecompilationFacts.
Context {rt : PyRuntime} {libs : CompilerLibs}.

Lemma py_eqb_str v s : py_eqb v (VStr s) = true <-> v = VStr s.
Proof.
  destruct v as [|b|f|s'|fields]; simpl; try (split; discriminate).
  rewrite bool_decide_eq_true. split; [intros ->; reflexivity | intros [= ->]; reflexivity].
Qed.

Lemma py_eqb_str_false v s : py_eqb v (VStr s) = false <-> v <> VStr s.
Proof.
  rewrite <- py_eqb_str. destruct (py_eqb v (VStr s)); split; congruence.
Qed.

Lemma reasons_distinct :
  NoDup [Some "manual_recompile"; Some "missing_manifest";
         Some "source_checksum_changed"; Some "compiler_version_changed"; None].
Proof. apply (bool_decide_unpack _). vm_compute. reflexivity. Qed.

(** C9 (as amended): [needs_recompile] decides in the order manual override,
    missing (absent or empty) manifest, source-checksum mismatch,
    compiler-version mismatch, unchanged: each case is decided by its own
    condition once the earlier ones are excluded, whatever the later ones
    are.  The four recompile outcomes carry four different reason strings;
    the unchanged outcome carries no reason at all. *)
Theorem needs_recompile_precedence (self : LayerCompiler) (svg_text : string)
    (previous_manifest : option (gmap string value)) (manual_recompile : bool) :
  let out := needs_recompile self svg_text previous_manifest manual_recompile in
  let missing := previous_manifest = None \/ previous_manifest = Some ∅ in
  let stored key := previous_manifest ≫= (.!! key) in
  let same_source := stored "sourceChecksum" = Some (VStr (source_checksum self svg_text)) in
  let same_version := stored "compilerVersion" = Some (VStr (compiler_version self)) in
  (manual_recompile = true -> out = (true, Some "manual_recompile"))
  /\ (manual_recompile = false -> missing -> out = (true, Some "missing_manifest"))
  /\ (manual_recompile = false -> ~ missing -> ~ same_source ->
        out = (true, Some "source_checksum_changed"))
  /\ (manual_recompile = false -> ~ missing -> same_source -> ~ same_version ->
        out = (true, Some "compiler_version_changed"))
  /\ (manual_recompile = false -> ~ missing -> same_source -> same_version ->
        out = (false, None))
  /\ NoDup [Some "manual_recompile"; Some "missing_manifest";
            Some "source_checksum_changed"; Some "compiler_version_changed"; None].
Proof.
  intros out missing stored same_source same_version.
  subst out missing stored same_source same_version. unfold needs_recompile.
  destruct manual_recompile; simpl.
  { repeat match goal with |- _ /\ _ => split end; try discriminate; try reflexivity.
    exact reasons_distinct. }
  destruct previous_manifest as [manifest|]; simpl.
  2:{ repeat match goal with |- _ /\ _ => split end; try discriminate; try reflexivity;
        try (intros _ Hm; exfalso; apply Hm; left; reflexivity).
      exact reasons_distinct. }
  destruct (bool_decide (size manifest = 0)) eqn:Hsize.
  { apply bool_decide_eq_true, map_size_empty_iff in Hsize. subst manifest.
    repeat match goal with |- _ /\ _ => split end; try discriminate; try reflexivity;
      try (intros _ Hm; exfalso; apply Hm; right; reflexivity).
    exact reasons_distinct. }
  apply bool_decide_eq_false in Hsize.
  assert (Hne : manifest <> ∅) by (intros ->; apply Hsize, map_size_empty).
  assert (Hpresent : ~ (Some manifest = None \/ Some manifest = Some ∅)).
  { intros [|[= ->]]; [discriminate | contradiction]. }
  destruct (manifest !! "sourceChecksum") as [v|] eqn:Hv; simpl.
  - destruct (py_eqb v (VStr (source_checksum self svg_text))) eqn:Hsrc; simpl.
    + apply py_eqb_str in Hsrc. subst v.
      destruct (manifest !! "compilerVersion") as [w|] eqn:Hw; simpl.
      * destruct (py_eqb w (VStr (compiler_version self))) eqn:Hver; simpl.
        -- apply py_eqb_str in Hver. subst w.
           repeat match goal with |- _ /\ _ => split end;
             try discriminate; try reflexivity; try tauto.
           exact reasons_distinct.
        -- apply py_eqb_str_false in Hver.
           repeat match goal with |- _ /\ _ => split end;
             try discriminate; try reflexivity; try tauto; try congruence.
           exact reasons_distinct.
      * repeat match goal with |- _ /\ _ => split end;
          try discriminate; try reflexivity; try tauto; try congruence.
        exact reasons_distinct.
    + apply py_eqb_str_false in Hsrc.
      repeat match goal with |- _ /\ _ => split end;
        try discriminate; try reflexivity; try tauto; try congruence.
      exact reasons_distinct.
  - repeat match goal with |- _ /\ _ => split end;
      try discriminate; try reflexivity; try tauto; try congruence.
    exact reasons_distinct.
Qed.

End RecompilationFacts.

(** ** Lenient store, strict layer lookup *)

Section LeniencyFacts.
Context {rt : PyRuntime} {libs : CompilerLibs}.

Lemma ensure_layer_unknown layer_id s t :
  current s !! layer_id = None ->
  layer_tree s !! layer_id = None ->
  _ensure_layer layer_id s t
  = mkRun (Ok tt)
      (mkStore (<[layer_id := []]> (layer_tree s))
               (<[layer_id := default_state VNone (iso_of t)]> (current s))
               (history s) (future s))
      (S t).
Proof.
  intros Hc Ht.
  unfold _ensure_layer, _default_layer_state, _iso_now, bind, get, modify, ret. simpl.
  rewrite (bool_decide_false (is_Some (current s !! layer_id)))
    by (rewrite Hc; apply is_Some_None).
  simpl. rewrite (bool_decide_false (is_Some (layer_tree s !! layer_id)))
    by (rewrite Ht; apply is_Some_None).
  reflexivity.
Qed.

Lemma ensure_layer_known layer_id s t :
  is_Some (current s !! layer_id) ->
  is_Some (layer_tree s !! layer_id) ->
  _ensure_layer layer_id s t = mkRun (Ok tt) s t.
Proof.
  intros Hc Ht. unfold _ensure_layer, bind, get, modify, ret. simpl.
  rewrite (bool_decide_true _ Hc). simpl. rewrite (bool_decide_true _ Ht). reflexivity.
Qed.

Lemma normalize_props_run {St} items (s : St) t :
  _normalize_props items s t
  = match normalize_items items ∅ with
    | Ok normalized =>
        mkRun (Ok (stamped normalized (iso_of t))) s
              (if bool_decide (is_Some (normalized !! "lastUpdate")) then t else S t)
    | Raise e => mkRun (Raise e) s t
    end.
Proof.
  unfold _normalize_props, stamped. rewrite bind_run. simpl.
  destruct (normalize_items items ∅) as [normalized|e]; [|reflexivity].
  destruct (bool_decide (is_Some (normalized !! "lastUpdate"))); reflexivity.
Qed.

Lemma current_at_run layer_id s t state :
  current s !! layer_id = Some state -> current_at layer_id s t = mkRun (Ok state) s t.
Proof. intros H. unfold current_at, bind, get, ret. simpl. rewrite H. reflexivity. Qed.

Lemma update_current_run layer_id delta s t state :
  current s !! layer_id = Some state ->
  update_current layer_id delta s t
  = mkRun (Ok tt) (set_current (<[layer_id := delta ∪ state]> (current s)) s) t.
Proof.
  intros H. unfold update_current.
  rewrite (bind_step _ _ _ _ _ _ _ (current_at_run _ _ _ _ H)). reflexivity.
Qed.

Lemma apply_direct_known layer_id items s t state :
  current s !! layer_id = Some state ->
  is_Some (layer_tree s !! layer_id) ->
  _apply_direct layer_id items s t
  = match normalize_items items ∅ with
    | Ok normalized =>
        mkRun (Ok (stamped normalized (iso_of t)))
          (set_current (<[layer_id := stamped normalized (iso_of t) ∪ state]> (current s)) s)
          (if bool_decide (is_Some (normalized !! "lastUpdate")) then t else S t)
    | Raise e => mkRun (Raise e) s t
    end.
Proof.
  intros Hc Ht. unfold _apply_direct.
  rewrite (bind_step _ _ _ _ _ _ _ (ensure_layer_known _ _ _ (mk_is_Some _ _ Hc) Ht)).
  rewrite bind_run, normalize_props_run.
  destruct (normalize_items items ∅) as [normalized|e]; [|reflexivity].
  cbn [res st clk].
  rewrite (bind_step _ _ _ _ _ _ _ (update_current_run _ _ _ _ _ Hc)). reflexivity.
Qed.

(** What a [set] on a layer the store has never seen does. *)
Lemma set_unknown layer_id items propagate s t :
  current s !! layer_id = None ->
  layer_tree s !! layer_id = None ->
  let created := <[layer_id := default_state VNone (iso_of t)]> (current s) in
  let tree := <[layer_id := []]> (layer_tree s) in
  set layer_id items propagate s t
  = match normalize_items items ∅ with
    | Raise e => mkRun (Raise e) (mkStore tree created (history s ++ [created]) []) (S t)
    | Ok normalized =>
        let applied := stamped normalized (iso_of (S t)) in
        mkRun (Ok applied)
          (mkStore tree
             (<[layer_id := applied ∪ default_state VNone (iso_of t)]> created)
             (history s ++ [created]) [])
          (if bool_decide (is_Some (normalized !! "lastUpdate")) then S t else S (S t))
    end.
Proof.
  intros Hc Ht created tree. unfold set.
  rewrite (bind_step _ _ _ _ _ _ _ (ensure_layer_unknown _ _ _ Hc Ht)).
  set (s2 := mkStore tree created (history s ++ [created]) []).
  rewrite (bind_step _ _ _ _ tt s2 (S t)) by reflexivity.
  assert (Hc2 : current s2 !! layer_id = Some (default_state VNone (iso_of t))).
  { apply lookup_insert_eq. }
  assert (Ht2 : layer_tree s2 !! layer_id = Some []) by apply lookup_insert_eq.
  rewrite (bind_step _ _ _ _ _ _ _ (current_at_run _ _ _ _ Hc2)).
  rewrite bind_run, (apply_direct_known _ _ _ _ _ Hc2 (mk_is_Some _ _ Ht2)).
  destruct (normalize_items items ∅) as [normalized|e]; [|reflexivity].
  cbn [res st clk]. unfold propagate_from, get_layer_tree.
  rewrite !bind_run. cbn [get ret res st clk set_current layer_tree].
  rewrite Ht2. cbn [default]. rewrite andb_false_r. reflexivity.
Qed.

Lemma get_layer_state_unknown layer_id s t :
  current s !! layer_id = None ->
  layer_tree s !! layer_id = None ->
  get_layer_state layer_id s t
  = mkRun (Ok (default_state VNone (iso_of t)))
      (mkStore (<[layer_id := []]> (layer_tree s))
               (<[layer_id := default_state VNone (iso_of t)]> (current s))
               (history s) (future s))
      (S t).
Proof.
  intros Hc Ht. unfold get_layer_state.
  rewrite bind_run, (ensure_layer_unknown _ _ _ Hc Ht). cbn [res st clk].
  unfold current_at. rewrite bind_run. cbn [get res st clk current].
  rewrite lookup_insert_eq. reflexivity.
Qed.

Lemma layer_full_by_id_unknown (self : RuntimeService) layer_id :
  Forall (fun layer => lid layer <> layer_id) (layers_full self) ->
  _layer_full_by_id self layer_id = Raise (KeyError layer_id).
Proof.
  unfold _layer_full_by_id. induction 1 as [|layer rest Hne _ IH]; simpl; [reflexivity|].
  rewrite bool_decide_false by exact Hne. exact IH.
Qed.

(** C6 (as amended): for a layer id the store has never seen, [set] creates
    the default entry before it snapshots and normalises, so the entry is
    there whatever [set] returns, and [set] succeeds exactly when its props
    normalise, returning them stamped and merged over the default state.
    The store's own read is as lenient: [get_layer_state] of that id raises
    nothing, returns the default state and adds the entry to the state map.
    The strict read is the service's lookup of a compiled layer,
    [_layer_full_by_id] behind [get_layer_detail]: for an id no compiled
    layer carries it raises [KeyError] and leaves the service, its store
    included, as it was. *)
Theorem lenient_store_strict_lookup (layer_id : string) (items : list (string * value))
    (propagate : bool) (s : StateStore) (t : nat) :
  current s !! layer_id = None ->
  layer_tree s !! layer_id = None ->
  let created := <[layer_id := default_state VNone (iso_of t)]> (current s) in
  let written := set layer_id items propagate s t in
  let read := get_layer_state layer_id s t in
  (forall normalized,
      normalize_items items ∅ = Ok normalized ->
      res written = Ok (stamped normalized (iso_of (S t)))
      /\ current (st written)
         = <[layer_id := stamped normalized (iso_of (S t)) ∪ default_state VNone (iso_of t)]>
             (current s))
  /\ (forall e, normalize_items items ∅ = Raise e ->
        res written = Raise e /\ current (st written) = created)
  /\ history (st written) = history s ++ [created]
  /\ res read = Ok (default_state VNone (iso_of t))
  /\ current (st read) = created
  /\ (forall (self : RuntimeService) (t' : nat),
        Forall (fun layer => lid layer <> layer_id) (layers_full self) ->
        get_layer_detail layer_id self t' = mkRun (Raise (KeyError layer_id)) self t').
Proof.
  intros Hc Ht created written read. subst written read.
  rewrite (set_unknown _ items propagate _ _ Hc Ht).
  rewrite (get_layer_state_unknown _ _ _ Hc Ht). cbn [res st clk current].
  fold created. repeat match goal with |- _ /\ _ => split end.
  - intros normalized ->. cbn [res st clk current]. split; [reflexivity|].
    subst created. apply insert_insert_eq.
  - intros e ->. split; reflexivity.
  - destruct (normalize_items items ∅); reflexivity.
  - reflexivity.
  - reflexivity.
  - intros self t' Hnone. unfold get_layer_detail. rewrite bind_run. cbn [get res st clk].
    unfold lift_result. rewrite (layer_full_by_id_unknown _ _ Hnone). reflexivity.
Qed.

End LeniencyFacts.

(** ** Clamping at the service boundary *)

Lemma float_ltb_leb (x y : float) : PrimFloat.ltb x y = true -> PrimFloat.leb x y = true.
Proof.
  rewrite FloatAxioms.ltb_spec, FloatAxioms.leb_spec. unfold SFltb, SFleb.
  destruct (SFcompare (Prim2SF x) (Prim2SF y)) as [[]|]; congruence.
Qed.

Lemma SFcompare_refl (x : spec_float) : x <> S754_nan -> SFcompare x x = Some Eq.
Proof.
  destruct x as [sx|sx| |sx m e]; intros Hx; simpl; try reflexivity.
  - destruct sx; reflexivity.
  - contradiction.
  - destruct sx; rewrite Z.compare_refl, Pos.compare_cont_refl; reflexivity.
Qed.

Lemma not_nan_spec (b : float) : PrimFloat.eqb b b = true -> Prim2SF b <> S754_nan.
Proof. rewrite FloatAxioms.eqb_spec. intros H Hn. rewrite Hn in H. discriminate. Qed.







Section ServiceFacts.
Context {rt : PyRuntime} {libs : CompilerLibs}.



Lemma set_layer_state_applied layer_id items self t applied rid :
  res (set_layer_state layer_id items self t) = Ok (applied, rid) ->
  _clamp_props self layer_id items = Ok applied.
Proof.
  unfold set_layer_state. intros H.
  apply bind_ok_inv in H as (self' & Hget & H). injection Hget as <-.
  cbn [get st clk] in H.
  destruct (svc_store self); [|discriminate]. destruct (svc_engine self); [|discriminate].
  apply bind_ok_inv in H as (_ & _ & H).
  apply bind_ok_inv in H as (_ & _ & H).
  apply bind_ok_inv in H as (clamped & Hclamped & H).
  apply bind_ok_inv in H as (result & _ & H).
  apply bind_ok_inv in H as (_ & _ & H).
  injection H as <- _. exact Hclamped.
Qed.


End ServiceFacts.

(** ** Propagation through the layer tree *)

Lemma LayerTree_nested_ind (P : LayerTree -> Prop) :
  (forall root subtrees, Forall P subtrees -> P (LNode root subtrees)) ->
  forall T, P T.
Proof.
  intros H. fix IH 1. intros [root subtrees]. apply H.
  induction subtrees as [|sub rest IHrest]; constructor; [apply IH | exact IHrest].
Qed.

#[local] Instance same_children_pre : PreOrder same_children.
Proof.
  split.
  - intros s id. reflexivity.
  - intros s1 s2 s3 H1 H2 id. rewrite (H2 id). apply H1.
Qed.

Lemma describes_ext tree tree' T :
  (forall id, default [] (tree' !! id) = default [] (tree !! id)) ->
  describes tree T -> describes tree' T.
Proof.
  intros Hsame. induction T as [root subtrees IH] using LayerTree_nested_ind.
  intros Hd. inversion Hd as [root' subtrees' Hkids Hsubs]; subst.
  constructor; [rewrite Hsame; exact Hkids|].
  rewrite Forall_forall in IH, Hsubs. apply Forall_forall.
  intros sub Hin. apply IH; [exact Hin | apply Hsubs, Hin].
Qed.

Lemma edges_in_ids subs p c :
  (p, c) ∈ flat_map lt_edges subs ->
  p ∈ flat_map lt_ids subs /\ c ∈ flat_map lt_ids subs.
Proof.
  revert p c. induction subs as [|sub rest IHrest]; intros p c; simpl.
  - intros H. inversion H.
  - assert (Hsub : forall T p c, (p, c) ∈ lt_edges T -> p ∈ lt_ids T /\ c ∈ lt_ids T).
    { clear. induction T as [root subtrees IH] using LayerTree_nested_ind.
      intros p c. simpl. rewrite elem_of_app. intros [Hdirect|Hdeep].
      - apply list_elem_of_fmap in Hdirect as (sub & [= -> ->] & Hin).
        split; [left|right]. apply list_elem_of_In, in_flat_map.
        exists sub. split; [apply list_elem_of_In, Hin|]. destruct sub; left; reflexivity.
      - assert (Hboth : p ∈ flat_map lt_ids subtrees /\ c ∈ flat_map lt_ids subtrees).
        { induction IH as [|sub rest Hsub _ IHrest]; simpl in *; [inversion Hdeep|].
          rewrite !elem_of_app. apply elem_of_app in Hdeep as [H|H].
          - destruct (Hsub _ _ H). split; left; assumption.
          - destruct (IHrest H). split; right; assumption. }
        destruct Hboth. split; right; assumption. }
    rewrite !elem_of_app. intros [H|H].
    + destruct (Hsub _ _ _ H). split; left; assumption.
    + destruct (IHrest _ _ H). split; right; assumption.
Qed.

Section PropagationFacts.
Context {rt : PyRuntime}.

Lemma numeric_float_get state key dflt :
  numeric state -> key ∈ NUMERIC_FIELDS ->
  float_get state key dflt = Ok (fget state key dflt).
Proof.
  intros Hn Hk. destruct (Hn key Hk) as [f Hf].
  unfold fget, float_get. rewrite Hf. reflexivity.
Qed.

Lemma numeric_insert_num state key f : numeric state -> numeric (<[key := VNum f]> state).
Proof.
  intros Hn k Hk. destruct (decide (key = k)) as [->|Hne].
  - exists f. apply lookup_insert_eq.
  - rewrite lookup_insert_ne by exact Hne. apply Hn, Hk.
Qed.

Lemma numeric_insert_other state key v :
  key ∉ NUMERIC_FIELDS -> numeric state -> numeric (<[key := v]> state).
Proof.
  intros Hout Hn k Hk. rewrite lookup_insert_ne by (intros ->; contradiction).
  apply Hn, Hk.
Qed.

Lemma lastUpdate_not_numeric : "lastUpdate" ∉ NUMERIC_FIELDS.
Proof. apply (bool_decide_unpack _). vm_compute. reflexivity. Qed.

Lemma numeric_moved dx dy drot dz sr orr child now :
  numeric child -> numeric (moved dx dy drot dz sr orr child now).
Proof.
  intros Hn. unfold moved.
  apply numeric_insert_other; [exact lastUpdate_not_numeric|].
  repeat apply numeric_insert_num. exact Hn.
Qed.

Lemma diff_of_numeric key old_parent new_parent :
  numeric old_parent -> numeric new_parent -> key ∈ NUMERIC_FIELDS ->
  diff_of key old_parent new_parent = Ok (delta key old_parent new_parent).
Proof.
  intros Ho Hn Hk. unfold diff_of, delta.
  rewrite (numeric_float_get _ _ _ Hn Hk), (numeric_float_get _ _ _ Ho Hk). reflexivity.
Qed.

Lemma ratio_of_numeric key old_parent new_parent :
  numeric old_parent -> numeric new_parent -> key ∈ NUMERIC_FIELDS ->
  ratio_of key old_parent new_parent = Ok (ratio key old_parent new_parent).
Proof.
  intros Ho Hn Hk. unfold ratio_of, ratio.
  rewrite (numeric_float_get _ _ _ Hn Hk), (numeric_float_get _ _ _ Ho Hk). reflexivity.
Qed.

Lemma store_field_run child_id key v s t state :
  current s !! child_id = Some state ->
  store_field child_id key v s t
  = mkRun (Ok tt) (set_current (<[child_id := <[key := v]> state]> (current s)) s) t.
Proof.
  intros H. unfold store_field.
  rewrite (bind_step _ _ _ _ _ _ _ (current_at_run _ _ _ _ H)). reflexivity.
Qed.

Lemma add_field_run child_id deltas key s t state f :
  current s !! child_id = Some state ->
  float_get state key 0 = Ok f ->
  add_field child_id deltas key s t
  = mkRun (Ok tt)
      (set_current
         (<[child_id := <[key := VNum (f + default 0%float (deltas !! key))%float]> state]>
            (current s)) s) t.
Proof.
  intros H Hf. unfold add_field.
  rewrite (bind_step _ _ _ _ _ _ _ (current_at_run _ _ _ _ H)).
  unfold lift_result at 1. rewrite bind_run. cbn [res st clk]. rewrite Hf.
  apply store_field_run, H.
Qed.

(** [_ensure_layer] on a layer the state map holds. *)
Lemma ensure_layer_present layer_id s t :
  is_Some (current s !! layer_id) ->
  exists s1,
    _ensure_layer layer_id s t = mkRun (Ok tt) s1 t
    /\ current s1 = current s
    /\ history s1 = history s
    /\ future s1 = future s
    /\ is_Some (layer_tree s1 !! layer_id)
    /\ same_children s s1.
Proof.
  intros Hc. unfold _ensure_layer, bind, get, modify, ret. simpl.
  rewrite (bool_decide_true _ Hc). simpl.
  destruct (bool_decide (is_Some (layer_tree s !! layer_id))) eqn:Ht.
  - exists s. apply bool_decide_eq_true in Ht. repeat split; try assumption.
  - apply bool_decide_eq_false in Ht.
    exists (set_layer_tree (<[layer_id := []]> (layer_tree s)) s).
    repeat split.
    + simpl. rewrite lookup_insert_eq. eauto.
    + intros id. simpl. destruct (decide (layer_id = id)) as [->|Hne].
      * rewrite lookup_insert_eq. simpl.
        destruct (layer_tree s !! id) eqn:E; [exfalso; apply Ht; eauto | reflexivity].
      * rewrite lookup_insert_ne by exact Hne. reflexivity.
Qed.

Lemma float_get_insert_ne state key key' v dflt :
  key <> key' -> float_get (<[key' := v]> state) key dflt = float_get state key dflt.
Proof. intros Hne. unfold float_get. rewrite lookup_insert_ne by congruence. reflexivity. Qed.

Ltac in_fields := apply (bool_decide_unpack _); vm_compute; reflexivity.

(** The four additive updates of one child. *)
Lemma add_fields_run child_id dx dy drot dz s t child :
  current s !! child_id = Some child ->
  numeric child ->
  for_each ADDITIVE_FIELDS
    (add_field child_id (list_to_map [("x", dx); ("y", dy); ("rotation", drot); ("z", dz)]))
    s t
  = mkRun (Ok tt)
      (set_current
         (<[child_id :=
              <["z" := VNum (fget child "z" 0 + dz)%float]>
                (<["rotation" := VNum (fget child "rotation" 0 + drot)%float]>
                   (<["y" := VNum (fget child "y" 0 + dy)%float]>
                      (<["x" := VNum (fget child "x" 0 + dx)%float]> child)))]>
            (current s)) s) t.
Proof.
  intros Hc Hn. unfold ADDITIVE_FIELDS. cbn [for_each].
  erewrite bind_step;
    [|apply (add_field_run _ _ "x" _ _ child (fget child "x" 0) Hc);
      apply numeric_float_get; [exact Hn | in_fields]].
  erewrite bind_step;
    [|eapply (add_field_run _ _ "y" _ _ _ (fget child "y" 0));
      [apply lookup_insert_eq
      |rewrite float_get_insert_ne by discriminate;
       apply numeric_float_get; [exact Hn | in_fields]]].
  erewrite bind_step;
    [|eapply (add_field_run _ _ "rotation" _ _ _ (fget child "rotation" 0));
      [apply lookup_insert_eq
      |rewrite !float_get_insert_ne by discriminate;
       apply numeric_float_get; [exact Hn | in_fields]]].
  erewrite bind_step;
    [|eapply (add_field_run _ _ "z" _ _ _ (fget child "z" 0));
      [apply lookup_insert_eq
      |rewrite !float_get_insert_ne by discriminate;
       apply numeric_float_get; [exact Hn | in_fields]]].
  unfold ret, set_current. cbn [current layer_tree history future].
  rewrite !insert_insert_eq. reflexivity.
Qed.

(** One child of a propagation: its own update, then the recursive call on
    its before and after states. *)
Lemma propagate_child_run recurse dx dy drot dz scale_ratio opacity_ratio child_id child s t :
  current s !! child_id = Some child ->
  numeric child ->
  exists s1,
    same_children s s1
    /\ current s1 = current s
    /\ propagate_child recurse
         (list_to_map [("x", dx); ("y", dy); ("rotation", drot); ("z", dz)])
         scale_ratio opacity_ratio child_id s t
       = recurse child_id child
           (moved dx dy drot dz scale_ratio opacity_ratio child (iso_of t))
           (set_current
              (<[child_id := moved dx dy drot dz scale_ratio opacity_ratio child (iso_of t)]>
                 (current s)) s1)
           (S t).
Proof.
  intros Hc Hn.
  destruct (ensure_layer_present child_id s t (mk_is_Some _ _ Hc))
    as (s1 & He & Hcur & _ & _ & _ & Hkids).
  exists s1. split; [exact Hkids|]. split; [exact Hcur|].
  assert (Hc1 : current s1 !! child_id = Some child) by (rewrite Hcur; exact Hc).
  unfold propagate_child.
  rewrite (bind_step _ _ _ _ _ _ _ He).
  rewrite (bind_step _ _ _ _ _ _ _ (current_at_run _ _ _ _ Hc1)).
  rewrite (bind_step _ _ _ _ _ _ _ (add_fields_run _ dx dy drot dz _ _ _ Hc1 Hn)).
  erewrite bind_step; [|apply current_at_run, lookup_insert_eq].
  unfold lift_result at 1. rewrite bind_run. cbn [res st clk].
  rewrite !float_get_insert_ne by discriminate.
  rewrite (numeric_float_get _ "scale" _ Hn) by in_fields.
  erewrite bind_step; [|apply store_field_run, lookup_insert_eq].
  erewrite bind_step; [|apply current_at_run, lookup_insert_eq].
  unfold lift_result at 1. rewrite bind_run. cbn [res st clk].
  rewrite !float_get_insert_ne by discriminate.
  rewrite (numeric_float_get _ "opacity" _ Hn) by in_fields.
  erewrite bind_step; [|apply store_field_run, lookup_insert_eq].
  erewrite bind_step; [|reflexivity].
  erewrite bind_step; [|apply store_field_run, lookup_insert_eq].
  erewrite bind_step; [|apply current_at_run, lookup_insert_eq].
  unfold moved, set_current. cbn [current layer_tree history future].
  rewrite !insert_insert_eq, Hcur. reflexivity.
Qed.

Lemma root_in_ids T : lt_root T ∈ lt_ids T.
Proof. destruct T. simpl. left. Qed.

Lemma loop_ok fuel dx dy drot dz scale_ratio opacity_ratio subs :
  Forall propagate_ok subs ->
  forall s t,
    Forall (fun sub => lt_height sub <= fuel) subs ->
    Forall (describes (layer_tree s)) subs ->
    NoDup (flat_map lt_ids subs) ->
    known_numeric (flat_map lt_ids subs) (current s) ->
    exists s' t',
      for_each (map lt_root subs)
        (propagate_child (_propagate_group_delta fuel)
           (list_to_map [("x", dx); ("y", dy); ("rotation", drot); ("z", dz)])
           scale_ratio opacity_ratio) s t
      = mkRun (Ok tt) s' t'
      /\ same_children s s'
      /\ (forall id, id ∉ flat_map lt_ids subs -> current s' !! id = current s !! id)
      /\ follows_directly dx dy drot dz scale_ratio opacity_ratio subs (current s) (current s')
      /\ follows_parents (flat_map lt_edges subs) (current s) (current s').
Proof.
  induction 1 as [|sub rest Hsub _ IH]; intros s t Hheight Hdesc Hnd Hknown.
  - exists s, t. repeat split.
    + intros sub Hin. inversion Hin.
    + intros p c Hin. inversion Hin.
  - apply Forall_cons in Hheight as [Hh Hheight].
    apply Forall_cons in Hdesc as [Hd Hdesc].
    cbn [flat_map] in Hnd, Hknown.
    apply NoDup_app in Hnd as (Hnd_sub & Hdisj & Hnd_rest).
    destruct sub as [c kids]. cbn [lt_ids] in Hnd_sub, Hdisj, Hknown.
    apply NoDup_cons in Hnd_sub as [Hc_fresh Hnd_kids].
    destruct (Hknown c ltac:(left)) as (child & Hchild & Hnum).
    destruct (propagate_child_run (_propagate_group_delta fuel) dx dy drot dz
                scale_ratio opacity_ratio c child s t Hchild Hnum)
      as (s1 & Hk1 & Hcur1 & Hrun).
    set (c1 := moved dx dy drot dz scale_ratio opacity_ratio child (iso_of t)) in *.
    set (s2 := set_current (<[c := c1]> (current s)) s1) in *.
    assert (Hk2 : same_children s s2) by exact Hk1.
    assert (Hother : forall id, id <> c -> current s2 !! id = current s !! id).
    { intros id Hne. apply lookup_insert_ne. congruence. }
    destruct (Hsub fuel child c1 s2 (S t)) as (s3 & t3 & Hrun3 & Hk3 & Hout3 & Hdir3 & Hedges3).
    { exact Hh. }
    { eapply describes_ext; [|exact Hd]. exact Hk2. }
    { apply NoDup_cons. split; assumption. }
    { exact Hnum. }
    { apply numeric_moved, Hnum. }
    { intros id Hid. cbn [lt_subtrees] in Hid. rewrite Hother.
      - apply Hknown. right. apply elem_of_app. left. exact Hid.
      - intros ->. contradiction. }
    cbn [lt_root lt_subtrees] in *.
    assert (Hrest3 : forall id, id ∈ flat_map lt_ids rest -> current s3 !! id = current s !! id).
    { intros id Hid.
      assert (Hnot : id ∉ c :: flat_map lt_ids kids).
      { intros Hin. apply (Hdisj id Hin Hid). }
      rewrite Hout3 by (intros Hin; apply Hnot; right; exact Hin).
      apply Hother. intros ->. apply Hnot. left. }
    destruct (IH s3 t3) as (s' & t' & Hrun' & Hk' & Hout' & Hdir' & Hedges').
    { exact Hheight. }
    { eapply Forall_impl; [exact Hdesc|]. intros sub Hsubd.
      eapply describes_ext; [|exact Hsubd]. intros id. rewrite (Hk3 id). apply Hk2. }
    { exact Hnd_rest. }
    { intros id Hid. rewrite (Hrest3 id Hid). apply Hknown. right.
      apply elem_of_app. right. exact Hid. }
    assert (Hsub' : forall id, id ∈ c :: flat_map lt_ids kids ->
                               current s' !! id = current s3 !! id).
    { intros id Hid. apply Hout'. intros Hin. apply (Hdisj id Hid Hin). }
    assert (Hc3 : current s3 !! c = Some c1).
    { rewrite Hout3 by exact Hc_fresh. apply lookup_insert_eq. }
    exists s', t'. split; [|split; [|split; [|split]]].
    + cbn [map for_each lt_root]. rewrite bind_run, Hrun, Hrun3. exact Hrun'.
    + intros id. rewrite (Hk' id), (Hk3 id). apply Hk2.
    + intros id Hid. cbn [flat_map lt_ids] in Hid.
      rewrite Hout' by (intros Hin; apply Hid, elem_of_app; right; exact Hin).
      rewrite Hout3 by (intros Hin; apply Hid, elem_of_app; left; right; exact Hin).
      apply Hother. intros ->. apply Hid, elem_of_app. left. left.
    + intros sub Hin. apply elem_of_cons in Hin as [->|Hin].
      * exists child, (iso_of t). cbn [lt_root]. split; [exact Hchild|].
        rewrite Hsub' by left. exact Hc3.
      * destruct (Hdir' sub Hin) as (sc & now & Hsc & Hsc').
        exists sc, now. split; [|exact Hsc'].
        rewrite <- Hrest3; [exact Hsc|].
        apply list_elem_of_In, in_flat_map. exists sub.
        split; [apply list_elem_of_In, Hin | apply list_elem_of_In, root_in_ids].
    + intros p k Hin. cbn [flat_map lt_edges] in Hin.
      rewrite <- app_assoc in Hin. apply elem_of_app in Hin as [Hin|Hin];
        [|apply elem_of_app in Hin as [Hin|Hin]].
      * apply list_elem_of_fmap in Hin as (kid & [= -> ->] & Hkid).
        destruct (Hdir3 kid Hkid) as (sk & now & Hsk & Hsk').
        assert (Hkin : lt_root kid ∈ flat_map lt_ids kids).
        { apply list_elem_of_In, in_flat_map. exists kid.
          split; [apply list_elem_of_In, Hkid | apply list_elem_of_In, root_in_ids]. }
        exists child, c1, sk, now. split; [exact Hchild|].
        split; [rewrite Hsub' by left; exact Hc3|].
        split.
        -- rewrite <- Hother; [exact Hsk|]. intros Heq. rewrite Heq in Hkin. contradiction.
        -- rewrite Hsub' by (right; exact Hkin). exact Hsk'.
      * destruct (edges_in_ids _ _ _ Hin) as [Hp Hk].
        destruct (Hedges3 p k Hin) as (sp & sp' & sk & now & H1 & H2 & H3 & H4).
        exists sp, sp', sk, now.
        assert (Hpc : p <> c) by (intros ->; contradiction).
        assert (Hkc : k <> c) by (intros ->; contradiction).
        rewrite <- (Hother p Hpc), <- (Hother k Hkc).
        rewrite (Hsub' p) by (right; exact Hp). rewrite (Hsub' k) by (right; exact Hk).
        repeat split; assumption.
      * destruct (edges_in_ids _ _ _ Hin) as [Hp Hk].
        destruct (Hedges' p k Hin) as (sp & sp' & sk & now & H1 & H2 & H3 & H4).
        exists sp, sp', sk, now.
        rewrite <- (Hrest3 p Hp), <- (Hrest3 k Hk). repeat split; assumption.
Qed.

Lemma heights_below subs n :
  foldr Nat.max O (map lt_height subs) <= n ->
  Forall (fun sub => lt_height sub <= n) subs.
Proof.
  induction subs as [|sub rest IH]; simpl; intros H; constructor; [lia | apply IH; lia].
Qed.

Lemma lift_result_ok {St A} (r : result A) (a : A) (s : St) t :
  r = Ok a -> lift_result r s t = mkRun (Ok a) s t.
Proof. intros ->. reflexivity. Qed.

Lemma propagate_all T : propagate_ok T.
Proof.
  induction T as [root subs IH] using LayerTree_nested_ind.
  intros fuel old_parent new_parent s t Hfuel Hdesc Hnd Hold Hnew Hknown.
  destruct fuel as [|fuel]; [simpl in Hfuel; lia|].
  inversion Hdesc as [root' subs' Hkids Hsubs]; subst.
  cbn [lt_root lt_subtrees lt_ids lt_height] in *.
  apply NoDup_cons in Hnd as [_ Hnd].
  cbn [_propagate_group_delta].
  erewrite bind_step; [|reflexivity]. rewrite Hkids.
  destruct (decide (subs = [])) as [->|Hne].
  - exists s, t. repeat split.
    + intros sub Hin. inversion Hin.
    + intros p c Hin. inversion Hin.
  - rewrite bool_decide_false by (intros H; apply map_eq_nil in H; contradiction).
    do 4 (erewrite bind_step;
          [|apply lift_result_ok, diff_of_numeric; [exact Hold | exact Hnew | in_fields]]).
    do 2 (erewrite bind_step;
          [|apply lift_result_ok, ratio_of_numeric; [exact Hold | exact Hnew | in_fields]]).
    cbv zeta.
    apply loop_ok; [exact IH | apply heights_below; lia | exact Hsubs | exact Hnd | exact Hknown].
Qed.

Lemma normalize_one_numeric key v v' :
  key ∈ NUMERIC_FIELDS -> normalize_one key v = Ok (Some v') -> exists f, v' = VNum f.
Proof.
  intros Hk. unfold normalize_one.
  destruct (bool_decide (key ∈ TRACKED_FIELDS)); cbn [negb]; [|discriminate].
  repeat (case_bool_decide;
          [try (destruct (py_float v); intros [= <-]; eauto; fail)|]);
    try discriminate;
    subst; apply list_elem_of_In in Hk; simpl in Hk; intuition discriminate.
Qed.

Lemma normalize_items_numeric items :
  forall acc normalized,
    normalize_items items acc = Ok normalized ->
    (forall key v, key ∈ NUMERIC_FIELDS -> acc !! key = Some v -> exists f, v = VNum f) ->
    forall key v, key ∈ NUMERIC_FIELDS -> normalized !! key = Some v -> exists f, v = VNum f.
Proof.
  induction items as [|[k w] rest IH]; intros acc normalized Hrun Hacc.
  - injection Hrun as <-. exact Hacc.
  - cbn [normalize_items] in Hrun.
    destruct (normalize_one k w) as [[w'|]|e] eqn:Hone; [| |discriminate].
    + apply (IH _ _ Hrun). intros key v Hk.
      destruct (decide (k = key)) as [->|Hne].
      * rewrite lookup_insert_eq. intros [= <-]. exact (normalize_one_numeric _ _ _ Hk Hone).
      * rewrite lookup_insert_ne by exact Hne. apply Hacc, Hk.
    + exact (IH _ _ Hrun Hacc).
Qed.

Lemma numeric_update normalized now old :
  (forall key v, key ∈ NUMERIC_FIELDS -> normalized !! key = Some v -> exists f, v = VNum f) ->
  numeric old -> numeric (stamped normalized now ∪ old).
Proof.
  intros Hnorm Hold key Hk.
  assert (Hstamp : stamped normalized now !! key = normalized !! key).
  { unfold stamped. case_bool_decide; [reflexivity|].
    apply lookup_insert_ne. intros <-. exact (lastUpdate_not_numeric Hk). }
  destruct (normalized !! key) as [v|] eqn:E.
  - destruct (Hnorm key v Hk E) as [f ->]. exists f.
    apply lookup_union_Some_l. rewrite Hstamp. reflexivity.
  - rewrite lookup_union_r by (rewrite Hstamp; reflexivity). apply Hold, Hk.
Qed.

(** C2 (as amended): a [set] with propagation on the root of a layer tree
    whose layers all hold numeric states returns the normalized properties,
    merges them into the root, and leaves every other layer of the tree as
    its own parent's change dictates: x, y, rotation and z moved by the
    difference between the parent's state after and before, scale multiplied
    by the parent's scale ratio (1 when the parent's old scale is 0), opacity
    multiplied by the parent's opacity ratio and then clamped to [0, 1].
    Layers outside the tree keep their state. *)
Theorem propagation_follows_parent T items normalized s t :
  describes (layer_tree s) T ->
  NoDup (lt_ids T) ->
  known_numeric (lt_ids T) (current s) ->
  lt_height T <= recursion_limit ->
  normalize_items items ∅ = Ok normalized ->
  let r := set (lt_root T) items true s t in
  res r = Ok (stamped normalized (iso_of t))
  /\ (exists old_root,
        current s !! lt_root T = Some old_root
        /\ current (st r) !! lt_root T = Some (stamped normalized (iso_of t) ∪ old_root))
  /\ follows_parents (lt_edges T) (current s) (current (st r))
  /\ (forall id, id ∉ lt_ids T -> current (st r) !! id = current s !! id).
Proof.
  intros Hdesc Hnd Hknown Hheight Hnorm.
  destruct T as [root subs]. cbn [lt_root lt_ids lt_edges] in *.
  destruct (Hknown root ltac:(left)) as (old_root & Hroot & Hold).
  apply NoDup_cons in Hnd as Hnd'. destruct Hnd' as [Hfresh Hnd_subs].
  destruct (ensure_layer_present root s t (mk_is_Some _ _ Hroot))
    as (s1 & He & Hcur1 & _ & _ & Htree1 & Hk1).
  set (s2 := mkStore (layer_tree s1) (current s1) (history s1 ++ [current s1]) []).
  assert (Hroot2 : current s2 !! root = Some old_root) by (simpl; rewrite Hcur1; exact Hroot).
  set (new_root := stamped normalized (iso_of t) ∪ old_root).
  set (s3 := set_current (<[root := new_root]> (current s2)) s2).
  set (t3 := if bool_decide (is_Some (normalized !! "lastUpdate")) then t else S t).
  assert (Hnew : numeric new_root).
  { apply numeric_update; [|exact Hold].
    apply (normalize_items_numeric _ _ _ Hnorm). intros key v _ Hv.
    rewrite lookup_empty in Hv. discriminate. }
  assert (Hk3 : same_children s s3) by exact Hk1.
  assert (Hother : forall id, id <> root -> current s3 !! id = current s !! id).
  { intros id Hne. simpl. rewrite lookup_insert_ne by congruence. rewrite Hcur1. reflexivity. }
  assert (Hroot3 : current s3 !! root = Some new_root) by apply lookup_insert_eq.
  inversion Hdesc as [root' subs' Hkids Hsubs]; subst.
  assert (Hprefix : set root items true s t
                    = bind (propagate_from true root old_root)
                           (fun _ => ret (stamped normalized (iso_of t))) s3 t3).
  { unfold set.
    rewrite (bind_step _ _ _ _ _ _ _ He).
    erewrite bind_step; [|reflexivity].
    erewrite bind_step; [|apply current_at_run, Hroot2].
    rewrite bind_run, (apply_direct_known _ _ _ _ _ Hroot2 Htree1), Hnorm.
    reflexivity. }
  cbv zeta. rewrite Hprefix. clear Hprefix.
  destruct (propagate_all (LNode root subs) recursion_limit old_root new_root s3 t3)
    as (s' & t' & Hrun & Hk' & Hout & Hdir & Hedges).
  { exact Hheight. }
  { eapply describes_ext; [|exact Hdesc]. exact Hk3. }
  { exact Hnd. }
  { exact Hold. }
  { exact Hnew. }
  { intros id Hid. cbn [lt_subtrees] in Hid. rewrite Hother.
    - apply Hknown. right. exact Hid.
    - intros ->. contradiction. }
  cbn [lt_root lt_subtrees] in *.
  assert (Hfinal : exists s4 t4,
            propagate_from true root old_root s3 t3 = mkRun (Ok tt) s4 t4
            /\ current s4 = current s').
  { unfold propagate_from. erewrite bind_step; [|reflexivity].
    rewrite (Hk3 root), Hkids. cbn [andb].
    destruct (decide (subs = [])) as [->|Hne].
    - exists s3, t3. split; [reflexivity|].
      destruct recursion_limit as [|fuel]; [simpl in Hheight; lia|].
      cbn [_propagate_group_delta] in Hrun.
      erewrite bind_step in Hrun; [|reflexivity].
      rewrite (Hk3 root), Hkids in Hrun. injection Hrun as <- _. reflexivity.
    - rewrite bool_decide_false by (intros H; apply map_eq_nil in H; contradiction).
      cbn [negb]. erewrite bind_step; [|apply current_at_run, Hroot3].
      exists s', t'. split; [exact Hrun | reflexivity]. }
  destruct Hfinal as (s4 & t4 & Hrun4 & Hcur4).
  rewrite (bind_step _ _ _ _ _ _ _ Hrun4). cbn [ret res st]. rewrite Hcur4.
  split; [reflexivity|]. split; [|split].
  - exists old_root. split; [exact Hroot|]. rewrite Hout by exact Hfresh. exact Hroot3.
  - intros p c Hin. apply elem_of_app in Hin as [Hin|Hin].
    + apply list_elem_of_fmap in Hin as (kid & [= -> ->] & Hkid).
      destruct (Hdir kid Hkid) as (sk & now & Hsk & Hsk').
      assert (Hkin : lt_root kid ∈ flat_map lt_ids subs).
      { apply list_elem_of_In, in_flat_map. exists kid.
        split; [apply list_elem_of_In, Hkid | apply list_elem_of_In, root_in_ids]. }
      exists old_root, new_root, sk, now. split; [exact Hroot|].
      split; [rewrite Hout by exact Hfresh; exact Hroot3|].
      split; [|exact Hsk'].
      rewrite <- Hother; [exact Hsk|]. intros Heq. rewrite Heq in Hkin. contradiction.
    + destruct (edges_in_ids _ _ _ Hin) as [Hp Hc].
      destruct (Hedges p c Hin) as (sp & sp' & sc & now & H1 & H2 & H3 & H4).
      exists sp, sp', sc, now.
      rewrite <- (Hother p) by (intros ->; contradiction).
      rewrite <- (Hother c) by (intros ->; contradiction).
      repeat split; assumption.
  - intros id Hid.
    rewrite Hout by (intros Hin; apply Hid; right; exact Hin).
    apply Hother. intros ->. apply Hid. left.
Qed.

End PropagationFacts.

(** * Further properties *)

(** ** Floats *)

Lemma leb_not_nan_l (x y : float) : PrimFloat.leb x y = true -> PrimFloat.eqb x x = true.
Proof.
  rewrite FloatAxioms.leb_spec, FloatAxioms.eqb_spec. unfold SFleb, SFeqb. intros H.
  rewrite SFcompare_refl; [reflexivity|].
  intros Hn. rewrite Hn in H. discriminate.
Qed.

Lemma leb_not_nan_r (x y : float) : PrimFloat.leb x y = true -> PrimFloat.eqb y y = true.
Proof.
  rewrite FloatAxioms.leb_spec, FloatAxioms.eqb_spec. unfold SFleb, SFeqb. intros H.
  rewrite SFcompare_refl; [reflexivity|].
  intros Hn. rewrite Hn in H. destruct (Prim2SF x); discriminate.
Qed.

Lemma float_leb_refl (x : float) : PrimFloat.eqb x x = true -> PrimFloat.leb x x = true.
Proof.
  intros Hx. apply not_nan_spec in Hx. rewrite FloatAxioms.leb_spec. unfold SFleb.
  rewrite SFcompare_refl by exact Hx. reflexivity.
Qed.

(** [max(lo, min(hi, v))] lies between [lo] and [hi] for every float [v], a
    NaN included, when [lo <= hi]. *)
Lemma clamp_between (lo hi v : float) :
  PrimFloat.leb lo hi = true ->
  PrimFloat.leb lo (py_max lo (py_min hi v)) = true
  /\ PrimFloat.leb (py_max lo (py_min hi v)) hi = true.
Proof.
  intros Hle.
  pose proof (float_leb_refl _ (leb_not_nan_l _ _ Hle)) as Hlo.
  pose proof (float_leb_refl _ (leb_not_nan_r _ _ Hle)) as Hhi.
  unfold py_max, py_min.
  destruct (PrimFloat.ltb v hi) eqn:Hv.
  - destruct (PrimFloat.ltb lo v) eqn:Hlow.
    + split; apply float_ltb_leb; assumption.
    + split; assumption.
  - destruct (PrimFloat.ltb lo hi); split; assumption.
Qed.

Lemma clamp_opacity_in_unit (v : float) : in_unit (_clamp_opacity v).
Proof. apply clamp_between. reflexivity. Qed.

(** ** Invariants of a computation *)

Section Maintains.
Context {St : Type}.
Variable I : St -> Prop.

Lemma maintains_ret {A} (a : A) (Q : A -> Prop) : Q a -> maintains I (ret a) Q.
Proof. intros Ha s t Hs. split; [exact Hs|]. intros a' [= <-]. exact Ha. Qed.

Lemma maintains_raise {A} (e : exn) (Q : A -> Prop) : maintains I (raise e) Q.
Proof. intros s t Hs. split; [exact Hs|]. intros a [=]. Qed.

Lemma maintains_lift {A} (r : result A) (Q : A -> Prop) :
  (forall a, r = Ok a -> Q a) -> maintains I (lift_result r) Q.
Proof. intros Hr s t Hs. split; [exact Hs|]. exact Hr. Qed.

Lemma maintains_ret_true {A} (a : A) : maintains I (ret a) (fun _ => True).
Proof. apply maintains_ret. exact Logic.I. Qed.

Lemma maintains_lift_true {A} (r : result A) : maintains I (lift_result r) (fun _ => True).
Proof. apply maintains_lift. intros; exact Logic.I. Qed.

Lemma maintains_get : maintains I get I.
Proof. intros s t Hs. split; [exact Hs|]. intros a [= <-]. exact Hs. Qed.

Lemma maintains_modify (f : St -> St) :
  (forall s, I s -> I (f s)) -> maintains I (modify f) (fun _ => True).
Proof. intros Hf s t Hs. split; [apply Hf, Hs | intros; exact Logic.I]. Qed.

Lemma maintains_put (s' : St) : I s' -> maintains I (put s') (fun _ => True).
Proof. intros Hs' s t _. split; [exact Hs' | intros; exact Logic.I]. Qed.

Lemma maintains_bind {A B} (m : M St A) (f : A -> M St B) (Q : A -> Prop) (Q' : B -> Prop) :
  maintains I m Q -> (forall a, Q a -> maintains I (f a) Q') -> maintains I (bind m f) Q'.
Proof.
  intros Hm Hf s t Hs. rewrite bind_run. destruct (Hm s t Hs) as [Hs1 Ha].
  destruct (res (m s t)) as [a|e].
  - apply Hf; [apply Ha; reflexivity | exact Hs1].
  - simpl. split; [exact Hs1 | intros b [=]].
Qed.

Lemma maintains_weaken {A} (m : M St A) (Q Q' : A -> Prop) :
  maintains I m Q -> (forall a, Q a -> Q' a) -> maintains I m Q'.
Proof.
  intros Hm Hq s t Hs. destruct (Hm s t Hs) as [Hs1 Ha].
  split; [exact Hs1 | intros a Hr; apply Hq, Ha, Hr].
Qed.

Lemma maintains_for_each {A} (l : list A) (body : A -> M St unit) :
  (forall a, a ∈ l -> maintains I (body a) (fun _ => True)) ->
  maintains I (for_each l body) (fun _ => True).
Proof.
  induction l as [|a l IH]; intros Hb; simpl.
  - apply maintains_ret. exact Logic.I.
  - eapply maintains_bind; [apply Hb; left|]. intros _ _.
    apply IH. intros b Hin. apply Hb. right. exact Hin.
Qed.

End Maintains.

Lemma maintains_iso_now {St} {rt : PyRuntime} (I : St -> Prop) :
  maintains I _iso_now (fun _ => True).
Proof. intros s t Hs. split; [exact Hs | intros; exact Logic.I]. Qed.

(** Membership in a list of literals, decided by computation. *)
Ltac decide_in := apply (bool_decide_unpack _); vm_compute; exact I.

Lemma pop_Some_inv {A : Type} (l l' : list A) (x : A) : pop l = Some (l', x) -> l = l' ++ [x].
Proof.
  revert l'. induction l as [|y l IH]; intros l'; simpl; [discriminate|].
  destruct (pop l) as [[rest z]|] eqn:E.
  - intros [= <- <-]. rewrite (IH rest eq_refl). reflexivity.
  - intros [= <- <-]. apply pop_nil_inv in E. subst l. reflexivity.
Qed.

(** ** The numeric fields of every layer stay floats, the opacity in [0, 1] *)

Section StoreInvariantFacts.
Context {rt : PyRuntime}.

Lemma state_ok_default origin now : state_ok (default_state origin now).
Proof.
  split.
  - intros key Hk. apply list_elem_of_In in Hk. simpl in Hk.
    destruct Hk as [<-|[<-|[<-|[<-|[<-|[<-|[]]]]]]];
      [exists 0%float | exists 0%float | exists 0%float | exists 0%float
       | exists 1%float | exists 1%float]; reflexivity.
  - exists 1%float. split; [reflexivity | split; reflexivity].
Qed.

Lemma states_ok_insert cur id state :
  state_ok state -> states_ok cur -> states_ok (<[id := state]> cur).
Proof.
  intros Hstate Hcur id' state'. destruct (decide (id = id')) as [->|Hne].
  - rewrite lookup_insert_eq. intros [= <-]. exact Hstate.
  - rewrite lookup_insert_ne by exact Hne. apply Hcur.
Qed.

Lemma state_ok_update delta state :
  delta_ok delta -> state_ok state -> state_ok (delta ∪ state).
Proof.
  intros [Hnum Hop] [Hn (f & Hf & Hunit)]. split.
  - intros key Hk. destruct (delta !! key) as [v|] eqn:E.
    + destruct (Hnum key v Hk E) as [g ->]. exists g. apply lookup_union_Some_l, E.
    + rewrite lookup_union_r by exact E. apply Hn, Hk.
  - destruct (delta !! "opacity") as [v|] eqn:E.
    + destruct (Hop v eq_refl) as (g & -> & Hg). exists g.
      split; [apply lookup_union_Some_l, E | exact Hg].
    + exists f. split; [rewrite lookup_union_r by exact E; exact Hf | exact Hunit].
Qed.

Lemma state_ok_insert key v state :
  field_ok key v -> state_ok state -> state_ok (<[key := v]> state).
Proof.
  intros [Hnum Hop] [Hn (f & Hf & Hunit)]. split.
  - intros k Hk. destruct (decide (key = k)) as [->|Hne].
    + destruct (Hnum Hk) as [g ->]. exists g. apply lookup_insert_eq.
    + rewrite lookup_insert_ne by exact Hne. apply Hn, Hk.
  - destruct (decide (key = "opacity")) as [->|Hne].
    + destruct (Hop eq_refl) as (g & -> & Hg). exists g.
      split; [apply lookup_insert_eq | exact Hg].
    + exists f. split; [rewrite lookup_insert_ne by exact Hne; exact Hf | exact Hunit].
Qed.

Lemma normalize_one_opacity v v' :
  normalize_one "opacity" v = Ok (Some v') -> exists f, v' = VNum f /\ in_unit f.
Proof.
  unfold normalize_one.
  rewrite (bool_decide_true ("opacity" ∈ TRACKED_FIELDS)) by decide_in.
  rewrite (bool_decide_true ("opacity" = "opacity")) by reflexivity. cbn [negb].
  destruct (py_float v) as [f|e]; [|discriminate].
  intros [= <-]. exists (_clamp_opacity f). split; [reflexivity | apply clamp_opacity_in_unit].
Qed.

Lemma normalize_items_opacity items :
  forall acc normalized,
    normalize_items items acc = Ok normalized ->
    (forall v, acc !! "opacity" = Some v -> exists f, v = VNum f /\ in_unit f) ->
    forall v, normalized !! "opacity" = Some v -> exists f, v = VNum f /\ in_unit f.
Proof.
  induction items as [|[k w] rest IH]; intros acc normalized Hrun Hacc.
  - injection Hrun as <-. exact Hacc.
  - cbn [normalize_items] in Hrun.
    destruct (normalize_one k w) as [[w'|]|e] eqn:Hone; [| |discriminate].
    + apply (IH _ _ Hrun). intros v.
      destruct (decide (k = "opacity")) as [->|Hne].
      * rewrite lookup_insert_eq. intros [= <-]. exact (normalize_one_opacity _ _ Hone).
      * rewrite lookup_insert_ne by exact Hne. apply Hacc.
    + exact (IH _ _ Hrun Hacc).
Qed.

Lemma delta_ok_stamped items normalized now :
  normalize_items items ∅ = Ok normalized -> delta_ok (stamped normalized now).
Proof.
  intros Hrun.
  assert (Hstamp : forall key, key <> "lastUpdate" ->
                               stamped normalized now !! key = normalized !! key).
  { intros key Hne. unfold stamped. case_bool_decide; [reflexivity|].
    apply lookup_insert_ne. congruence. }
  split.
  - intros key v Hk. rewrite Hstamp by (intros ->; exact (lastUpdate_not_numeric Hk)).
    apply (normalize_items_numeric _ _ _ Hrun); [|exact Hk].
    intros key' v' _ Hv. rewrite lookup_empty in Hv. discriminate.
  - intros v. rewrite Hstamp by discriminate.
    apply (normalize_items_opacity _ _ _ Hrun).
    intros v' Hv. rewrite lookup_empty in Hv. discriminate.
Qed.

Abbreviation keeps_ok m := (maintains store_ok m (fun _ => True)).

Lemma store_ok_set_current cur s :
  states_ok cur -> store_ok s -> store_ok (set_current cur s).
Proof. intros Hcur (_ & Hh & Hf). split; [exact Hcur | split; assumption]. Qed.

Lemma ok_current_at layer_id : maintains store_ok (current_at layer_id) state_ok.
Proof.
  intros s t Hs. unfold current_at. rewrite bind_run. cbn [get res st clk].
  destruct (current s !! layer_id) as [state|] eqn:E; simpl.
  - split; [exact Hs|]. intros a [= <-]. destruct Hs as [Hcur _]. exact (Hcur _ _ E).
  - split; [exact Hs | intros a [=]].
Qed.

Lemma ok_ensure_layer layer_id : keeps_ok (_ensure_layer layer_id).
Proof.
  unfold _ensure_layer.
  eapply maintains_bind; [apply maintains_get|]. intros s _.
  eapply maintains_bind.
  - destruct (bool_decide _); [apply maintains_ret_true|].
    unfold _default_layer_state.
    eapply maintains_bind.
    + eapply maintains_bind; [apply maintains_iso_now|]. intros now _.
      apply (maintains_ret _ _ (fun state => state_ok state)). apply state_ok_default.
    + intros state Hstate. apply maintains_modify. intros s' Hs'.
      apply store_ok_set_current; [|exact Hs'].
      apply states_ok_insert; [exact Hstate | apply Hs'].
  - intros _ _. eapply maintains_bind; [apply maintains_get|]. intros s' _.
    destruct (bool_decide _); [apply maintains_ret_true|].
    apply maintains_modify. intros s'' Hs''. exact Hs''.
Qed.

Lemma ok_commit_history : keeps_ok _commit_history.
Proof.
  apply maintains_modify. intros s (Hcur & Hh & Hf).
  split; [exact Hcur|]. split; [|constructor].
  apply Forall_app. split; [exact Hh|]. constructor; [exact Hcur | constructor].
Qed.

Lemma ok_normalize_props items : maintains store_ok (_normalize_props items) delta_ok.
Proof.
  intros s t Hs. rewrite normalize_props_run.
  destruct (normalize_items items ∅) as [normalized|e] eqn:Hrun; simpl.
  - split; [exact Hs|]. intros a [= <-]. exact (delta_ok_stamped _ _ _ Hrun).
  - split; [exact Hs | intros a [=]].
Qed.

Lemma ok_update_current layer_id delta :
  delta_ok delta -> keeps_ok (update_current layer_id delta).
Proof.
  intros Hdelta. unfold update_current.
  eapply maintains_bind; [apply ok_current_at|]. intros state Hstate.
  apply maintains_modify. intros s Hs.
  apply store_ok_set_current; [|exact Hs].
  apply states_ok_insert; [apply state_ok_update; assumption | apply Hs].
Qed.

Lemma ok_apply_direct layer_id items :
  maintains store_ok (_apply_direct layer_id items) (fun _ => True).
Proof.
  unfold _apply_direct.
  eapply maintains_bind; [apply ok_ensure_layer|]. intros _ _.
  eapply maintains_bind; [apply ok_normalize_props|]. intros normalized Hn.
  eapply maintains_bind; [apply ok_update_current, Hn|]. intros _ _.
  apply maintains_ret_true.
Qed.

Lemma ok_store_field child_id key v :
  field_ok key v -> keeps_ok (store_field child_id key v).
Proof.
  intros Hfield. unfold store_field.
  eapply maintains_bind; [apply ok_current_at|]. intros state Hstate.
  apply maintains_modify. intros s Hs.
  apply store_ok_set_current; [|exact Hs].
  apply states_ok_insert; [apply state_ok_insert; assumption | apply Hs].
Qed.

Lemma field_ok_number key f : key <> "opacity" -> field_ok key (VNum f).
Proof. intros Hne. split; [intros _; exists f; reflexivity | intros ->; contradiction]. Qed.

Lemma ok_add_field child_id deltas key :
  key <> "opacity" -> keeps_ok (add_field child_id deltas key).
Proof.
  intros Hne. unfold add_field.
  eapply maintains_bind; [apply ok_current_at|]. intros state _.
  eapply maintains_bind; [apply maintains_lift_true|].
  intros f _. apply ok_store_field, field_ok_number, Hne.
Qed.

Lemma ok_propagate_child recurse deltas scale_ratio opacity_ratio child_id :
  (forall id before after, keeps_ok (recurse id before after)) ->
  keeps_ok (propagate_child recurse deltas scale_ratio opacity_ratio child_id).
Proof.
  intros Hrec. unfold propagate_child.
  eapply maintains_bind; [apply ok_ensure_layer|]. intros _ _.
  eapply maintains_bind; [apply ok_current_at|]. intros child_before _.
  eapply maintains_bind.
  { apply maintains_for_each. intros key Hkey. apply ok_add_field.
    intros ->. apply list_elem_of_In in Hkey. simpl in Hkey. intuition discriminate. }
  intros _ _.
  eapply maintains_bind; [apply ok_current_at|]. intros state _.
  eapply maintains_bind; [apply maintains_lift_true|].
  intros sc _.
  eapply maintains_bind; [apply ok_store_field, field_ok_number; discriminate|]. intros _ _.
  eapply maintains_bind; [apply ok_current_at|]. intros state' _.
  eapply maintains_bind; [apply maintains_lift_true|].
  intros op _.
  eapply maintains_bind.
  { apply ok_store_field. split; intros _; eexists; [reflexivity|].
    split; [reflexivity | apply clamp_opacity_in_unit]. }
  intros _ _.
  eapply maintains_bind; [apply maintains_iso_now|]. intros now _.
  eapply maintains_bind.
  { apply ok_store_field. split; [intros Hk; exfalso; exact (lastUpdate_not_numeric Hk)|].
    discriminate. }
  intros _ _.
  eapply maintains_bind; [apply ok_current_at|]. intros child_after _.
  apply Hrec.
Qed.

Lemma ok_get_layer_tree layer_id : keeps_ok (get_layer_tree layer_id).
Proof.
  unfold get_layer_tree. eapply maintains_bind; [apply maintains_get|].
  intros s _. apply maintains_ret_true.
Qed.

Lemma ok_propagate_group_delta fuel :
  forall layer_id old_parent new_parent,
    keeps_ok (_propagate_group_delta fuel layer_id old_parent new_parent).
Proof.
  induction fuel as [|fuel IH]; intros layer_id old_parent new_parent; simpl.
  - apply maintains_raise.
  - eapply maintains_bind; [apply ok_get_layer_tree|].
    intros kids _. destruct (bool_decide _); [apply maintains_ret_true|].
    do 6 (eapply maintains_bind;
          [apply maintains_lift_true | intros ? _]).
    apply maintains_for_each. intros child _. apply ok_propagate_child. exact IH.
Qed.

Lemma ok_propagate_from propagate layer_id old_parent :
  keeps_ok (propagate_from propagate layer_id old_parent).
Proof.
  unfold propagate_from.
  eapply maintains_bind; [apply ok_get_layer_tree|].
  intros kids _. destruct (_ && _); [|apply maintains_ret_true].
  eapply maintains_bind; [apply ok_current_at|]. intros new_parent _.
  apply ok_propagate_group_delta.
Qed.

Lemma ok_set layer_id items propagate : keeps_ok (set layer_id items propagate).
Proof.
  unfold set.
  eapply maintains_bind; [apply ok_ensure_layer|]. intros _ _.
  eapply maintains_bind; [apply ok_commit_history|]. intros _ _.
  eapply maintains_bind; [apply ok_current_at|]. intros old_parent _.
  eapply maintains_bind; [apply ok_apply_direct|]. intros applied _.
  eapply maintains_bind; [apply ok_propagate_from|]. intros _ _.
  apply maintains_ret_true.
Qed.

Lemma ok_batch_loop changes propagate :
  forall applied_changes, keeps_ok (batch_loop changes propagate applied_changes).
Proof.
  induction changes as [|change rest IH]; intros applied_changes; simpl.
  - apply maintains_ret_true.
  - destruct (layerId change) as [layer_id|]; [|apply IH].
    destruct (default (VObj []) (props change)); try apply IH.
    destruct (bool_decide _); [apply IH|].
    eapply maintains_bind; [apply ok_ensure_layer|]. intros _ _.
    eapply maintains_bind; [apply ok_current_at|]. intros old_parent _.
    eapply maintains_bind; [apply ok_apply_direct|]. intros applied _.
    eapply maintains_bind; [apply ok_propagate_from|]. intros _ _.
    apply IH.
Qed.

Lemma ok_batch_set changes propagate : keeps_ok (batch_set changes propagate).
Proof.
  unfold batch_set.
  eapply maintains_bind; [apply ok_commit_history|]. intros _ _. apply ok_batch_loop.
Qed.

Lemma ok_undo : keeps_ok undo.
Proof.
  intros s t (Hcur & Hh & Hf). unfold undo. rewrite bind_run. cbn [get res st clk].
  destruct (pop (history s)) as [[history' top]|] eqn:E.
  - apply pop_Some_inv in E. rewrite E in Hh. apply Forall_app in Hh as [Hh Htop].
    apply Forall_cons in Htop as [Htop _].
    split; [|intros; exact I]. simpl.
    split; [exact Htop|]. split; [exact Hh|].
    apply Forall_app. split; [exact Hf|]. constructor; [exact Hcur | constructor].
  - split; [split; [exact Hcur | split; assumption] | intros; exact I].
Qed.

Lemma ok_redo : keeps_ok redo.
Proof.
  intros s t (Hcur & Hh & Hf). unfold redo. rewrite bind_run. cbn [get res st clk].
  destruct (pop (future s)) as [[future' top]|] eqn:E.
  - apply pop_Some_inv in E. rewrite E in Hf. apply Forall_app in Hf as [Hf Htop].
    apply Forall_cons in Htop as [Htop _].
    split; [|intros; exact I]. simpl.
    split; [exact Htop|]. split; [|exact Hf].
    apply Forall_app. split; [exact Hh|]. constructor; [exact Hcur | constructor].
  - split; [split; [exact Hcur | split; assumption] | intros; exact I].
Qed.

Lemma ok_get_layer_state layer_id :
  maintains store_ok (get_layer_state layer_id) state_ok.
Proof.
  unfold get_layer_state.
  eapply maintains_bind; [apply ok_ensure_layer|]. intros _ _. apply ok_current_at.
Qed.

Lemma ok_reconcile_loop dom_layers prefer dry_run tolerance :
  forall changed patch,
    keeps_ok (reconcile_loop dom_layers prefer dry_run tolerance changed patch).
Proof.
  induction dom_layers as [|[layer_id dom_state] rest IH]; intros changed patch; simpl.
  - apply maintains_ret_true.
  - eapply maintains_bind; [apply maintains_get|]. intros s _.
    destruct (current s !! layer_id) as [store_state|]; [|apply IH].
    destruct (negb _); [apply IH|].
    destruct dry_run; [apply IH|].
    eapply maintains_bind; [|intros _ _; apply IH].
    destruct (update_for_store _); [apply maintains_ret_true|].
    eapply maintains_bind; [apply ok_set|]. intros _ _. apply maintains_ret_true.
Qed.

Lemma ok_reconcile_with_dom dom_layers prefer dry_run tolerance :
  keeps_ok (reconcile_with_dom dom_layers prefer dry_run tolerance).
Proof.
  unfold reconcile_with_dom. destruct (negb _); [apply maintains_raise|].
  eapply maintains_bind; [apply ok_reconcile_loop|]. intros out _.
  apply maintains_ret_true.
Qed.

Lemma ok_from_layers {St} layers :
  forall store (s : St) t,
    store_ok store ->
    forall built, res (from_layers layers store s t) = Ok built -> store_ok built.
Proof.
  induction layers as [|layer rest IH]; intros store s t Hstore built; simpl.
  - intros [= <-]. exact Hstore.
  - rewrite bind_run. cbn [res st clk]. apply IH.
    split; [|split; constructor]. simpl.
    apply states_ok_insert; [apply state_ok_default | apply Hstore].
Qed.

(** X1: the store never holds a malformed numeric field.  If the six numeric
    fields of every layer state, in the state map and in every snapshot on
    the undo and redo stacks, hold floats and every opacity lies within
    [0, 1], then the same is true after [set], [batch_set], [undo], [redo],
    [get_layer_state] and [reconcile_with_dom], with whatever arguments and
    whether the call returns or raises; and a store built by
    [from_layer_map_full] starts out that way. *)
Theorem numeric_fields_stay_valid (s : StateStore) (t : nat) :
  store_ok s ->
  (forall layer_id items propagate, store_ok (st (set layer_id items propagate s t)))
  /\ (forall changes propagate, store_ok (st (batch_set changes propagate s t)))
  /\ store_ok (st (undo s t))
  /\ store_ok (st (redo s t))
  /\ (forall layer_id, store_ok (st (get_layer_state layer_id s t)))
  /\ (forall dom_layers prefer dry_run tolerance,
        store_ok (st (reconcile_with_dom dom_layers prefer dry_run tolerance s t)))
  /\ (forall layer_map_full built,
        res (from_layer_map_full layer_map_full s t) = Ok built -> store_ok built).
Proof.
  intros Hs.
  split; [intros; apply ok_set, Hs|].
  split; [intros; apply ok_batch_set, Hs|].
  split; [apply ok_undo, Hs|].
  split; [apply ok_redo, Hs|].
  split; [intros; apply ok_get_layer_state, Hs|].
  split; [intros; apply ok_reconcile_with_dom, Hs|].
  intros doc built. unfold from_layer_map_full. apply ok_from_layers.
  split; [|split; constructor]. intros id state Hlook. simpl in Hlook.
  rewrite lookup_empty in Hlook. discriminate.
Qed.

End StoreInvariantFacts.
Section MoreStoreFacts.
Context {rt : PyRuntime}.

Lemma ensure_layer_post layer_id s t :
  is_Some (current (st (_ensure_layer layer_id s t)) !! layer_id)
  /\ is_Some (layer_tree (st (_ensure_layer layer_id s t)) !! layer_id).
Proof.
  unfold _ensure_layer, bind, get, ret, modify, _default_layer_state, _iso_now. simpl.
  destruct (bool_decide (is_Some (current s !! layer_id))) eqn:Hc; simpl;
    destruct (bool_decide (is_Some (layer_tree s !! layer_id))) eqn:Ht; simpl;
    try apply bool_decide_eq_true in Hc; try apply bool_decide_eq_true in Ht;
    rewrite ?lookup_insert_eq; split; eauto.
Qed.

(** X2: a [set] is not atomic.  Every call, whether it returns or raises,
    appends exactly one snapshot to the undo stack (the state map as
    [_ensure_layer] left it) and empties the redo stack, so a [redo()] right
    after it returns [False] and changes nothing, and one [undo()] returns
    [True] and puts that snapshot back; when the props do not normalise the
    call raises with the state map as [_ensure_layer] left it. *)
Theorem set_always_snapshots (layer_id : string) (items : list (string * value))
    (propagate : bool) (s : StateStore) (t : nat) :
  let r := set layer_id items propagate s t in
  let u := undo (st r) (clk r) in
  history (st r) = history s ++ [ensured layer_id s t]
  /\ future (st r) = []
  /\ redo (st r) (clk r) = mkRun (Ok false) (st r) (clk r)
  /\ res u = Ok true
  /\ current (st u) = ensured layer_id s t
  /\ history (st u) = history s
  /\ (forall e, normalize_items items ∅ = Raise e ->
        res r = Raise e /\ current (st r) = ensured layer_id s t).
Proof.
  cbv zeta. destruct (set_stacks layer_id items propagate s t) as [Hh Hf].
  split; [exact Hh|]. split; [exact Hf|].
  split; [apply redo_empty, Hf|].
  rewrite (undo_top _ _ _ _ Hh). cbn [res st current history].
  split; [reflexivity|]. split; [reflexivity|]. split; [reflexivity|].
  intros e Hnorm.
  pose proof (ensure_layer_ok layer_id s t) as Hok.
  destruct (ensure_layer_post layer_id s t) as [[state Hstate] Htree].
  unfold ensured. set (r1 := _ensure_layer layer_id s t) in *.
  set (s2 := mkStore (layer_tree (st r1)) (current (st r1))
                     (history (st r1) ++ [current (st r1)]) []).
  assert (E : set layer_id items propagate s t = mkRun (Raise e) s2 (clk r1)).
  { unfold set. unfold bind at 1. fold r1. rewrite Hok.
    erewrite bind_step; [|reflexivity]. fold s2.
    erewrite bind_step; [|apply current_at_run; exact Hstate].
    rewrite bind_run.
    rewrite (apply_direct_known layer_id items s2 (clk r1) state Hstate Htree), Hnorm.
    reflexivity. }
  rewrite E. split; reflexivity.
Qed.

(** X3: [undo] and [redo] are inverse to each other.  Whenever one of them
    returns [True], the other one, called next, returns [True] too and puts
    the whole store back as it was.  Neither touches the layer tree, and
    between them the two stacks keep their total number of snapshots. *)
Theorem undo_redo_inverse (first_undo : bool) (s : StateStore) (t : nat) :
  let op := if first_undo then undo else redo in
  let back := if first_undo then redo else undo in
  res (op s t) = Ok true ->
  res (back (st (op s t)) (clk (op s t))) = Ok true
  /\ st (back (st (op s t)) (clk (op s t))) = s
  /\ layer_tree (st (op s t)) = layer_tree s
  /\ length (history (st (op s t))) + length (future (st (op s t)))
     = length (history s) + length (future s).
Proof.
  cbv zeta. destruct first_undo.
  - destruct (pop (history s)) as [[h x]|] eqn:E.
    + apply pop_Some_inv in E. intros _. rewrite (undo_top s t h x E).
      cbn [st clk]. erewrite redo_top by reflexivity. cbn [res st layer_tree history future].
      split; [reflexivity|]. split; [destruct s; simpl in *; congruence|].
      split; [reflexivity|]. rewrite E, !length_app. simpl. lia.
    + apply pop_nil_inv in E. rewrite (undo_empty s t E). discriminate.
  - destruct (pop (future s)) as [[f x]|] eqn:E.
    + apply pop_Some_inv in E. intros _. rewrite (redo_top s t f x E).
      cbn [st clk]. erewrite undo_top by reflexivity. cbn [res st layer_tree history future].
      split; [reflexivity|]. split; [destruct s; simpl in *; congruence|].
      split; [reflexivity|]. rewrite E, !length_app. simpl. lia.
    + apply pop_nil_inv in E. rewrite (redo_empty s t E). discriminate.
Qed.

End MoreStoreFacts.
(** ** What a [set] leaves alone *)

Section StoreLocality.
Context {rt : PyRuntime}.

Lemma descends_snoc tree a b c :
  descends tree a b -> c ∈ default [] (tree !! b) -> descends tree a c.
Proof.
  induction 1 as [a|a b c' Hab _ IH]; intros Hc.
  - eapply descends_step; [exact Hc | apply descends_refl].
  - eapply descends_step; [exact Hab | apply IH, Hc].
Qed.

Section Within.
Variable s0 : StateStore.
Variable P : string -> Prop.

Abbreviation stays_within m := (maintains (within s0 P) m (fun _ => True)).

Lemma within_set_current s id state :
  P id -> within s0 P s -> within s0 P (set_current (<[id := state]> (current s)) s).
Proof.
  intros Hid [Hkids Hout]. split; [exact Hkids|].
  intros id' Hid'. simpl. rewrite lookup_insert_ne by (intros ->; contradiction).
  apply Hout, Hid'.
Qed.

Lemma within_mk s lt cur h f :
  (forall id, default [] (lt !! id) = default [] (layer_tree s !! id)) ->
  (forall id, ~ P id -> cur !! id = current s !! id) ->
  within s0 P s -> within s0 P (mkStore lt cur h f).
Proof.
  intros Hlt Hcur [Hkids Hout]. split.
  - intros id. cbn [layer_tree]. rewrite Hlt. apply Hkids.
  - intros id Hid. cbn [current]. rewrite Hcur by exact Hid. apply Hout, Hid.
Qed.

Lemma default_insert_nil (tree : gmap string (list string)) id id' :
  tree !! id = None -> default [] (<[id := []]> tree !! id') = default [] (tree !! id').
Proof.
  intros Hnone. destruct (decide (id = id')) as [->|Hne].
  - rewrite lookup_insert_eq, Hnone. reflexivity.
  - rewrite lookup_insert_ne by exact Hne. reflexivity.
Qed.

Lemma within_ensure_layer layer_id : P layer_id -> stays_within (_ensure_layer layer_id).
Proof.
  intros Hid s t Hw. split; [|intros; exact I].
  unfold _ensure_layer, bind, get, ret, modify, _default_layer_state, _iso_now. simpl.
  destruct (bool_decide (is_Some (current s !! layer_id))); simpl;
    destruct (bool_decide (is_Some (layer_tree s !! layer_id))) eqn:Ht; simpl;
    try (apply bool_decide_eq_false in Ht; rewrite <- eq_None_not_Some in Ht).
  - exact Hw.
  - apply (within_mk s); [intros; apply default_insert_nil, Ht | reflexivity | exact Hw].
  - apply within_set_current; assumption.
  - apply (within_mk s); [intros; apply default_insert_nil, Ht | | exact Hw].
    intros id Hout. apply lookup_insert_ne. intros ->. contradiction.
Qed.

Lemma within_commit_history : stays_within _commit_history.
Proof. apply maintains_modify. intros s Hs. exact Hs. Qed.

Lemma within_current_at layer_id : stays_within (current_at layer_id).
Proof.
  intros s t Hs. unfold current_at. rewrite bind_run. cbn [get res st clk].
  destruct (current s !! layer_id); (split; [exact Hs | intros; exact I]).
Qed.

Lemma within_get_layer_tree layer_id :
  maintains (within s0 P) (get_layer_tree layer_id)
            (fun kids => kids = default [] (layer_tree s0 !! layer_id)).
Proof.
  intros s t Hs. split; [exact Hs|]. intros kids [= <-]. apply Hs.
Qed.

Lemma within_update_current layer_id delta :
  P layer_id -> stays_within (update_current layer_id delta).
Proof.
  intros Hid. unfold update_current.
  eapply maintains_bind; [apply within_current_at|].
  intros state _. apply maintains_modify. intros s. apply within_set_current, Hid.
Qed.

Lemma within_store_field child_id key v :
  P child_id -> stays_within (store_field child_id key v).
Proof.
  intros Hid. unfold store_field.
  eapply maintains_bind; [apply within_current_at|].
  intros state _. apply maintains_modify. intros s. apply within_set_current, Hid.
Qed.

Lemma within_normalize_props items : stays_within (_normalize_props items).
Proof.
  intros s t Hs. rewrite normalize_props_run.
  destruct (normalize_items items ∅); (split; [exact Hs | intros; exact I]).
Qed.

Lemma within_apply_direct layer_id items :
  P layer_id -> stays_within (_apply_direct layer_id items).
Proof.
  intros Hid. unfold _apply_direct.
  eapply maintains_bind; [apply within_ensure_layer, Hid|]. intros _ _.
  eapply maintains_bind; [apply within_normalize_props|]. intros normalized _.
  eapply maintains_bind; [apply within_update_current, Hid|]. intros _ _.
  apply maintains_ret_true.
Qed.

Lemma within_add_field child_id deltas key :
  P child_id -> stays_within (add_field child_id deltas key).
Proof.
  intros Hid. unfold add_field.
  eapply maintains_bind; [apply within_current_at|]. intros state _.
  eapply maintains_bind; [apply maintains_lift_true|]. intros f _.
  apply within_store_field, Hid.
Qed.

Lemma within_propagate_child recurse deltas scale_ratio opacity_ratio child_id :
  P child_id ->
  (forall before after, stays_within (recurse child_id before after)) ->
  stays_within (propagate_child recurse deltas scale_ratio opacity_ratio child_id).
Proof.
  intros Hid Hrec. unfold propagate_child.
  eapply maintains_bind; [apply within_ensure_layer, Hid|]. intros _ _.
  eapply maintains_bind; [apply within_current_at|]. intros child_before _.
  eapply maintains_bind.
  { apply maintains_for_each. intros key _. apply within_add_field, Hid. }
  intros _ _.
  eapply maintains_bind; [apply within_current_at|]. intros state _.
  eapply maintains_bind; [apply maintains_lift_true|]. intros sc _.
  eapply maintains_bind; [apply within_store_field, Hid|]. intros _ _.
  eapply maintains_bind; [apply within_current_at|]. intros state' _.
  eapply maintains_bind; [apply maintains_lift_true|]. intros op _.
  eapply maintains_bind; [apply within_store_field, Hid|]. intros _ _.
  eapply maintains_bind; [apply maintains_iso_now|]. intros now _.
  eapply maintains_bind; [apply within_store_field, Hid|]. intros _ _.
  eapply maintains_bind; [apply within_current_at|]. intros child_after _.
  apply Hrec.
Qed.

(** [P] holds of the children of every layer it holds of. *)
Hypothesis P_closed : forall a b, P a -> b ∈ default [] (layer_tree s0 !! a) -> P b.

Lemma within_propagate_group_delta fuel :
  forall layer_id old_parent new_parent,
    P layer_id ->
    stays_within (_propagate_group_delta fuel layer_id old_parent new_parent).
Proof.
  induction fuel as [|fuel IH]; intros layer_id old_parent new_parent Hid; simpl.
  - apply maintains_raise.
  - eapply maintains_bind; [apply within_get_layer_tree|].
    intros kids ->. destruct (bool_decide _); [apply maintains_ret_true|].
    do 6 (eapply maintains_bind; [apply maintains_lift_true | intros ? _]).
    apply maintains_for_each. intros child Hchild.
    assert (Hc : P child) by (eapply P_closed; eassumption).
    apply within_propagate_child; [exact Hc|]. intros before after. apply IH, Hc.
Qed.

End Within.

Lemma within_set (s0 : StateStore) (P : string -> Prop) layer_id items propagate :
  P layer_id ->
  (propagate = true ->
   forall a b, P a -> b ∈ default [] (layer_tree s0 !! a) -> P b) ->
  maintains (within s0 P) (set layer_id items propagate) (fun _ => True).
Proof.
  intros Hid Hclosed. unfold set.
  eapply maintains_bind; [apply within_ensure_layer, Hid|]. intros _ _.
  eapply maintains_bind; [apply within_commit_history|]. intros _ _.
  eapply maintains_bind; [apply within_current_at|]. intros old_parent _.
  eapply maintains_bind; [apply within_apply_direct, Hid|]. intros applied _.
  eapply maintains_bind; [|intros _ _; apply maintains_ret_true].
  unfold propagate_from.
  eapply maintains_bind; [apply within_get_layer_tree|]. intros kids _.
  destruct propagate; cbn [andb]; [|apply maintains_ret_true].
  destruct (negb _); [|apply maintains_ret_true].
  eapply maintains_bind; [apply within_current_at|]. intros new_parent _.
  apply within_propagate_group_delta; [apply Hclosed; reflexivity | exact Hid].
Qed.

(** X4: a [set] touches the layer it names and, when it propagates, the
    layers below it in the layer tree, and no other layer: every other layer
    keeps its state, whatever the props are, whether the call returns or
    raises, and whether or not the tree is a tree.  No layer gains or loses
    a child. *)
Theorem set_touches_descendants_only (layer_id : string) (items : list (string * value))
    (propagate : bool) (s : StateStore) (t : nat) (id : string) :
  id <> layer_id ->
  (propagate = true -> ~ descends (layer_tree s) layer_id id) ->
  current (st (set layer_id items propagate s t)) !! id = current s !! id
  /\ same_children s (st (set layer_id items propagate s t)).
Proof.
  intros Hne Hout.
  set (P := fun x => x = layer_id \/ (propagate = true /\ descends (layer_tree s) layer_id x)).
  assert (Hw : within s P s) by (split; [intros ?; reflexivity | reflexivity]).
  destruct (within_set s P layer_id items propagate) with (s := s) (t := t)
    as [[Hkids Hcur] _].
  - left. reflexivity.
  - intros Hp a b [->|[_ Ha]] Hb; right; (split; [exact Hp|]).
    + eapply descends_step; [exact Hb | apply descends_refl].
    + eapply descends_snoc; eassumption.
  - exact Hw.
  - split; [|exact Hkids]. apply Hcur. intros [->|[Hp Hd]]; [contradiction|].
    exact (Hout Hp Hd).
Qed.

End StoreLocality.

(** ** What a [set] that returns has written *)

Section ReturnsOnlyIf.
Context {St : Type}.
Variable I : St -> Prop.

Lemma only_if_bind {A B} (m : M St A) (f : A -> M St B) (Q : A -> Prop) (C : Prop) :
  maintains I m Q -> (forall a, Q a -> returns_only_if I (f a) C) ->
  returns_only_if I (bind m f) C.
Proof.
  intros Hm Hf s t b Hs Hres. apply bind_ok_inv in Hres as (a & Ha & Hb).
  destruct (Hm s t Hs) as [Hs1 Hq]. exact (Hf a (Hq a Ha) _ _ b Hs1 Hb).
Qed.

Lemma only_if_weaken {A} (m : M St A) (C C' : Prop) :
  returns_only_if I m C -> (C -> C') -> returns_only_if I m C'.
Proof. intros Hm Hc s t a Hs Hres. exact (Hc (Hm s t a Hs Hres)). Qed.

Lemma only_if_holds {A} (m : M St A) (C : Prop) : C -> returns_only_if I m C.
Proof. intros Hc s t a _ _. exact Hc. Qed.

Lemma only_if_for_each {A} (l : list A) (body : A -> M St unit) (C : A -> Prop) :
  (forall a, a ∈ l -> maintains I (body a) (fun _ => True)) ->
  (forall a, a ∈ l -> returns_only_if I (body a) (C a)) ->
  returns_only_if I (for_each l body) (forall a, a ∈ l -> C a).
Proof.
  induction l as [|x l IH]; intros Hkeep Hbody s t u Hs Hres.
  - intros a Ha. inversion Ha.
  - cbn [for_each] in Hres. apply bind_ok_inv in Hres as (u' & Hx & Hrest).
    destruct (Hkeep x (list_elem_of_here _ _) s t Hs) as [Hs1 _].
    intros a Ha. apply elem_of_cons in Ha as [->|Ha].
    + exact (Hbody x (list_elem_of_here _ _) s t u' Hs Hx).
    + refine (IH _ _ _ _ u Hs1 Hrest a Ha).
      * intros b Hb. apply Hkeep, list_elem_of_further, Hb.
      * intros b Hb. apply Hbody, list_elem_of_further, Hb.
Qed.

End ReturnsOnlyIf.

Section StoredProps.
Context {rt : PyRuntime}.

Lemma path_from_shorter tree a n :
  path_from tree a n -> forall m, m <= n -> path_from tree a m.
Proof.
  induction 1 as [a|a b n Hb _ IH]; intros m Hm.
  - replace m with 0 by lia. apply path_here.
  - destruct m as [|m]; [apply path_here|].
    apply (path_down _ _ b); [exact Hb | apply IH; lia].
Qed.

Lemma path_from_descends tree b c :
  descends tree b c -> forall n, path_from tree c n -> exists m, n <= m /\ path_from tree b m.
Proof.
  induction 1 as [a|a b c Hb _ IH]; intros n Hn.
  - exists n. split; [lia | exact Hn].
  - destruct (IH n Hn) as (m & Hm & Hpath).
    exists (S m). split; [lia | apply (path_down _ _ b); assumption].
Qed.

(** A layer below itself has paths of every length. *)
Lemma path_from_cycle tree a : below tree a a -> forall n, path_from tree a n.
Proof.
  intros (b & Hb & Hdown) n. induction n as [|n IH]; [apply path_here|].
  destruct (path_from_descends _ _ _ Hdown n IH) as (m & Hm & Hpath).
  apply (path_down _ _ b); [exact Hb | apply (path_from_shorter _ _ _ Hpath), Hm].
Qed.

Lemma below_child tree a b c : below tree a b -> c ∈ default [] (tree !! b) -> below tree a c.
Proof.
  intros (x & Hx & Hdown) Hc. exists x. split; [exact Hx|].
  eapply descends_snoc; eassumption.
Qed.

Section From.
Variable s0 : StateStore.

Abbreviation any := (fun _ : string => True).

Lemma only_if_propagate_child recurse deltas scale_ratio opacity_ratio child_id (C : Prop) :
  (forall before after,
      returns_only_if (within s0 any) (recurse child_id before after) C) ->
  returns_only_if (within s0 any)
    (propagate_child recurse deltas scale_ratio opacity_ratio child_id) C.
Proof.
  intros Hrec. unfold propagate_child.
  eapply only_if_bind; [apply (within_ensure_layer s0 any), Logic.I|]. intros _ _.
  eapply only_if_bind; [apply within_current_at|]. intros child_before _.
  eapply only_if_bind.
  { apply maintains_for_each. intros key _. apply (within_add_field s0 any), Logic.I. }
  intros _ _.
  eapply only_if_bind; [apply within_current_at|]. intros state _.
  eapply only_if_bind; [apply maintains_lift_true|]. intros sc _.
  eapply only_if_bind; [apply (within_store_field s0 any), Logic.I|]. intros _ _.
  eapply only_if_bind; [apply within_current_at|]. intros state' _.
  eapply only_if_bind; [apply maintains_lift_true|]. intros op _.
  eapply only_if_bind; [apply (within_store_field s0 any), Logic.I|]. intros _ _.
  eapply only_if_bind; [apply maintains_iso_now|]. intros now _.
  eapply only_if_bind; [apply (within_store_field s0 any), Logic.I|]. intros _ _.
  eapply only_if_bind; [apply within_current_at|]. intros child_after _.
  apply Hrec.
Qed.

(** A propagation that returns has found no path as long as its fuel. *)
Lemma only_if_propagate fuel :
  forall layer_id old_parent new_parent,
    returns_only_if (within s0 any)
      (_propagate_group_delta fuel layer_id old_parent new_parent)
      (forall n, path_from (layer_tree s0) layer_id n -> n < fuel).
Proof.
  induction fuel as [|fuel IH]; intros layer_id old_parent new_parent.
  - intros s t a _ Hres. discriminate.
  - cbn [_propagate_group_delta].
    eapply only_if_bind; [apply within_get_layer_tree|]. intros kids ->.
    case_bool_decide as Hkids.
    + apply only_if_holds. intros n Hn. inversion Hn as [|src dst m Hb Hm]; subst; [lia|].
      rewrite Hkids in Hb. inversion Hb.
    + do 6 (eapply only_if_bind; [apply maintains_lift_true | intros ? _]).
      eapply only_if_weaken.
      * apply (only_if_for_each _ _ _
                 (fun child => forall n, path_from (layer_tree s0) child n -> n < fuel)).
        -- intros child _. apply (within_propagate_child s0 any); [exact Logic.I|].
           intros before after.
           apply (within_propagate_group_delta s0 any (fun _ _ _ _ => Logic.I)).
           exact Logic.I.
        -- intros child _. apply only_if_propagate_child. intros before after. apply IH.
      * intros Hall n Hn. inversion Hn as [|src dst m Hb Hm]; subst; [lia|].
        specialize (Hall dst Hb m Hm). lia.
Qed.

End From.

(** A propagation that returns began at a layer that is not below itself. *)
Lemma propagate_from_acyclic layer_id old_parent s t :
  res (propagate_from true layer_id old_parent s t) = Ok tt ->
  ~ below (layer_tree s) layer_id layer_id.
Proof.
  intros Hres Hcycle.
  assert (Hw : within s (fun _ => True) s) by (split; [intros ?; reflexivity | reflexivity]).
  assert (Hkids : default [] (layer_tree s !! layer_id) <> []).
  { destruct Hcycle as (b & Hb & _). intros Hnil. rewrite Hnil in Hb. inversion Hb. }
  assert (Honly : returns_only_if (within s (fun _ => True))
                    (propagate_from true layer_id old_parent)
                    (forall n, path_from (layer_tree s) layer_id n -> n < recursion_limit)).
  { unfold propagate_from.
    eapply only_if_bind; [apply within_get_layer_tree|]. intros kids ->.
    cbn [andb]. rewrite bool_decide_false by exact Hkids. cbn [negb].
    eapply only_if_bind; [apply within_current_at|]. intros new_parent _.
    apply only_if_propagate. }
  pose proof (Honly s t tt Hw Hres recursion_limit
                (path_from_cycle _ _ Hcycle recursion_limit)) as Hlt.
  lia.
Qed.

(** A propagation writes below the layer it starts from. *)
Lemma within_propagate_from (s0 : StateStore) layer_id old_parent :
  maintains (within s0 (below (layer_tree s0) layer_id))
    (propagate_from true layer_id old_parent) (fun _ => True).
Proof.
  set (P := below (layer_tree s0) layer_id).
  assert (Hclosed : forall a b, P a -> b ∈ default [] (layer_tree s0 !! a) -> P b).
  { intros a b Ha Hb. eapply below_child; eassumption. }
  unfold propagate_from.
  eapply maintains_bind; [apply within_get_layer_tree|]. intros kids _.
  cbn [andb]. destruct (negb _); [|apply maintains_ret_true].
  eapply maintains_bind; [apply within_current_at|]. intros new_parent _.
  destruct recursion_limit as [|fuel]; [apply maintains_raise|].
  cbn [_propagate_group_delta].
  eapply maintains_bind; [apply within_get_layer_tree|]. intros kids' ->.
  destruct (bool_decide _); [apply maintains_ret_true|].
  do 6 (eapply maintains_bind; [apply maintains_lift_true | intros ? _]).
  apply maintains_for_each. intros child Hchild.
  assert (Hc : P child) by (exists child; split; [exact Hchild | apply descends_refl]).
  apply within_propagate_child; [exact Hc|]. intros before after.
  apply (within_propagate_group_delta s0 P Hclosed), Hc.
Qed.

Lemma bind_ok_run {St A B} (m : M St A) (f : A -> M St B) (s : St) (t : nat) (b : B) :
  res (bind m f s t) = Ok b ->
  exists a, res (m s t) = Ok a /\ bind m f s t = f a (st (m s t)) (clk (m s t)).
Proof.
  rewrite bind_run. destruct (res (m s t)) as [a|e]; [|discriminate].
  intros _. exists a. split; reflexivity.
Qed.

(** What [_apply_direct] returns is in the state of the layer. *)
Lemma apply_direct_written layer_id items s t written :
  res (_apply_direct layer_id items s t) = Ok written ->
  exists state,
    current (st (_apply_direct layer_id items s t)) !! layer_id = Some (written ∪ state).
Proof.
  unfold _apply_direct. rewrite bind_run, ensure_layer_ok.
  destruct (ensure_layer_post layer_id s t) as [[state Hstate] _].
  rewrite bind_run, normalize_props_run.
  destruct (normalize_items items ∅) as [normalized|]; [|discriminate].
  cbn [res st clk].
  rewrite (bind_step _ _ _ _ _ _ _ (update_current_run _ _ _ _ _ Hstate)).
  cbn [ret res st]. intros [= <-]. exists state. apply lookup_insert_eq.
Qed.

(** A [set] that returns has written what it returns into the state of the
    layer it names: a propagation that ends has not come back to it. *)
Lemma set_stores_written layer_id items s t written :
  res (set layer_id items true s t) = Ok written ->
  forall key v,
    written !! key = Some v ->
    field_of (current (st (set layer_id items true s t))) layer_id key = Some v.
Proof.
  unfold set.
  rewrite bind_run. destruct (res (_ensure_layer layer_id s t)); [|discriminate].
  rewrite bind_run. destruct (res (_commit_history _ _)); [|discriminate].
  rewrite bind_run. destruct (res (current_at layer_id _ _)) as [old_parent|]; [|discriminate].
  rewrite bind_run.
  destruct (res (_apply_direct layer_id items _ _)) as [applied|] eqn:Happlied; [|discriminate].
  destruct (apply_direct_written _ _ _ _ _ Happlied) as (state & Hstate).
  rewrite bind_run.
  destruct (res (propagate_from true layer_id old_parent _ _)) as [[]|] eqn:Hprop;
    [|discriminate].
  cbn [ret res st]. intros [= <-] key v Hv.
  pose proof (propagate_from_acyclic _ _ _ _ Hprop) as Hacyclic.
  match type of Hprop with
  | res (propagate_from true layer_id old_parent ?s3 ?t3) = _ =>
      destruct (within_propagate_from s3 layer_id old_parent s3 t3) as [[_ Hkeep] _];
        [split; [intros ?; reflexivity | reflexivity]|];
      unfold field_of; rewrite (Hkeep layer_id Hacyclic), Hstate
  end.
  cbn [mbind option_bind]. apply lookup_union_Some_l, Hv.
Qed.

End StoredProps.

(** ** Fields the store does not track *)

Section UntrackedFields.
Context {rt : PyRuntime}.

Lemma default_state_untracked origin now key :
  key ∉ TRACKED_FIELDS -> default_state origin now !! key = None.
Proof.
  intros Hout. unfold default_state. apply not_elem_of_list_to_map_1.
  intros Hin. apply Hout. cbn [fmap list_fmap fst] in Hin.
  repeat (apply elem_of_cons in Hin as [->|Hin]; [decide_in|]).
  inversion Hin.
Qed.

Lemma current_at_missing layer_id s t :
  current s !! layer_id = None ->
  current_at layer_id s t = mkRun (Raise (KeyError layer_id)) s t.
Proof. intros H. unfold current_at, bind, get, raise. simpl. rewrite H. reflexivity. Qed.

Lemma normalize_one_tracked key v v' :
  normalize_one key v = Ok (Some v') -> key ∈ TRACKED_FIELDS.
Proof.
  unfold normalize_one. case_bool_decide as Hk; [intros _; exact Hk | discriminate].
Qed.

Lemma normalize_items_untracked items key :
  key ∉ TRACKED_FIELDS ->
  forall acc normalized,
    normalize_items items acc = Ok normalized -> acc !! key = None -> normalized !! key = None.
Proof.
  intros Hout. induction items as [|[k w] rest IH]; intros acc normalized Hrun Hacc.
  - injection Hrun as <-. exact Hacc.
  - cbn [normalize_items] in Hrun.
    destruct (normalize_one k w) as [[w'|]|e] eqn:Hone; [| |discriminate].
    + apply (IH _ _ Hrun). rewrite lookup_insert_ne; [exact Hacc|].
      intros ->. exact (Hout (normalize_one_tracked _ _ _ Hone)).
    + exact (IH _ _ Hrun Hacc).
Qed.

Lemma stamped_lastUpdate normalized now : is_Some (stamped normalized now !! "lastUpdate").
Proof.
  unfold stamped. case_bool_decide as H; [exact H|].
  rewrite lookup_insert_eq. eauto.
Qed.

Lemma stamped_untracked normalized now key :
  key ∉ TRACKED_FIELDS -> normalized !! key = None -> stamped normalized now !! key = None.
Proof.
  intros Hout Hnone. unfold stamped. case_bool_decide; [exact Hnone|].
  rewrite lookup_insert_ne; [exact Hnone|]. intros <-. apply Hout. decide_in.
Qed.

Section Kept.
Variable s0 : StateStore.
Variable key : string.
Hypothesis key_untracked : key ∉ TRACKED_FIELDS.

Abbreviation keeps_field m := (maintains (field_kept s0 key) m (fun _ => True)).

Lemma kept_insert s id state :
  state !! key = field_of (current s) id key ->
  field_kept s0 key s ->
  field_kept s0 key (set_current (<[id := state]> (current s)) s).
Proof.
  intros Hstate Hkept id'. rewrite <- (Hkept id'). unfold field_of. cbn [current set_current].
  destruct (decide (id = id')) as [->|Hne].
  - rewrite lookup_insert_eq. exact Hstate.
  - rewrite lookup_insert_ne by exact Hne. reflexivity.
Qed.

Lemma kept_ensure_layer layer_id : keeps_field (_ensure_layer layer_id).
Proof.
  intros s t Hk. split; [|intros; exact I].
  unfold _ensure_layer, bind, get, ret, modify, _default_layer_state, _iso_now. simpl.
  destruct (bool_decide (is_Some (current s !! layer_id))) eqn:Hc; simpl;
    destruct (bool_decide (is_Some (layer_tree s !! layer_id))); simpl;
    try exact Hk;
    apply bool_decide_eq_false in Hc; rewrite <- eq_None_not_Some in Hc;
    apply (kept_insert s); try exact Hk;
    (rewrite default_state_untracked by exact key_untracked;
     unfold field_of; rewrite Hc; reflexivity).
Qed.

Lemma kept_commit_history : keeps_field _commit_history.
Proof. apply maintains_modify. intros s Hs. exact Hs. Qed.

Lemma kept_current_at layer_id : keeps_field (current_at layer_id).
Proof.
  intros s t Hs. unfold current_at. rewrite bind_run. cbn [get res st clk].
  destruct (current s !! layer_id); (split; [exact Hs | intros; exact I]).
Qed.

Lemma kept_update_current layer_id delta :
  delta !! key = None -> keeps_field (update_current layer_id delta).
Proof.
  intros Hdelta s t Hk. split; [|intros; exact I].
  destruct (current s !! layer_id) as [state|] eqn:E.
  - rewrite (update_current_run _ _ _ _ _ E). cbn [st].
    apply kept_insert; [|exact Hk].
    rewrite lookup_union_r by exact Hdelta. unfold field_of. rewrite E. reflexivity.
  - unfold update_current. rewrite (bind_raise _ _ _ _ _ _ _ (current_at_missing _ _ _ E)).
    exact Hk.
Qed.

Lemma kept_store_field child_id k v :
  k ∈ TRACKED_FIELDS -> keeps_field (store_field child_id k v).
Proof.
  intros Hin s t Hk. split; [|intros; exact I].
  destruct (current s !! child_id) as [state|] eqn:E.
  - rewrite (store_field_run _ _ _ _ _ _ E). cbn [st].
    apply kept_insert; [|exact Hk].
    rewrite lookup_insert_ne by (intros ->; contradiction).
    unfold field_of. rewrite E. reflexivity.
  - unfold store_field. rewrite (bind_raise _ _ _ _ _ _ _ (current_at_missing _ _ _ E)).
    exact Hk.
Qed.

Lemma kept_normalize_props items :
  maintains (field_kept s0 key) (_normalize_props items)
            (fun applied => applied !! key = None /\ is_Some (applied !! "lastUpdate")).
Proof.
  intros s t Hs. rewrite normalize_props_run.
  destruct (normalize_items items ∅) as [normalized|e] eqn:Hrun; simpl.
  - split; [exact Hs|]. intros a [= <-]. split; [|apply stamped_lastUpdate].
    apply stamped_untracked; [exact key_untracked|].
    apply (normalize_items_untracked _ _ key_untracked _ _ Hrun), lookup_empty.
  - split; [exact Hs | intros a [=]].
Qed.

Lemma kept_apply_direct layer_id items :
  maintains (field_kept s0 key) (_apply_direct layer_id items)
            (fun applied => applied !! key = None /\ is_Some (applied !! "lastUpdate")).
Proof.
  unfold _apply_direct.
  eapply maintains_bind; [apply kept_ensure_layer|]. intros _ _.
  eapply maintains_bind; [apply kept_normalize_props|]. intros normalized Hn.
  eapply maintains_bind; [apply kept_update_current, Hn|]. intros _ _.
  apply maintains_ret. exact Hn.
Qed.

Lemma kept_add_field child_id deltas k :
  k ∈ TRACKED_FIELDS -> keeps_field (add_field child_id deltas k).
Proof.
  intros Hin. unfold add_field.
  eapply maintains_bind; [apply kept_current_at|]. intros state _.
  eapply maintains_bind; [apply maintains_lift_true|]. intros f _.
  apply kept_store_field, Hin.
Qed.

Lemma kept_propagate_child recurse deltas scale_ratio opacity_ratio child_id :
  (forall id before after, keeps_field (recurse id before after)) ->
  keeps_field (propagate_child recurse deltas scale_ratio opacity_ratio child_id).
Proof.
  intros Hrec. unfold propagate_child.
  eapply maintains_bind; [apply kept_ensure_layer|]. intros _ _.
  eapply maintains_bind; [apply kept_current_at|]. intros child_before _.
  eapply maintains_bind.
  { apply maintains_for_each. intros k Hk. apply kept_add_field.
    apply list_elem_of_In in Hk. simpl in Hk.
    destruct Hk as [<-|[<-|[<-|[<-|[]]]]]; decide_in. }
  intros _ _.
  eapply maintains_bind; [apply kept_current_at|]. intros state _.
  eapply maintains_bind; [apply maintains_lift_true|]. intros sc _.
  eapply maintains_bind; [apply kept_store_field; decide_in|]. intros _ _.
  eapply maintains_bind; [apply kept_current_at|]. intros state' _.
  eapply maintains_bind; [apply maintains_lift_true|]. intros op _.
  eapply maintains_bind; [apply kept_store_field; decide_in|]. intros _ _.
  eapply maintains_bind; [apply maintains_iso_now|]. intros now _.
  eapply maintains_bind; [apply kept_store_field; decide_in|]. intros _ _.
  eapply maintains_bind; [apply kept_current_at|]. intros child_after _.
  apply Hrec.
Qed.

Lemma kept_get_layer_tree layer_id : keeps_field (get_layer_tree layer_id).
Proof. intros s t Hs. split; [exact Hs | intros; exact I]. Qed.

Lemma kept_propagate_group_delta fuel :
  forall layer_id old_parent new_parent,
    keeps_field (_propagate_group_delta fuel layer_id old_parent new_parent).
Proof.
  induction fuel as [|fuel IH]; intros layer_id old_parent new_parent; simpl.
  - apply maintains_raise.
  - eapply maintains_bind; [apply kept_get_layer_tree|].
    intros kids _. destruct (bool_decide _); [apply maintains_ret_true|].
    do 6 (eapply maintains_bind; [apply maintains_lift_true | intros ? _]).
    apply maintains_for_each. intros child _. apply kept_propagate_child. exact IH.
Qed.

Lemma kept_set layer_id items propagate :
  maintains (field_kept s0 key) (set layer_id items propagate)
            (fun applied => applied !! key = None /\ is_Some (applied !! "lastUpdate")).
Proof.
  unfold set.
  eapply maintains_bind; [apply kept_ensure_layer|]. intros _ _.
  eapply maintains_bind; [apply kept_commit_history|]. intros _ _.
  eapply maintains_bind; [apply kept_current_at|]. intros old_parent _.
  eapply maintains_bind; [apply kept_apply_direct|]. intros applied Happlied.
  eapply maintains_bind; [|intros _ _; apply maintains_ret; exact Happlied].
  unfold propagate_from.
  eapply maintains_bind; [apply kept_get_layer_tree|]. intros kids _.
  destruct (_ && _); [|apply maintains_ret_true].
  eapply maintains_bind; [apply kept_current_at|]. intros new_parent _.
  apply kept_propagate_group_delta.
Qed.

End Kept.

(** X5: [set] drops what the store does not track.  For a key outside
    [TRACKED_FIELDS], no call to [set] adds, changes or removes that key in
    the state of any layer, the named one, the ones it propagates to and the
    ones it creates included; the dict the call returns does not carry the
    key, and always carries [lastUpdate]. *)
Theorem set_ignores_untracked (layer_id : string) (items : list (string * value))
    (propagate : bool) (s : StateStore) (t : nat) (key : string) :
  key ∉ TRACKED_FIELDS ->
  let r := set layer_id items propagate s t in
  (forall id, field_of (current (st r)) id key = field_of (current s) id key)
  /\ (forall applied, res r = Ok applied ->
        applied !! key = None /\ is_Some (applied !! "lastUpdate")).
Proof.
  intros Hout. cbv zeta.
  apply (kept_set s key Hout layer_id items propagate s t).
  intros id. reflexivity.
Qed.

End UntrackedFields.
(** ** The store of a compiled layer map *)

Section FromLayerMapFacts.
Context {rt : PyRuntime}.

Lemma from_layers_cons {St} layer rest store (s : St) t :
  from_layers (layer :: rest) store s t
  = from_layers rest
      (mkStore (<[lid layer := children layer]> (layer_tree store))
               (<[lid layer := default_state (defaultOrigin layer) (iso_of t)]> (current store))
               [] [])
      s (S t).
Proof. reflexivity. Qed.

Lemma from_layers_total {St} layers :
  forall store (s : St) t,
    exists built, from_layers layers store s t = mkRun (Ok built) s (t + length layers).
Proof.
  induction layers as [|layer rest IH]; intros store s t.
  - exists store. simpl. rewrite Nat.add_0_r. reflexivity.
  - rewrite from_layers_cons. cbn [length]. rewrite Nat.add_succ_r. apply (IH _ s (S t)).
Qed.

Lemma from_layers_snoc {St} layers row :
  forall store (s : St) t built,
    from_layers layers store s t = mkRun (Ok built) s (t + length layers) ->
    from_layers (layers ++ [row]) store s t
    = mkRun (Ok (mkStore (<[lid row := children row]> (layer_tree built))
                         (<[lid row := default_state (defaultOrigin row)
                                         (iso_of (t + length layers))]> (current built))
                         [] []))
            s (S (t + length layers)).
Proof.
  induction layers as [|layer rest IH]; intros store s t built Hrun.
  - simpl in Hrun. injection Hrun as <-. cbn [app length]. rewrite Nat.add_0_r. reflexivity.
  - cbn [app]. rewrite from_layers_cons. rewrite from_layers_cons in Hrun.
    cbn [length] in *. rewrite Nat.add_succ_r in *.
    apply (IH _ s (S t) built Hrun).
Qed.

(** X6: the store [from_layer_map_full] builds.  The call returns a store
    with empty undo and redo stacks whose state map and layer tree have
    exactly the layer ids of the map as keys; where several rows carry one
    id the last one counts: a row no later row shares its id with gives the
    layer its children and a default state with the row's default origin,
    stamped when the row was read.  An empty map gives an empty store. *)
Theorem from_layer_map_full_store {St} (doc : LayerMapDocument LayerRow) (s : St) (t : nat) :
  exists store,
    from_layer_map_full doc s t = mkRun (Ok store) s (t + length (layers doc))
    /\ history store = [] /\ future store = []
    /\ (forall id, is_Some (current store !! id) <-> id ∈ map lid (layers doc))
    /\ (forall id, is_Some (layer_tree store !! id) <-> id ∈ map lid (layers doc))
    /\ (forall i row,
          layers doc !! i = Some row ->
          (forall j later, i < j -> layers doc !! j = Some later -> lid later <> lid row) ->
          layer_tree store !! lid row = Some (children row)
          /\ current store !! lid row
             = Some (default_state (defaultOrigin row) (iso_of (t + i)))).
Proof.
  unfold from_layer_map_full. generalize (layers doc) as rows. clear doc.
  induction rows as [|row rows IH] using rev_ind.
  - exists (mkStore ∅ ∅ [] []). simpl. rewrite Nat.add_0_r.
    split; [reflexivity|]. split; [reflexivity|]. split; [reflexivity|].
    split; [|split].
    + intros id. rewrite lookup_empty. split; [intros [? [=]] | intros H; inversion H].
    + intros id. rewrite lookup_empty. split; [intros [? [=]] | intros H; inversion H].
    + intros i row H. rewrite lookup_nil in H. discriminate.
  - destruct IH as (built & Hrun & _ & _ & Hcur & Htree & Hrows).
    eexists. rewrite (from_layers_snoc _ _ _ _ _ _ Hrun).
    replace (t + length (rows ++ [row])) with (S (t + length rows))
      by (rewrite length_app; simpl; lia).
    split; [reflexivity|]. cbn [history future current layer_tree].
    split; [reflexivity|]. split; [reflexivity|].
    assert (Hmem : forall id, id ∈ map lid (rows ++ [row]) <-> id = lid row \/ id ∈ map lid rows).
    { intros id. rewrite map_app, elem_of_app. cbn [map].
      rewrite list_elem_of_singleton. tauto. }
    split; [|split].
    + intros id. rewrite Hmem, <- Hcur. destruct (decide (lid row = id)) as [<-|Hne].
      * rewrite lookup_insert_eq. split; [left; reflexivity | eauto].
      * rewrite lookup_insert_ne by exact Hne. split; [right; assumption|].
        intros [->|H]; [contradiction | exact H].
    + intros id. rewrite Hmem, <- Htree. destruct (decide (lid row = id)) as [<-|Hne].
      * rewrite lookup_insert_eq. split; [left; reflexivity | eauto].
      * rewrite lookup_insert_ne by exact Hne. split; [right; assumption|].
        intros [->|H]; [contradiction | exact H].
    + intros i r Hi Hlast.
      destruct (decide (i < length rows)) as [Hlt|Hge].
      * rewrite lookup_app_l in Hi by exact Hlt.
        assert (Hne : lid row <> lid r).
        { apply (Hlast (length rows)); [exact Hlt|].
          rewrite lookup_app_r by lia. rewrite Nat.sub_diag. reflexivity. }
        rewrite !lookup_insert_ne by exact Hne.
        apply Hrows; [exact Hi|]. intros j later Hj Hlater.
        apply (Hlast j later Hj). rewrite lookup_app_l; [exact Hlater|].
        apply lookup_lt_Some in Hlater. exact Hlater.
      * rewrite lookup_app_r in Hi by lia.
        destruct (i - length rows) as [|k] eqn:Hk; [|discriminate].
        injection Hi as <-. assert (i = length rows) as -> by lia.
        rewrite !lookup_insert_eq. split; reflexivity.
Qed.

End FromLayerMapFacts.
(** ** Floats: a number is not different from itself *)

Lemma SFsub_diag prec emax (x : spec_float) :
  SFsub prec emax x x = S754_nan \/ SFsub prec emax x x = S754_zero false.
Proof.
  destruct x as [s|s| |s m e]; simpl.
  - right. destruct s; reflexivity.
  - left. destruct s; reflexivity.
  - left. reflexivity.
  - right. rewrite Z.sub_diag. reflexivity.
Qed.

Lemma float_sub_diag_small (x tolerance : float) :
  PrimFloat.leb 0 tolerance = true ->
  PrimFloat.ltb tolerance (abs (x - x)) = false.
Proof.
  rewrite FloatAxioms.leb_spec, FloatAxioms.ltb_spec, FloatAxioms.abs_spec, FloatAxioms.sub_spec.
  unfold SF64sub. intros Htol.
  destruct (SFsub_diag FloatOps.prec FloatOps.emax (Prim2SF x)) as [-> | ->]; simpl.
  - unfold SFltb. destruct (Prim2SF tolerance); reflexivity.
  - change (Prim2SF 0) with (S754_zero false) in Htol.
    unfold SFleb, SFltb in *. destruct (Prim2SF tolerance) as [s|s| |s m e]; simpl in *;
      try reflexivity; try discriminate; destruct s; try reflexivity; discriminate.
Qed.
(** ** Reconciliation: who is written to *)

Section ReconcileMore.
Context {rt : PyRuntime}.

Lemma values_different_refl v tolerance :
  PrimFloat.leb 0 tolerance = true ->
  (as_number v = None -> py_eqb v v = true) ->
  _values_different v v tolerance = false.
Proof.
  intros Htol Hself. unfold _values_different.
  destruct (as_number v) as [x|] eqn:E.
  - apply float_sub_diag_small, Htol.
  - rewrite (Hself eq_refl). reflexivity.
Qed.

(** The field loop, one step at a time. *)
Lemma diff_layer_fold store_state dom_state prefer tolerance (Inv : FieldDiff -> Prop) :
  Inv (mkFieldDiff false [] ∅) ->
  (forall acc field,
      field ∈ RECONCILE_FIELDS -> Inv acc ->
      Inv (reconcile_field (authority_of store_state prefer) store_state dom_state
             tolerance acc field)) ->
  Inv (diff_layer store_state dom_state prefer tolerance).
Proof.
  intros H0 Hstep. unfold diff_layer.
  assert (Hgen : forall fields acc,
             (forall field, field ∈ fields -> field ∈ RECONCILE_FIELDS) -> Inv acc ->
             Inv (foldl (reconcile_field (authority_of store_state prefer) store_state
                           dom_state tolerance) acc fields)).
  { induction fields as [|field rest IH]; intros acc Hsub Hacc; simpl; [exact Hacc|].
    apply IH; [intros f Hf; apply Hsub; right; exact Hf|].
    apply Hstep; [apply Hsub; left | exact Hacc]. }
  apply Hgen; [intros field Hf; exact Hf | exact H0].
Qed.

Lemma authority_of_store store_state : authority_of store_state "store" = "store".
Proof. unfold authority_of. destruct (bool_decide _); reflexivity. Qed.

(** With the store as the authority nothing is collected for the store, and
    the patch for the outside carries values of the store state. *)
Lemma diff_layer_store_authority store_state dom_state prefer tolerance :
  authority_of store_state prefer = "store" ->
  let d := diff_layer store_state dom_state prefer tolerance in
  update_for_store d = []
  /\ (forall field v, update_for_dom d !! field = Some v ->
        field ∈ RECONCILE_FIELDS /\ store_state !! field = Some v).
Proof.
  intros Hauth. cbv zeta.
  apply (diff_layer_fold store_state dom_state prefer tolerance
           (fun d => update_for_store d = []
                     /\ forall field v, update_for_dom d !! field = Some v ->
                          field ∈ RECONCILE_FIELDS /\ store_state !! field = Some v)).
  - split; [reflexivity|]. intros field v H. simpl in H. rewrite lookup_empty in H. discriminate.
  - intros acc field Hfield [Hstore Hdom]. rewrite Hauth. unfold reconcile_field.
    destruct (_ && _); [split; assumption|].
    rewrite (bool_decide_false ("store" = "dom")) by discriminate. cbn [andb].
    rewrite (bool_decide_true ("store" = "store")) by reflexivity. cbn [andb].
    case_bool_decide as Hnone; [split; assumption|].
    destruct (negb _); [split; assumption|].
    cbn [update_for_store update_for_dom]. split; [exact Hstore|].
    intros k v. destruct (decide (field = k)) as [<-|Hne].
    + rewrite lookup_insert_eq. intros [= <-]. split; [exact Hfield|].
      destruct (store_state !! field); [reflexivity | contradiction].
    + rewrite lookup_insert_ne by exact Hne. apply Hdom.
Qed.

(** A state map compared with itself needs no change. *)
Lemma diff_layer_same state prefer tolerance :
  PrimFloat.leb 0 tolerance = true ->
  (forall field v, state !! field = Some v -> as_number v = None -> py_eqb v v = true) ->
  diff_layer state state prefer tolerance = mkFieldDiff false [] ∅.
Proof.
  intros Htol Hself.
  apply (diff_layer_fold state state prefer tolerance
           (fun d => d = mkFieldDiff false [] ∅)); [reflexivity|].
  intros acc field _ ->. unfold reconcile_field.
  destruct (_ && _); [reflexivity|]. destruct (_ && _); [reflexivity|].
  destruct (_ && _); [reflexivity|].
  rewrite values_different_refl; [reflexivity | exact Htol|].
  destruct (state !! field) as [v|] eqn:E; [apply (Hself field v E) | reflexivity].
Qed.








End ReconcileMore.

Section ReconcileTheorems.
Context {rt : PyRuntime}.

Lemma store_rules_authority dom_layers prefer s id dom_state store_state :
  store_rules dom_layers prefer s ->
  (id, dom_state) ∈ dom_layers -> current s !! id = Some store_state ->
  authority_of store_state prefer = "store".
Proof.
  intros Hrules Hin Hcur. unfold authority_of.
  destruct (Hrules id dom_state store_state Hin Hcur) as [-> | ->]; [reflexivity|].
  destruct (bool_decide _); reflexivity.
Qed.

Lemma store_rules_loop dom_layers prefer dry_run tolerance s :
  (forall id dom_state store_state,
      (id, dom_state) ∈ dom_layers -> current s !! id = Some store_state ->
      authority_of store_state prefer = "store") ->
  forall changed patch t,
    patch_from_store patch s ->
    exists out,
      reconcile_loop dom_layers prefer dry_run tolerance changed patch s t
      = mkRun (Ok out) s t
      /\ patch_from_store out.2 s.
Proof.
  induction dom_layers as [|[layer_id dom_state] rest IH]; intros Hauth changed patch t Hpatch.
  - exists (changed, patch). split; [reflexivity | exact Hpatch].
  - assert (Hrest : forall id dom_state store_state,
               (id, dom_state) ∈ rest -> current s !! id = Some store_state ->
               authority_of store_state prefer = "store").
    { intros id ds ss Hin. apply (Hauth id ds). right. exact Hin. }
    cbn [reconcile_loop]. rewrite bind_run. cbn [get res st clk].
    destruct (current s !! layer_id) as [store_state|] eqn:Hcur; [|apply IH; assumption].
    destruct (diff_layer_store_authority store_state dom_state prefer tolerance
                (Hauth layer_id dom_state store_state ltac:(left) Hcur)) as [Hnone Hdom].
    destruct (negb _); [apply IH; assumption|].
    destruct dry_run; [apply IH; assumption|].
    rewrite Hnone, bind_run. cbn [ret res st clk].
    apply IH; [exact Hrest|].
    case_bool_decide; [exact Hpatch|].
    intros id fields. destruct (decide (layer_id = id)) as [<-|Hne].
    + rewrite lookup_insert_eq. intros [= <-]. exists store_state. split; [exact Hcur | exact Hdom].
    + rewrite lookup_insert_ne by exact Hne. apply Hpatch.
Qed.

(** X7: where the store is the authority, reconciliation only reads it.  If
    the preference is "store", or every layer of the snapshot that the store
    knows is locked, then [reconcile_with_dom], dry or live, completes,
    leaves the store and the clock as they were, and every entry of the
    external patch it returns carries reconciled fields only, each with the
    value the store holds. *)
Theorem store_authority_reads_only (dom_layers : list (string * gmap string value))
    (prefer : string) (dry_run : bool) (tolerance : float) (s : StateStore) (t : nat) :
  prefer ∈ ["dom"; "store"] ->
  store_rules dom_layers prefer s ->
  exists result,
    reconcile_with_dom dom_layers prefer dry_run tolerance s t = mkRun (Ok result) s t
    /\ patch_from_store (dom_patch result) s.
Proof.
  intros Hprefer Hrules. unfold reconcile_with_dom.
  rewrite (bool_decide_true _ Hprefer). cbn [negb].
  destruct (store_rules_loop dom_layers prefer dry_run tolerance s) with
    (changed := @nil string) (patch := (∅ : gmap string (gmap string value))) (t := t)
    as (out & Hrun & Hpatch).
  - intros id ds ss. apply store_rules_authority, Hrules.
  - intros id fields H. rewrite lookup_empty in H. discriminate.
  - eexists. rewrite (bind_step _ _ _ _ _ _ _ Hrun). split; [reflexivity | exact Hpatch].
Qed.

Lemma own_state_loop dom_layers prefer dry_run tolerance s :
  PrimFloat.leb 0 tolerance = true ->
  Forall (fun item => current s !! item.1 = Some item.2 /\ self_equal item.2) dom_layers ->
  forall changed patch t,
    reconcile_loop dom_layers prefer dry_run tolerance changed patch s t
    = mkRun (Ok (changed, patch)) s t.
Proof.
  intros Htol. induction 1 as [|[layer_id dom_state] rest [Hcur Hself] _ IH];
    intros changed patch t; [reflexivity|].
  cbn [reconcile_loop]. rewrite bind_run. cbn [get res st clk]. cbn [fst snd] in *.
  rewrite Hcur, (diff_layer_same _ _ _ Htol Hself). cbn [needs_change negb]. apply IH.
Qed.

(** X8: a snapshot taken from the store reconciles to nothing.  When every
    layer of the snapshot holds exactly the state the store holds for it,
    every value of these states that is not a number is equal to itself
    under [==] ([self_equal]: no NaN inside an origin dict), and the
    tolerance is not negative, [reconcile_with_dom], with either preference,
    dry or live, locked layers or not, reports no changed layer, returns an
    empty patch and leaves the store and the clock as they were. *)
Theorem reconcile_own_state_is_noop (dom_layers : list (string * gmap string value))
    (prefer : string) (dry_run : bool) (tolerance : float) (s : StateStore) (t : nat) :
  prefer ∈ ["dom"; "store"] ->
  PrimFloat.leb 0 tolerance = true ->
  Forall (fun item => current s !! item.1 = Some item.2 /\ self_equal item.2) dom_layers ->
  reconcile_with_dom dom_layers prefer dry_run tolerance s t
  = mkRun (Ok (mkReconcileResult [] ∅)) s t.
Proof.
  intros Hprefer Htol Hown. unfold reconcile_with_dom.
  rewrite (bool_decide_true _ Hprefer). cbn [negb].
  rewrite (bind_step _ _ _ _ _ _ _ (own_state_loop _ _ _ _ _ Htol Hown [] ∅ t)).
  reflexivity.
Qed.

End ReconcileTheorems.
(** ** Reconciliation creates no layer *)

Section ReconcileLayers.
Context {rt : PyRuntime}.

Lemma elem_of_insert_uniq x y l : y ∈ insert_uniq x l <-> y = x \/ y ∈ l.
Proof.
  induction l as [|z l IH]; simpl.
  - rewrite list_elem_of_singleton. split; [left; assumption | intros [H|H]; [exact H | inversion H]].
  - case_bool_decide as Hxz.
    + subst z. split; [right; assumption|]. intros [->|H]; [left | exact H].
    + destruct (String.ltb x z).
      * rewrite elem_of_cons. tauto.
      * rewrite !elem_of_cons, IH. tauto.
Qed.

Lemma elem_of_sorted_set y l : y ∈ sorted_set l <-> y ∈ l.
Proof.
  unfold sorted_set. induction l as [|x l IH]; simpl; [reflexivity|].
  rewrite elem_of_insert_uniq, IH, elem_of_cons. tauto.
Qed.

Section Known.
Variable s0 : StateStore.

Abbreviation keeps_layers m := (maintains (same_layers s0) m (fun _ => True)).

Lemma layers_insert s id state :
  is_Some (current s !! id) -> same_layers s0 s ->
  same_layers s0 (set_current (<[id := state]> (current s)) s).
Proof.
  intros Hid Hs id'. rewrite <- (Hs id'). cbn [current set_current].
  destruct (decide (id = id')) as [->|Hne].
  - rewrite lookup_insert_eq. split; [intros _; exact Hid | eauto].
  - rewrite lookup_insert_ne by exact Hne. reflexivity.
Qed.

Lemma layers_ensure_layer layer_id :
  is_Some (current s0 !! layer_id) -> keeps_layers (_ensure_layer layer_id).
Proof.
  intros Hid s t Hs. split; [|intros; exact I].
  apply Hs in Hid.
  unfold _ensure_layer, bind, get, ret, modify. simpl.
  rewrite (bool_decide_true _ Hid). simpl.
  destruct (bool_decide _); simpl; exact Hs.
Qed.

Lemma layers_current_at layer_id : keeps_layers (current_at layer_id).
Proof.
  intros s t Hs. unfold current_at. rewrite bind_run. cbn [get res st clk].
  destruct (current s !! layer_id); (split; [exact Hs | intros; exact I]).
Qed.

Lemma layers_update_current layer_id delta : keeps_layers (update_current layer_id delta).
Proof.
  intros s t Hs. split; [|intros; exact I].
  destruct (current s !! layer_id) as [state|] eqn:E.
  - rewrite (update_current_run _ _ _ _ _ E). cbn [st].
    apply layers_insert; [rewrite E; eauto | exact Hs].
  - unfold update_current. rewrite (bind_raise _ _ _ _ _ _ _ (current_at_missing _ _ _ E)).
    exact Hs.
Qed.

Lemma layers_set_alone layer_id items :
  is_Some (current s0 !! layer_id) -> keeps_layers (set layer_id items false).
Proof.
  intros Hid. unfold set.
  eapply maintains_bind; [apply layers_ensure_layer, Hid|]. intros _ _.
  eapply maintains_bind; [apply maintains_modify; intros s Hs; exact Hs|]. intros _ _.
  eapply maintains_bind; [apply layers_current_at|]. intros old_parent _.
  eapply maintains_bind.
  { unfold _apply_direct.
    eapply maintains_bind; [apply layers_ensure_layer, Hid|]. intros _ _.
    eapply maintains_bind.
    { intros s t Hs. rewrite normalize_props_run.
      destruct (normalize_items items ∅); (split; [exact Hs | intros; exact I]). }
    intros normalized _.
    eapply maintains_bind; [apply layers_update_current|]. intros _ _.
    apply maintains_ret_true. }
  intros applied _.
  eapply maintains_bind; [|intros _ _; apply maintains_ret_true].
  unfold propagate_from.
  eapply maintains_bind.
  { intros s t Hs. split; [exact Hs | intros; exact I]. }
  intros kids _. cbn [andb]. apply maintains_ret_true.
Qed.

Lemma layers_reconcile_loop all_layers dom_layers prefer dry_run tolerance :
  (forall item, item ∈ dom_layers -> item ∈ all_layers) ->
  forall changed patch,
    (forall id, id ∈ changed -> id ∈ map fst all_layers /\ is_Some (current s0 !! id)) ->
    (forall id, is_Some (patch !! id) -> id ∈ changed) ->
    maintains (same_layers s0)
      (reconcile_loop dom_layers prefer dry_run tolerance changed patch)
      (fun out =>
         (forall id, id ∈ out.1 -> id ∈ map fst all_layers /\ is_Some (current s0 !! id))
         /\ (forall id, is_Some (out.2 !! id) -> id ∈ out.1)).
Proof.
  induction dom_layers as [|[layer_id dom_state] rest IH];
    intros Hsub changed patch Hchanged Hpatch; cbn [reconcile_loop].
  - apply maintains_ret. split; assumption.
  - assert (Hrest : forall item, item ∈ rest -> item ∈ all_layers).
    { intros item Hin. apply Hsub. right. exact Hin. }
    eapply maintains_bind; [apply maintains_get|]. intros s Hs.
    destruct (current s !! layer_id) as [store_state|] eqn:Hcur;
      [|apply IH; assumption].
    assert (Hknown : is_Some (current s0 !! layer_id)) by (apply Hs; rewrite Hcur; eauto).
    assert (Hchanged' : forall id, id ∈ changed ++ [layer_id] ->
                                   id ∈ map fst all_layers /\ is_Some (current s0 !! id)).
    { intros id Hin. apply elem_of_app in Hin as [Hin|Hin]; [apply Hchanged, Hin|].
      apply list_elem_of_singleton in Hin as ->. split; [|exact Hknown].
      apply list_elem_of_fmap. exists (layer_id, dom_state).
      split; [reflexivity | apply Hsub; left]. }
    assert (Hpatch' : forall id, is_Some (patch !! id) -> id ∈ changed ++ [layer_id]).
    { intros id Hid. apply elem_of_app. left. apply Hpatch, Hid. }
    destruct (negb _); [apply IH; assumption|].
    destruct dry_run; [apply IH; assumption|].
    eapply maintains_bind.
    { destruct (update_for_store _); [apply maintains_ret_true|].
      eapply maintains_bind; [apply layers_set_alone, Hknown|].
      intros _ _. apply maintains_ret_true. }
    intros _ _. apply IH; [exact Hrest | exact Hchanged'|].
    case_bool_decide; [exact Hpatch'|].
    intros id. destruct (decide (layer_id = id)) as [<-|Hne].
    + intros _. apply elem_of_app. right. left.
    + rewrite lookup_insert_ne by exact Hne. apply Hpatch'.
Qed.

End Known.

(** X9: reconciliation creates no layer and reports known layers only.
    After [reconcile_with_dom], whatever it was given and whether it returns
    or raises, the store holds a state for exactly the layers it held one
    for; every id in the changed list it returns is a layer of the snapshot
    that the store knows, and every layer the external patch has an entry
    for is in the changed list. *)
Theorem reconcile_skips_unknown_layers (dom_layers : list (string * gmap string value))
    (prefer : string) (dry_run : bool) (tolerance : float) (s : StateStore) (t : nat) :
  let r := reconcile_with_dom dom_layers prefer dry_run tolerance s t in
  same_layers s (st r)
  /\ forall result, res r = Ok result ->
       (forall id, id ∈ changed_layer_ids result ->
                   id ∈ map fst dom_layers /\ is_Some (current s !! id))
       /\ (forall id, is_Some (dom_patch result !! id) -> id ∈ changed_layer_ids result).
Proof.
  cbv zeta.
  assert (H : maintains (same_layers s)
                (reconcile_with_dom dom_layers prefer dry_run tolerance)
                (fun result =>
                   (forall id, id ∈ changed_layer_ids result ->
                               id ∈ map fst dom_layers /\ is_Some (current s !! id))
                   /\ (forall id, is_Some (dom_patch result !! id) ->
                                  id ∈ changed_layer_ids result))).
  { unfold reconcile_with_dom. destruct (negb _); [apply maintains_raise|].
    eapply maintains_bind.
    - apply (layers_reconcile_loop s dom_layers dom_layers prefer dry_run tolerance
               ltac:(auto) [] ∅).
      + intros id Hin. inversion Hin.
      + intros id [? Hin]. rewrite lookup_empty in Hin. discriminate.
    - intros out [Hchanged Hpatch]. apply maintains_ret. cbn [changed_layer_ids dom_patch].
      split.
      + intros id Hin. apply Hchanged, elem_of_sorted_set, Hin.
      + intros id Hin. apply elem_of_sorted_set, Hpatch, Hin. }
  apply (H s t). intros id. reflexivity.
Qed.

End ReconcileLayers.

Lemma self_equal_default {rt : PyRuntime} now : self_equal (default_state VNone now).
Proof.
  intros field v Hlook _. unfold default_state in Hlook.
  apply elem_of_list_to_map_2 in Hlook.
  repeat (apply elem_of_cons in Hlook as [[= -> ->]|Hlook];
          [first [reflexivity | cbn [py_eqb]; apply bool_decide_eq_true; reflexivity]|]).
  inversion Hlook.
Qed.
(** ** The rows of a compiled document *)

Section CompiledRows.
Context {rt : PyRuntime} {libs : CompilerLibs}.

Lemma visit_kind fuel node parent_id acc child_bbox acc' :
  visit fuel node parent_id acc = Ok (child_bbox, acc') ->
  match child_bbox with
  | Some _ => structural node = false
  | None => structural node = true
  end.
Proof.
  destruct fuel as [|fuel]; [discriminate|]. cbn [visit].
  destruct (structural node); [intros [= <- _]; reflexivity|].
  destruct (visit_children (visit fuel) _ (el_children node) acc [] [])
    as [[[acc1 child_boxes] child_ids]|]; [|discriminate].
  intros [= <- _]. reflexivity.
Qed.

Lemma visit_children_rows fuel layer_id cs :
  visit_rows fuel ->
  forall acc child_boxes child_ids out,
    visit_children (visit fuel) layer_id cs acc child_boxes child_ids = Ok out ->
    exists new,
      out.1.1 = (acc.1 ++ new, acc.2 + length new)
      /\ out.2
         = child_ids ++ map layer_id_of (filter (fun child => structural child = false) cs)
      /\ Forall2 compiled_from (flat_map emitted cs) new.
Proof.
  intros Hspec. induction cs as [|child rest IH]; intros acc child_boxes child_ids out Hout.
  - exists []. cbn [visit_children] in Hout. injection Hout as <-.
    cbn [flat_map length fst snd filter map]. rewrite !app_nil_r, Nat.add_0_r.
    destruct acc. repeat split. constructor.
  - cbn [visit_children flat_map] in *.
    destruct (visit fuel child (Some layer_id) acc) as [[child_bbox acc']|] eqn:Hvisit;
      [|discriminate].
    destruct (Hspec _ _ _ _ Hvisit) as (new1 & Hv & Hrows1).
    cbn [snd] in Hv. subst acc'.
    pose proof (visit_kind _ _ _ _ _ _ Hvisit) as Hkind.
    destruct child_bbox as [b|].
    + destruct (IH _ _ _ _ Hout) as (new2 & Hacc & Hids & Hrows2).
      exists (new1 ++ new2). rewrite Hacc, Hids. cbn [fst snd].
      rewrite filter_cons_True by exact Hkind. cbn [map].
      rewrite length_app, <- !app_assoc, Nat.add_assoc.
      split; [reflexivity|]. split; [reflexivity|].
      apply Forall2_app; assumption.
    + destruct (IH _ _ _ _ Hout) as (new2 & Hacc & Hids & Hrows2).
      exists (new1 ++ new2). rewrite Hacc, Hids. cbn [fst snd].
      rewrite filter_cons_False by (rewrite Hkind; discriminate).
      rewrite length_app, <- !app_assoc, Nat.add_assoc.
      split; [reflexivity|]. split; [reflexivity|].
      apply Forall2_app; assumption.
Qed.

Lemma constraints_of_type layer_type :
  (list_to_map
     [("maxRotation", VNum (or_default (cap_maxRotation (_infer_capabilities layer_type)) 45));
      ("minDepth", VNum (or_default (cap_minDepth (_infer_capabilities layer_type)) (-200)));
      ("maxDepth", VNum (or_default (cap_maxDepth (_infer_capabilities layer_type)) 200))]
   : gmap string value)
  = compiled_constraints.
Proof. destruct layer_type; reflexivity. Qed.

Lemma visit_rows_all fuel : visit_rows fuel.
Proof.
  induction fuel as [|fuel IH]; intros node parent_id acc r Hr; [discriminate|].
  cbn [visit] in Hr. destruct (structural node) eqn:Hs.
  - injection Hr as <-. exists []. cbn [snd length].
    rewrite app_nil_r, Nat.add_0_r, (emitted_structural _ Hs). destruct acc.
    split; [reflexivity | constructor].
  - destruct (visit_children (visit fuel) _ (el_children node) acc [] [])
      as [[[acc1 child_boxes] child_ids]|] eqn:Hloop; [|discriminate].
    destruct (visit_children_rows fuel _ _ IH _ _ _ _ Hloop) as (new & Hacc & Hids & Hrows).
    cbn [fst snd] in Hacc, Hids. subst acc1 child_ids. injection Hr as <-.
    eexists (new ++ [_]). cbn [fst snd].
    split.
    + rewrite length_app, <- app_assoc. cbn [length]. f_equal. lia.
    + destruct node as [tag attrib text kids]. cbn [emitted]. rewrite Hs.
      apply Forall2_app; [exact Hrows|]. constructor; [|constructor].
      unfold compiled_from.
      cbn [lid fingerprint label aliases tags ltype capabilities constraints defaultOrigin
           children metadata md_tag md_attributeCount bbox el_tag el_children el_attrib].
      repeat match goal with |- _ /\ _ => split end; try reflexivity.
      destruct (_infer_type (_strip_ns tag)); reflexivity.
Qed.

Lemma collect_layers_compiled root rows :
  _collect_layers root = Ok rows -> Forall2 compiled_from (emitted root) rows.
Proof.
  intros Hcollect. destruct (collect_layers_visit _ _ Hcollect) as (b & z & Hvisit).
  destruct (visit_rows_all _ _ _ _ _ Hvisit) as (new & Hv & Hrows).
  cbn [fst snd app] in Hv. injection Hv as -> _. exact Hrows.
Qed.

(** X10: what a compilation returns.  When the source parses into a
    document the frame budget suffices for, [compile] returns (and reads the
    clock once); the rows of the full layer map are the rows of the nodes
    that become layers, one per node and in the order they are collected
    (every layer after the layers below it, siblings in document order),
    each carrying the id, fingerprint, label, aliases, tags, type and
    capabilities computed from its node, the constraints max-rotation 45,
    min-depth -200 and max-depth 200, the centre of its bounding box as
    default origin, the ids of its non-structural children and its tag and
    attribute count; the minimal map lists the same rows without children,
    constraints and metadata, and both layer counts are the number of rows.
    When the document takes more frames than the budget, [compile] raises
    [RecursionError], the clock read once; when the source does not parse,
    it raises and reads no clock. *)
Theorem compiled_rows_wellformed {St} (self : LayerCompiler) (svg_text : string)
    (s : St) (t : nat) :
  match fromstring svg_text with
  | Some root =>
      (frames root <= recursion_limit ->
       exists result,
         compile self svg_text s t = mkRun (Ok result) s (S t)
         /\ Forall2 compiled_from (emitted root) (layers (layer_map_full result))
         /\ layers (layer_map_min result) = map min_row (layers (layer_map_full result))
         /\ layerCount (layer_map_full result) = length (emitted root)
         /\ layerCount (layer_map_min result) = length (emitted root))
      /\ (recursion_limit < frames root ->
          compile self svg_text s t = mkRun (Raise RecursionError) s (S t))
  | None => compile self svg_text s t = mkRun (Raise ParseError) s t
  end.
Proof.
  rewrite compile_run. destruct (fromstring svg_text) as [root|]; [|reflexivity].
  pose proof (collect_layers_run root) as Hrun.
  destruct (_collect_layers root) as [rows|e] eqn:Hcollect.
  - split; [|lia]. intros _. cbv zeta. eexists. split; [reflexivity|].
    cbn [layer_map_full layer_map_min layers layerCount].
    destruct (collect_layers_rows _ _ Hcollect) as (Hz & _).
    rewrite (sorted_by_zIndex_id _ _ _ Hz).
    pose proof (collect_layers_compiled _ _ Hcollect) as Hrows.
    pose proof (Forall2_length _ _ _ Hrows) as Hlen.
    split; [exact Hrows|]. split; [reflexivity|].
    rewrite length_map. split; symmetry; exact Hlen.
  - destruct Hrun as [-> Hdeep]. split; [lia | reflexivity].
Qed.

Lemma manifest_lookups (version checksum c1 c2 now : string) :
  let manifest : gmap string value :=
    list_to_map
      [("schemaVersion", VStr "1.0"); ("compilerVersion", VStr version);
       ("sourceChecksum", VStr checksum); ("layerMapMinChecksum", VStr c1);
       ("layerMapFullChecksum", VStr c2); ("generatedAt", VStr now)] in
  manifest !! "sourceChecksum" = Some (VStr checksum)
  /\ manifest !! "compilerVersion" = Some (VStr version)
  /\ size manifest <> 0.
Proof.
  cbv zeta. split; [reflexivity|]. split; [reflexivity|].
  intros Hsize. apply map_size_empty_inv in Hsize.
  apply (f_equal (fun m : gmap string value => m !! "schemaVersion")) in Hsize.
  rewrite lookup_empty in Hsize. discriminate.
Qed.

Lemma compile_manifest_lookups {St} self svg_text (s : St) t result :
  res (compile self svg_text s t) = Ok result ->
  compile_manifest result !! "sourceChecksum" = Some (VStr (source_checksum self svg_text))
  /\ compile_manifest result !! "compilerVersion" = Some (VStr (compiler_version self))
  /\ size (compile_manifest result) <> 0.
Proof.
  rewrite compile_run. destruct (fromstring svg_text) as [root|]; [|discriminate].
  destruct (_collect_layers root) as [rows|]; [|discriminate].
  cbv zeta. cbn [res]. intros [= <-]. cbn [compile_manifest]. apply manifest_lookups.
Qed.

(** X11: a manifest answers for the compilation that wrote it.  With the
    manifest a compilation returned, [needs_recompile] (not forced) of the
    same compiler answers unchanged for the same source text; it answers
    [source_checksum_changed] for every text with another checksum, and a
    compiler of another version answers [compiler_version_changed] for the
    same text.  A compilation raises [ParseError], for a source that does
    not parse, or [RecursionError], for a document that takes more frames
    than the budget, and nothing else. *)
Theorem compile_manifest_is_current {St} (self : LayerCompiler) (svg_text : string)
    (s : St) (t : nat) :
  match res (compile self svg_text s t) with
  | Ok result =>
      let manifest := Some (compile_manifest result) in
      needs_recompile self svg_text manifest false = (false, None)
      /\ (forall other,
            source_checksum self other <> source_checksum self svg_text ->
            needs_recompile self other manifest false
            = (true, Some "source_checksum_changed"))
      /\ (forall version,
            version <> compiler_version self ->
            needs_recompile (mkLayerCompiler version) svg_text manifest false
            = (true, Some "compiler_version_changed"))
  | Raise e =>
      (e = ParseError /\ fromstring svg_text = None)
      \/ (e = RecursionError
          /\ exists root, fromstring svg_text = Some root /\ recursion_limit < frames root)
  end.
Proof.
  destruct (res (compile self svg_text s t)) as [result|e] eqn:Hres.
  - destruct (compile_manifest_lookups _ _ _ _ _ Hres) as (Hsum & Hver & Hsize).
    cbv zeta. unfold needs_recompile.
    rewrite (bool_decide_false _ Hsize), Hsum, Hver. cbn [default from_option id].
    split; [|split].
    + rewrite !(proj2 (py_eqb_str _ _) eq_refl). reflexivity.
    + intros other Hother. change (source_checksum self other) with (_sha256_text other) in *.
      change (source_checksum self svg_text) with (_sha256_text svg_text) in *.
      rewrite (proj2 (py_eqb_str_false (VStr (_sha256_text svg_text)) (_sha256_text other)));
        [reflexivity|]. congruence.
    + intros version Hversion. cbn [compiler_version].
      change (source_checksum (mkLayerCompiler version) svg_text)
        with (source_checksum self svg_text).
      rewrite (proj2 (py_eqb_str _ _) eq_refl). cbn [negb].
      rewrite (proj2 (py_eqb_str_false (VStr (compiler_version self)) version));
        [reflexivity|]. congruence.
  - rewrite compile_run in Hres. destruct (fromstring svg_text) as [root|].
    + pose proof (collect_layers_run root) as Hrun.
      destruct (_collect_layers root) as [rows|e']; [discriminate|].
      cbn [res] in Hres. injection Hres as <-. destruct Hrun as [-> Hdeep].
      right. split; [reflexivity|]. exists root. split; [reflexivity | exact Hdeep].
    + injection Hres as <-. left. split; reflexivity.
Qed.

End CompiledRows.
(** ** Layer ids, alias tokens and bounding boxes *)

Section CompilerStrings.
Context {rt : PyRuntime} {libs : CompilerLibs}.

Lemma chars_of_chars l : chars (of_chars l) = l.
Proof. apply String.list_ascii_of_string_of_list_ascii. Qed.








Lemma split_tokens_chars l :
  forall cur,
    Forall (fun c => token_char c = true) cur ->
    Forall (fun token => Forall (fun c => token_char c = true) (chars token))
           (split_tokens l cur).
Proof.
  induction l as [|c l IH]; intros cur Hcur; cbn [split_tokens].
  - case_bool_decide; constructor; [|constructor].
    rewrite chars_of_chars. apply Forall_rev, Hcur.
  - fold (token_char c). destruct (token_char c) eqn:Hc.
    + apply IH. constructor; assumption.
    + case_bool_decide; [apply IH; constructor|].
      constructor; [|apply IH; constructor].
      rewrite chars_of_chars. apply Forall_rev, Hcur.
Qed.

(** X13: alias tokens.  Every token [_tokenize_aliases] returns, for any
    values, is at least two characters long and consists of lower-case
    letters and digits only; no value gives no token. *)
Theorem tokenize_aliases_tokens (values : list string) :
  Forall (fun token => 1 < String.length token
                       /\ Forall (fun c => token_char c = true) (chars token))
         (_tokenize_aliases values)
  /\ _tokenize_aliases [] = [].
Proof.
  split; [|reflexivity]. apply Forall_forall. intros token Hin.
  unfold _tokenize_aliases in Hin. apply (proj1 (elem_of_sorted_set _ _)) in Hin.
  apply list_elem_of_In, in_flat_map in Hin as (v & _ & Hin).
  apply list_elem_of_In, list_elem_of_filter in Hin as [Hlen Hin].
  split; [exact Hlen|].
  pose proof (split_tokens_chars (chars (lower v)) [] ltac:(constructor)) as Hall.
  rewrite Forall_forall in Hall. apply Hall, Hin.
Qed.

Lemma py_max_zero_nonneg (d : float) : PrimFloat.leb 0 (py_max 0 d) = true.
Proof.
  unfold py_max. destruct (PrimFloat.ltb 0 d) eqn:E; [apply float_ltb_leb, E | reflexivity].
Qed.

(** X14: the union of bounding boxes.  The width and the height of the box
    [_bbox_union] returns are never negative and never NaN, whatever the
    boxes hold (NaNs and infinities included); its centre is its corner plus
    half its extent, and the union of no box is the zero box. *)
Theorem bbox_union_extent (boxes : list BBox) :
  let u := _bbox_union boxes in
  PrimFloat.leb 0 (bx_width u) = true
  /\ PrimFloat.leb 0 (bx_height u) = true
  /\ bx_cx u = (bx_x u + bx_width u / 2)%float
  /\ bx_cy u = (bx_y u + bx_height u / 2)%float
  /\ _bbox_union [] = mkBBox 0 0 0 0 0 0.
Proof.
  cbv zeta. destruct boxes as [|b rest]; cbn [_bbox_union bx_width bx_height bx_cx bx_cy bx_x bx_y].
  - repeat split; reflexivity.
  - split; [apply py_max_zero_nonneg|]. split; [apply py_max_zero_nonneg|].
    repeat split; reflexivity.
Qed.

End CompilerStrings.
(** ** The service: what is checked before anything is changed *)

Section ServiceChecks.
Context {rt : PyRuntime} {libs : CompilerLibs}.

Lemma check_capabilities_pass layer_id keys self t :
  Forall (fun key => _has_capability self layer_id key = Ok true) keys ->
  check_capabilities layer_id keys self t = mkRun (Ok tt) self t.
Proof.
  unfold check_capabilities. induction 1 as [|key rest Hkey _ IH]; [reflexivity|].
  cbn [for_each]. rewrite bind_run, bind_run. cbn [get res st clk].
  rewrite bind_run. unfold lift_result at 1. cbn [res st clk]. rewrite Hkey. cbn [ret res st clk].
  exact IH.
Qed.

Lemma check_capabilities_refuse layer_id before key after self t :
  Forall (fun key => _has_capability self layer_id key = Ok true) before ->
  _has_capability self layer_id key = Ok false ->
  check_capabilities layer_id (before ++ key :: after) self t
  = mkRun (Raise (refusal layer_id key)) self t.
Proof.
  unfold check_capabilities. intros Hbefore Hkey.
  induction Hbefore as [|k rest Hk _ IH]; cbn [app for_each].
  - rewrite bind_run, bind_run. cbn [get res st clk].
    rewrite bind_run. unfold lift_result at 1. cbn [res st clk]. rewrite Hkey. reflexivity.
  - rewrite bind_run, bind_run. cbn [get res st clk].
    rewrite bind_run. unfold lift_result at 1. cbn [res st clk]. rewrite Hk.
    cbn [ret res st clk]. exact IH.
Qed.

(** X15: a refused mutation changes nothing.  On an initialised service,
    [set_layer_state] raises, with the service, its store, its engine and
    the clock exactly as they were (no run id is taken, no snapshot is
    pushed): the lookup error for a layer id no compiled layer carries; the
    [PermissionError] naming the first prop, in the order given, whose
    capability the layer does not have; and, when every prop is allowed, the
    error of a value the clamping cannot convert. *)
Theorem refused_mutation_changes_nothing (layer_id : string) (props : list (string * value))
    (self : RuntimeService) (t : nat) (store : StateStore) (engine : ExecutionEngine) :
  svc_store self = Some store ->
  svc_engine self = Some engine ->
  (forall e, _layer_full_by_id self layer_id = Raise e ->
             set_layer_state layer_id props self t = mkRun (Raise e) self t)
  /\ (forall layer before key after,
        _layer_full_by_id self layer_id = Ok layer ->
        map fst props = before ++ key :: after ->
        Forall (fun k => _has_capability self layer_id k = Ok true) before ->
        _has_capability self layer_id key = Ok false ->
        set_layer_state layer_id props self t = mkRun (Raise (refusal layer_id key)) self t)
  /\ (forall layer e,
        _layer_full_by_id self layer_id = Ok layer ->
        Forall (fun k => _has_capability self layer_id k = Ok true) (map fst props) ->
        _clamp_props self layer_id props = Raise e ->
        set_layer_state layer_id props self t = mkRun (Raise e) self t).
Proof.
  intros Hstore Hengine.
  unfold set_layer_state. split; [|split].
  - intros e He. rewrite bind_run. cbn [get res st clk]. rewrite Hstore, Hengine.
    rewrite bind_run. unfold lift_result at 1. cbn [res st clk]. rewrite He. reflexivity.
  - intros layer before key after Hlayer Hkeys Hbefore Hkey.
    rewrite bind_run. cbn [get res st clk]. rewrite Hstore, Hengine.
    rewrite bind_run. unfold lift_result at 1. cbn [res st clk]. rewrite Hlayer.
    rewrite Hkeys.
    rewrite (bind_raise _ _ _ _ _ _ _
               (check_capabilities_refuse layer_id before key after self t Hbefore Hkey)).
    reflexivity.
  - intros layer e Hlayer Hkeys Hclamp.
    rewrite bind_run. cbn [get res st clk]. rewrite Hstore, Hengine.
    rewrite bind_run. unfold lift_result at 1. cbn [res st clk]. rewrite Hlayer.
    rewrite (bind_step _ _ _ _ _ _ _ (check_capabilities_pass layer_id _ self t Hkeys)).
    rewrite bind_run. unfold lift_result at 1. cbn [res st clk]. rewrite Hclamp. reflexivity.
Qed.

End ServiceChecks.
(** ** The service on a compiled layer map *)

Section CompiledService.
Context {rt : PyRuntime} {libs : CompilerLibs}.

Lemma layer_full_by_id_found self layer_id layer :
  _layer_full_by_id self layer_id = Ok layer ->
  layer ∈ layers_full self /\ lid layer = layer_id.
Proof.
  unfold _layer_full_by_id.
  destruct (find _ (layers_full self)) as [found|] eqn:E; [|discriminate].
  intros [= <-]. apply find_some in E as [Hin Hid].
  split; [apply list_elem_of_In, Hin | apply bool_decide_eq_true in Hid; exact Hid].
Qed.

Lemma compiled_capabilities node row key :
  compiled_from node row ->
  key ∈ ["move"; "scale"; "rotate"; "opacity"; "depth"] ->
  capabilities row !! key = Some (VBool true).
Proof.
  intros (_ & _ & _ & _ & _ & _ & Hcaps & _) Hkey. rewrite Hcaps.
  repeat (apply elem_of_cons in Hkey as [->|Hkey];
          [destruct (_infer_type (_strip_ns (el_tag node))); reflexivity|]).
  inversion Hkey.
Qed.

Lemma compiled_effect node row :
  compiled_from node row ->
  capabilities row !! "effect"
  = Some (VBool (bool_decide (ltype row ∈ ["shape"; "image"; "group"])))
  /\ capabilities row !! "jitter" = Some (VBool (bool_decide (ltype row = "shape"))).
Proof.
  intros (_ & _ & _ & _ & _ & Htype & Hcaps & _). rewrite Hcaps, Htype.
  destruct (_infer_type (_strip_ns (el_tag node))); split; reflexivity.
Qed.

Lemma cap_map_values prop capability_key :
  assoc prop cap_map = Some capability_key ->
  capability_key ∈ ["move"; "scale"; "rotate"; "opacity"; "depth"].
Proof.
  unfold cap_map. cbn [assoc].
  repeat (case_bool_decide; [intros [= <-]; decide_in|]).
  discriminate.
Qed.

Lemma compiled_has_capability self layer_id layer prop :
  compiled_service self ->
  _layer_full_by_id self layer_id = Ok layer ->
  _has_capability self layer_id prop = Ok true.
Proof.
  intros Hcompiled Hlayer. unfold _has_capability.
  destruct (assoc prop cap_map) as [capability_key|] eqn:Hkey; [|reflexivity].
  rewrite Hlayer.
  destruct (layer_full_by_id_found _ _ _ Hlayer) as [Hin _].
  unfold compiled_service in Hcompiled. rewrite Forall_forall in Hcompiled.
  destruct (Hcompiled layer Hin) as [node Hnode].
  rewrite (compiled_capabilities node layer capability_key Hnode (cap_map_values _ _ Hkey)).
  reflexivity.
Qed.

(** X16: a compiled layer refuses no prop.  On a service whose full layer
    map holds compiled rows, the capability check of [set_layer_state]
    passes for every prop of every layer of the map, tracked or not; what
    a compiled layer can refuse is an effect: [set_effect_layer] raises
    [PermissionError], with the service as it was, on every layer
    whose type is not shape, image or group. *)
Theorem compiled_layers_refuse_no_prop (self : RuntimeService) (layer_id : string)
    (layer : LayerRow) (node : Element) (t : nat) :
  compiled_service self ->
  _layer_full_by_id self layer_id = Ok layer ->
  compiled_from node layer ->
  (forall prop, _has_capability self layer_id prop = Ok true)
  /\ (forall props : list (string * value),
        check_capabilities layer_id (map fst props) self t = mkRun (Ok tt) self t)
  /\ (forall effect,
        ltype layer ∉ ["shape"; "image"; "group"] ->
        set_effect_layer layer_id effect self t
        = mkRun (Raise (PermissionError ("Layer '" +:+ layer_id +:+ "' does not allow effect")))
                self t).
Proof.
  intros Hcompiled Hlayer Hnode.
  assert (Hall : forall prop, _has_capability self layer_id prop = Ok true).
  { intros prop. exact (compiled_has_capability self layer_id layer prop Hcompiled Hlayer). }
  split; [exact Hall|]. split.
  - intros props. apply check_capabilities_pass, Forall_forall. intros key _. apply Hall.
  - intros effect Htype. unfold set_effect_layer.
    rewrite bind_run. cbn [get res st clk].
    rewrite bind_run. unfold lift_result at 1. cbn [res st clk]. rewrite Hlayer.
    destruct (compiled_effect node layer Hnode) as [-> _].
    rewrite (bool_decide_false _ Htype). reflexivity.
Qed.

(** X17: the depth a service call applies.  For a layer whose constraints
    give a minimum depth not above the maximum depth (a compiled layer:
    -200 and 200), [set_layer_depth] returns, whenever it returns, the depth
    [max(min_depth, min(max_depth, z))], which lies between the two bounds
    for every number [z], a NaN included. *)
Theorem depth_clamped_at_service (self : RuntimeService) (layer_id : string)
    (layer : LayerRow) (min_depth max_depth : float) (z : value) (t : nat) (depth : float) :
  _layer_full_by_id self layer_id = Ok layer ->
  float_get (constraints layer) "minDepth" (-200) = Ok min_depth ->
  float_get (constraints layer) "maxDepth" 200 = Ok max_depth ->
  PrimFloat.leb min_depth max_depth = true ->
  res (set_layer_depth layer_id z self t) = Ok depth ->
  (exists number,
      py_float z = Ok number /\ depth = py_max min_depth (py_min max_depth number))
  /\ PrimFloat.leb min_depth depth = true
  /\ PrimFloat.leb depth max_depth = true.
Proof.
  intros Hlayer Hmin Hmax Hle Hres. unfold set_layer_depth in Hres.
  apply bind_ok_inv in Hres as ([applied rid] & Hset & Hres).
  apply set_layer_state_applied in Hset. cbn [fst] in Hres.
  unfold _clamp_props in Hset. rewrite Hlayer in Hset.
  assert (Hop : clamp_opacity_prop [("z", z)] = Ok [("z", z)]) by reflexivity.
  assert (Hrot : clamp_rotation_prop (constraints layer) [("z", z)] = Ok [("z", z)])
    by reflexivity.
  rewrite Hop, Hrot in Hset. unfold clamp_z_prop in Hset.
  assert (Hz' : assoc "z" [("z", z)] = Some z) by reflexivity.
  rewrite Hz', Hmin, Hmax in Hset.
  destruct (py_float z) as [number|] eqn:Hz; [|discriminate].
  injection Hset as <-.
  assert (Hget : assoc "z" [("z", VNum (py_max min_depth (py_min max_depth number)))]
                 = Some (VNum (py_max min_depth (py_min max_depth number)))) by reflexivity.
  rewrite Hget in Hres. injection Hres as <-.
  split; [exists number; split; reflexivity|].
  apply clamp_between, Hle.
Qed.

End CompiledService.

Lemma Forall2_exists_l {A B} (P : A -> B -> Prop) l k :
  Forall2 P l k -> Forall (fun y => exists x, P x y) k.
Proof. induction 1; constructor; eauto. Qed.

(** ** The service, one step at a time *)

Section ServiceSteps.
Context {rt : PyRuntime} {libs : CompilerLibs}.

Lemma the_engine_run self engine t :
  svc_engine self = Some engine -> the_engine self t = mkRun (Ok engine) self t.
Proof.
  intros H. unfold the_engine. rewrite bind_run. cbn [get res st clk].
  rewrite H. reflexivity.
Qed.

Lemma on_store_run {A} (m : M StateStore A) self store t :
  svc_store self = Some store ->
  on_store m self t
  = mkRun (res (m store t)) (with_store (Some (st (m store t))) self) (clk (m store t)).
Proof. intros H. unfold on_store. rewrite H. reflexivity. Qed.

Lemma next_run_id_run self engine t :
  svc_engine self = Some engine ->
  _next_run_id self t
  = mkRun (Ok ("run_" +:+ zfill6 (pretty (S (_counter engine)))))
      (with_engine (Some (mkEngine (S (_counter engine)) (active_runs engine)
                            (completed_runs engine))) self) t.
Proof.
  intros H. unfold _next_run_id.
  rewrite (bind_step _ _ _ _ _ _ _ (the_engine_run self engine t H)).
  reflexivity.
Qed.

Lemma finish_run run self engine t :
  svc_engine self = Some engine ->
  _finish run self t
  = mkRun (Ok tt)
      (with_engine
         (Some (mkEngine (_counter engine) (delete (run_id run) (active_runs engine))
                  (<[run_id run :=
                       mkRunRecord (run_id run) (kind run) "completed" (started_at run)
                         (Some (iso_of t)) (steps run)]> (completed_runs engine)))) self)
      (S t).
Proof.
  intros H. unfold _finish.
  rewrite (bind_step _iso_now _ self t (iso_of t) self (S t) eq_refl).
  rewrite (bind_step _ _ _ _ _ _ _ (the_engine_run self engine (S t) H)).
  reflexivity.
Qed.

Lemma touch_state_run self store t :
  svc_store self = Some store ->
  _touch_state self t
  = mkRun (Ok tt)
      (mkService (svc_svg_text self) (svc_compiler self) (svc_layer_map_min self)
         (svc_layer_map_full self) (svc_compile_manifest self) (Some store)
         (svc_engine self) (current store) (S (svc_state_version self))) t.
Proof.
  intros H. unfold _touch_state.
  rewrite (bind_step get _ self t self self t eq_refl). rewrite H. reflexivity.
Qed.

End ServiceSteps.

(** The first of a sequence of calls, once [tac] has run it. *)
Ltac step_by tac :=
  lazymatch goal with
  | |- bind ?m ?f ?s ?t = _ =>
      let H := fresh in
      eassert (H : m s t = mkRun (Ok _) _ _) by tac;
      rewrite (bind_step m f s t _ _ _ H); clear H; cbv beta
  end.

Ltac store_step H :=
  lazymatch goal with
  | |- context [on_store ?m ?s ?t] =>
      lazymatch type of H with
      | _ = Some ?store => rewrite (on_store_run m s store t H)
      end
  end.

Ltac touch_step :=
  lazymatch goal with
  | |- context [_touch_state ?s ?t] => rewrite (touch_state_run s _ t eq_refl)
  end.

(** ** The books of a mutation *)

Section ServiceRuns.
Context {rt : PyRuntime} {libs : CompilerLibs}.

Lemma run_set_run layer_id clamped self store engine t :
  svc_store self = Some store ->
  svc_engine self = Some engine ->
  let rid := "run_" +:+ zfill6 (pretty (S (_counter engine))) in
  let started := iso_of t in
  let rs := set layer_id clamped true store (S t) in
  let on_fail :=
    mkService (svc_svg_text self) (svc_compiler self) (svc_layer_map_min self)
      (svc_layer_map_full self) (svc_compile_manifest self) (Some (st rs))
      (Some (mkEngine (S (_counter engine))
               (<[rid := mkRunRecord rid "set" "running" started None []]> (active_runs engine))
               (completed_runs engine)))
      (svc_dom_layers self) (svc_state_version self) in
  run_set layer_id clamped self t
  = match res rs with
    | Raise e => mkRun (Raise e) on_fail (clk rs)
    | Ok applied =>
        let rg := get_layer_state layer_id (st rs) (S (clk rs)) in
        let finished :=
          mkService (svc_svg_text self) (svc_compiler self) (svc_layer_map_min self)
            (svc_layer_map_full self) (svc_compile_manifest self) (Some (st rg))
            (Some (mkEngine (S (_counter engine))
                     (delete rid
                        (<[rid := mkRunRecord rid "set" "running" started None
                                    [mkStep layer_id "set" applied]]>
                           (<[rid := mkRunRecord rid "set" "running" started None []]>
                              (active_runs engine))))
                     (<[rid := mkRunRecord rid "set" "completed" started
                                 (Some (iso_of (clk rs))) [mkStep layer_id "set" applied]]>
                        (completed_runs engine))))
            (svc_dom_layers self) (svc_state_version self) in
        match res rg with
        | Ok planned => mkRun (Ok (rid, planned)) finished (clk rg)
        | Raise e => mkRun (Raise e) finished (clk rg)
        end
    end.
Proof.
  intros Hstore Hengine. cbv zeta. unfold run_set.
  step_by ltac:(idtac; apply next_run_id_run; exact Hengine).
  step_by ltac:(idtac; reflexivity).
  step_by ltac:(idtac; apply the_engine_run; reflexivity).
  step_by ltac:(idtac; reflexivity).
  cbn [_counter active_runs completed_runs].
  rewrite bind_run. store_step Hstore. cbn [res st clk].
  destruct (res (set layer_id clamped true store (S t))) as [applied|e]; [|reflexivity].
  step_by ltac:(idtac; apply the_engine_run; reflexivity).
  step_by ltac:(idtac; reflexivity).
  cbn [_counter active_runs completed_runs].
  step_by ltac:(idtac; apply finish_run; reflexivity).
  cbn [_counter active_runs completed_runs run_id kind started_at steps].
  rewrite bind_run.
  store_step (eq_refl (Some (st (set layer_id clamped true store (S t))))).
  cbn [res st clk ret].
  destruct (res (get_layer_state layer_id _ _)); reflexivity.
Qed.
Lemma check_capabilities_reads layer_id keys self t :
  st (check_capabilities layer_id keys self t) = self
  /\ clk (check_capabilities layer_id keys self t) = t.
Proof.
  unfold check_capabilities. induction keys as [|key rest IH]; [split; reflexivity|].
  cbn [for_each]. rewrite bind_run, bind_run. cbn [get res st clk].
  rewrite bind_run. unfold lift_result at 1. cbn [res st clk].
  destruct (_has_capability self layer_id key) as [[|]|e]; cbn [ret raise res st clk];
    [exact IH | split; reflexivity | split; reflexivity].
Qed.

Lemma set_layer_state_run layer_id props self store engine t :
  svc_store self = Some store ->
  svc_engine self = Some engine ->
  set_layer_state layer_id props self t
  = match _layer_full_by_id self layer_id with
    | Raise e => mkRun (Raise e) self t
    | Ok _ =>
        match res (check_capabilities layer_id (map fst props) self t) with
        | Raise e => mkRun (Raise e) self t
        | Ok _ =>
            match _clamp_props self layer_id props with
            | Raise e => mkRun (Raise e) self t
            | Ok clamped =>
                (result <- run_set layer_id clamped ;;
                 _touch_state ;;;
                 ret (clamped, fst result)) self t
            end
        end
    end.
Proof.
  intros Hstore Hengine. unfold set_layer_state.
  step_by ltac:(idtac; reflexivity). rewrite Hstore, Hengine. cbv beta iota.
  destruct (_layer_full_by_id self layer_id) as [layer|e]; [|reflexivity].
  step_by ltac:(idtac; reflexivity).
  rewrite bind_run.
  destruct (check_capabilities_reads layer_id (map fst props) self t) as [-> ->].
  destruct (res (check_capabilities layer_id (map fst props) self t)); [|reflexivity].
  destruct (_clamp_props self layer_id props) as [clamped|e]; [|reflexivity].
  step_by ltac:(idtac; reflexivity). reflexivity.
Qed.

Lemma get_layer_state_stacks layer_id s t :
  history (st (get_layer_state layer_id s t)) = history s
  /\ future (st (get_layer_state layer_id s t)) = future s.
Proof.
  assert (H : preserves same_stacks (get_layer_state layer_id)).
  { unfold get_layer_state. apply pres_bind; [apply _ | apply keeps_ensure_layer|].
    intros _. apply pres_current_at. apply _. }
  apply H.
Qed.

Lemma normalize_items_other items key :
  key ∉ map fst items ->
  forall acc normalized,
    normalize_items items acc = Ok normalized -> normalized !! key = acc !! key.
Proof.
  induction items as [|[k w] rest IH]; intros Hout acc normalized Hrun.
  - injection Hrun as <-. reflexivity.
  - cbn [normalize_items] in Hrun. cbn [map fst] in Hout.
    apply not_elem_of_cons in Hout as [Hne Hout].
    destruct (normalize_one k w) as [[w'|]|e]; [| |discriminate].
    + rewrite (IH Hout _ _ Hrun). apply lookup_insert_ne. congruence.
    + exact (IH Hout _ _ Hrun).
Qed.

Lemma normalize_one_some key v :
  key ∈ TRACKED_FIELDS ->
  match normalize_one key v with
  | Ok (Some _) | Raise _ => True
  | Ok None => False
  end.
Proof.
  intros Hin. unfold normalize_one. rewrite (bool_decide_true _ Hin). cbn [negb].
  repeat (apply elem_of_cons in Hin as [->|Hin];
          [vm_compute bool_decide; destruct (py_float v); exact I|]).
  inversion Hin.
Qed.

(** A tracked prop of a dict is in what its normalisation gives. *)
Lemma normalize_items_assoc items :
  NoDup (map fst items) ->
  forall acc normalized key v,
    normalize_items items acc = Ok normalized ->
    assoc key items = Some v ->
    key ∈ TRACKED_FIELDS ->
    exists v', normalize_one key v = Ok (Some v') /\ normalized !! key = Some v'.
Proof.
  induction items as [|[k w] rest IH]; intros Hnd acc normalized key v Hrun Hassoc Hin;
    [discriminate|].
  cbn [map fst] in Hnd. apply NoDup_cons in Hnd as [Hfresh Hnd].
  cbn [normalize_items] in Hrun. cbn [assoc] in Hassoc.
  case_bool_decide as Hk.
  - subst k. injection Hassoc as <-.
    pose proof (normalize_one_some key w Hin) as Hsome.
    destruct (normalize_one key w) as [[w'|]|e]; [|contradiction|discriminate].
    exists w'. split; [reflexivity|].
    rewrite (normalize_items_other rest key Hfresh _ _ Hrun). apply lookup_insert_eq.
  - destruct (normalize_one k w) as [[w'|]|e]; [| |discriminate];
      apply (IH Hnd _ _ _ _ Hrun Hassoc Hin).
Qed.

Lemma stamped_keeps normalized now key v :
  normalized !! key = Some v -> stamped normalized now !! key = Some v.
Proof.
  intros Hv. unfold stamped. case_bool_decide as Hlast; [exact Hv|].
  rewrite lookup_insert_ne; [exact Hv|]. intros <-. apply Hlast. eauto.
Qed.

(** What a [set] returns: the normalised props, stamped. *)
Lemma set_returns_stamped layer_id items propagate s t written :
  res (set layer_id items propagate s t) = Ok written ->
  exists normalized now,
    normalize_items items ∅ = Ok normalized /\ written = stamped normalized now.
Proof.
  unfold set.
  intros H. apply bind_ok_inv in H as (_ & _ & H).
  apply bind_ok_inv in H as (_ & _ & H).
  apply bind_ok_inv in H as (old_parent & _ & H).
  apply bind_ok_inv in H as (applied & Happlied & H).
  apply bind_ok_inv in H as (_ & _ & H). injection H as <-.
  unfold _apply_direct in Happlied.
  apply bind_ok_inv in Happlied as (_ & _ & Happlied).
  apply bind_ok_inv in Happlied as (normalized' & Hnorm & Happlied).
  apply bind_ok_inv in Happlied as (_ & _ & Happlied). injection Happlied as <-.
  rewrite normalize_props_run in Hnorm.
  destruct (normalize_items items ∅) as [normalized|]; [|discriminate].
  injection Hnorm as <-. eexists _, _. split; reflexivity.
Qed.



Lemma get_layer_state_current layer_id s t :
  is_Some (current s !! layer_id) -> current (st (get_layer_state layer_id s t)) = current s.
Proof.
  intros Hknown. unfold get_layer_state, _ensure_layer, current_at, bind, get, ret, modify,
    raise. simpl.
  rewrite (bool_decide_true _ Hknown). simpl.
  destruct (bool_decide (is_Some (layer_tree s !! layer_id))); simpl;
    destruct Hknown as [state ->]; reflexivity.
Qed.

Lemma set_layer_state_initialised layer_id props self t output :
  res (set_layer_state layer_id props self t) = Ok output ->
  exists store engine, svc_store self = Some store /\ svc_engine self = Some engine.
Proof.
  unfold set_layer_state. rewrite bind_run. cbn [get res st clk].
  destruct (svc_store self) as [store|]; [|discriminate].
  destruct (svc_engine self) as [engine|]; [|discriminate].
  intros _. eauto.
Qed.

(** What a mutation that returns has stored: every prop the store's [set]
    wrote is in the state the store holds for the layer. *)
Lemma set_layer_state_stored layer_id props self t output store :
  svc_store self = Some store ->
  res (set_layer_state layer_id props self t) = Ok output ->
  exists store' written,
    svc_store (st (set_layer_state layer_id props self t)) = Some store'
    /\ res (set layer_id output.1 true store (S t)) = Ok written
    /\ forall key v, written !! key = Some v ->
                     field_of (current store') layer_id key = Some v.
Proof.
  intros Hstore Hres.
  destruct (set_layer_state_initialised _ _ _ _ _ Hres) as (store0 & engine & Hs & Hengine).
  rewrite Hstore in Hs. injection Hs as <-.
  revert Hres. rewrite (set_layer_state_run _ _ _ _ _ _ Hstore Hengine).
  destruct (_layer_full_by_id self layer_id) as [layer|]; [|discriminate].
  destruct (res (check_capabilities layer_id (map fst props) self t)); [|discriminate].
  destruct (_clamp_props self layer_id props) as [clamped|]; [|discriminate].
  rewrite bind_run, (run_set_run _ _ _ _ _ _ Hstore Hengine). cbv zeta.
  destruct (res (set layer_id clamped true store (S t))) as [written|] eqn:Hset;
    [|discriminate].
  pose proof (set_stores_written _ _ _ _ _ Hset) as Hwritten.
  assert (Hknown : is_Some (current (st (set layer_id clamped true store (S t))) !! layer_id)).
  { destruct (stamped_lastUpdate ∅ "") as [x _].
    destruct (set_returns_stamped _ _ _ _ _ _ Hset) as (n & now & _ & ->).
    destruct (stamped_lastUpdate n now) as [v Hv].
    specialize (Hwritten _ _ Hv). unfold field_of in Hwritten.
    destruct (current _ !! layer_id); [eauto | discriminate]. }
  pose proof (get_layer_state_current layer_id _
                (S (clk (set layer_id clamped true store (S t)))) Hknown) as Hread.
  destruct (res (get_layer_state layer_id _ _)) as [planned|]; [|discriminate].
  cbn [res st clk]. rewrite bind_run. touch_step. cbn [res st clk ret fst].
  intros [= <-]. eexists _, written. cbn [svc_store fst].
  split; [reflexivity|]. split; [exact Hset|].
  intros key v Hv. rewrite Hread. exact (Hwritten key v Hv).
Qed.

(** X18: the books of a mutation that returns.  When [set_layer_state]
    returns on an initialised service, it has passed on to the store what
    [_clamp_props] gave, and the state the store then holds for the layer
    carries every prop the store's [set] wrote: each tracked prop of the
    clamped dict, normalised.  Its run id is [run_] and the next counter
    value on six digits; the run is among the completed runs with status
    [completed], kind [set], a finishing time and one step, which lists
    what the store wrote, and is removed from the active runs; the store has
    one more snapshot on its undo stack; the state version has grown by one
    and the service's external snapshot is the state map of its store; the
    layer maps and the manifest are as they were. *)
Theorem mutation_books (layer_id : string) (props applied : list (string * value))
    (rid : string) (self : RuntimeService) (t : nat)
    (store : StateStore) (engine : ExecutionEngine) :
  svc_store self = Some store ->
  svc_engine self = Some engine ->
  res (set_layer_state layer_id props self t) = Ok (applied, rid) ->
  let after := st (set_layer_state layer_id props self t) in
  _clamp_props self layer_id props = Ok applied
  /\ rid = "run_" +:+ zfill6 (pretty (S (_counter engine)))
  /\ exists store' engine' record written,
       svc_store after = Some store'
       /\ svc_engine after = Some engine'
       /\ svc_dom_layers after = current store'
       /\ svc_state_version after = S (svc_state_version self)
       /\ history store' = history store ++ [ensured layer_id store (S t)]
       /\ _counter engine' = S (_counter engine)
       /\ active_runs engine' = delete rid (active_runs engine)
       /\ completed_runs engine' = <[rid := record]> (completed_runs engine)
       /\ run_id record = rid /\ kind record = "set" /\ status record = "completed"
       /\ started_at record = iso_of t /\ is_Some (finished_at record)
       /\ length (steps record) = 1
       /\ svc_layer_map_full after = svc_layer_map_full self
       /\ svc_layer_map_min after = svc_layer_map_min self
       /\ svc_compile_manifest after = svc_compile_manifest self
       /\ steps record = [mkStep layer_id "set" written]
       /\ res (set layer_id applied true store (S t)) = Ok written
       /\ (forall key v, written !! key = Some v ->
                         field_of (current store') layer_id key = Some v)
       /\ (NoDup (map fst applied) ->
           forall key v,
             assoc key applied = Some v -> key ∈ TRACKED_FIELDS ->
             exists v', normalize_one key v = Ok (Some v')
                        /\ field_of (current store') layer_id key = Some v').
Proof.
  intros Hstore Hengine Hres. cbv zeta.
  destruct (set_layer_state_stored _ _ _ _ _ _ Hstore Hres)
    as (store2 & written & Hstore2 & Hset2 & Hstored).
  cbn [fst] in Hset2.
  assert (Htracked : NoDup (map fst applied) ->
            forall key v,
              assoc key applied = Some v -> key ∈ TRACKED_FIELDS ->
              exists v', normalize_one key v = Ok (Some v')
                         /\ field_of (current store2) layer_id key = Some v').
  { intros Hnd key v Hassoc Hin.
    destruct (set_returns_stamped _ _ _ _ _ _ Hset2) as (normalized & now & Hnorm & Hw).
    destruct (normalize_items_assoc applied Hnd _ _ _ _ Hnorm Hassoc Hin)
      as (v' & Hone & Hlook).
    exists v'. split; [exact Hone|]. apply Hstored. rewrite Hw.
    apply stamped_keeps, Hlook. }
  revert Hstore2. revert Hres.
  rewrite (set_layer_state_run _ _ _ _ _ _ Hstore Hengine).
  destruct (_layer_full_by_id self layer_id) as [layer|]; [|discriminate].
  destruct (res (check_capabilities layer_id (map fst props) self t)); [|discriminate].
  destruct (_clamp_props self layer_id props) as [clamped|]; [|discriminate].
  rewrite bind_run, (run_set_run _ _ _ _ _ _ Hstore Hengine). cbv zeta.
  destruct (set_stacks layer_id clamped true store (S t)) as [Hhist _].
  destruct (res (set layer_id clamped true store (S t))) as [written'|] eqn:Hset;
    [|discriminate].
  destruct (get_layer_state_stacks layer_id
              (st (set layer_id clamped true store (S t)))
              (S (clk (set layer_id clamped true store (S t))))) as [Hhist' _].
  destruct (res (get_layer_state layer_id _ _)) as [planned|]; [|discriminate].
  cbn [res st clk]. rewrite bind_run. touch_step. cbn [res st clk ret fst].
  intros [= <- <-]. cbn [svc_store]. intros [= <-].
  rewrite Hset in Hset2. injection Hset2 as <-.
  split; [reflexivity|]. split; [reflexivity|].
  eexists _, _, _, written'.
  cbn [svc_store svc_engine svc_dom_layers svc_state_version svc_layer_map_full
       svc_layer_map_min svc_compile_manifest _counter active_runs completed_runs].
  split; [reflexivity|]. split; [reflexivity|]. split; [reflexivity|].
  split; [reflexivity|]. split; [rewrite Hhist', Hhist; reflexivity|].
  split; [reflexivity|]. split; [rewrite !delete_insert_eq; reflexivity|].
  split; [reflexivity|].
  cbn [run_id kind status started_at finished_at steps length].
  repeat match goal with |- _ /\ _ => split end;
    first [reflexivity | exact Hset | exact Hstored | exact Htracked | eauto].
Qed.

(** X19: the books of a mutation the store refuses.  When the props pass
    the service's checks and the store's [set] then raises (a value of [x],
    [y] or [scale] it cannot convert, a layer tree too deep), the exception
    leaves [set_layer_state] with the run taken and never finished: the
    counter has grown, the run is among the active runs with status
    [running] and no step, nothing is added to the completed runs; the
    store has its new snapshot all the same, and the state version and the
    external snapshot are as they were. *)
Theorem refused_by_store_books (layer_id : string) (props clamped : list (string * value))
    (layer : LayerRow) (e : exn) (self : RuntimeService) (t : nat)
    (store : StateStore) (engine : ExecutionEngine) :
  svc_store self = Some store ->
  svc_engine self = Some engine ->
  _layer_full_by_id self layer_id = Ok layer ->
  Forall (fun key => _has_capability self layer_id key = Ok true) (map fst props) ->
  _clamp_props self layer_id props = Ok clamped ->
  res (set layer_id clamped true store (S t)) = Raise e ->
  let r := set_layer_state layer_id props self t in
  let rid := "run_" +:+ zfill6 (pretty (S (_counter engine))) in
  res r = Raise e
  /\ exists store' engine',
       svc_store (st r) = Some store'
       /\ svc_engine (st r) = Some engine'
       /\ history store' = history store ++ [ensured layer_id store (S t)]
       /\ _counter engine' = S (_counter engine)
       /\ active_runs engine' !! rid
          = Some (mkRunRecord rid "set" "running" (iso_of t) None [])
       /\ completed_runs engine' = completed_runs engine
       /\ svc_state_version (st r) = svc_state_version self
       /\ svc_dom_layers (st r) = svc_dom_layers self.
Proof.
  intros Hstore Hengine Hlayer Hcaps Hclamp Hset. cbv zeta.
  rewrite (set_layer_state_run _ _ _ _ _ _ Hstore Hengine), Hlayer.
  rewrite (check_capabilities_pass _ _ _ _ Hcaps). cbn [res]. rewrite Hclamp.
  rewrite bind_run, (run_set_run _ _ _ _ _ _ Hstore Hengine). cbv zeta.
  destruct (set_stacks layer_id clamped true store (S t)) as [Hhist _].
  rewrite Hset. cbn [res st clk].
  split; [reflexivity|]. eexists _, _.
  cbn [svc_store svc_engine svc_dom_layers svc_state_version _counter active_runs
       completed_runs].
  split; [reflexivity|]. split; [reflexivity|]. split; [exact Hhist|].
  split; [reflexivity|]. split; [apply lookup_insert_eq|].
  repeat split.
Qed.


End ServiceRuns.

(** ** Undo and redo through the service *)

Section ServiceUndo.
Context {rt : PyRuntime} {libs : CompilerLibs}.

(** The service a mutation that returns leaves. *)
Lemma set_layer_state_returned layer_id props output self t store engine :
  svc_store self = Some store ->
  svc_engine self = Some engine ->
  res (set_layer_state layer_id props self t) = Ok output ->
  exists store' engine',
    st (set_layer_state layer_id props self t)
    = mkService (svc_svg_text self) (svc_compiler self) (svc_layer_map_min self)
        (svc_layer_map_full self) (svc_compile_manifest self) (Some store')
        (Some engine') (current store') (S (svc_state_version self))
    /\ history store' = history store ++ [ensured layer_id store (S t)]
    /\ future store' = [].
Proof.
  intros Hstore Hengine.
  rewrite (set_layer_state_run _ _ _ _ _ _ Hstore Hengine).
  destruct (_layer_full_by_id self layer_id) as [layer|]; [|discriminate].
  destruct (res (check_capabilities layer_id (map fst props) self t)); [|discriminate].
  destruct (_clamp_props self layer_id props) as [clamped|]; [|discriminate].
  rewrite bind_run, (run_set_run _ _ _ _ _ _ Hstore Hengine). cbv zeta.
  destruct (set_stacks layer_id clamped true store (S t)) as [Hhist Hfut].
  destruct (res (set layer_id clamped true store (S t))) as [written|]; [|discriminate].
  destruct (get_layer_state_stacks layer_id
              (st (set layer_id clamped true store (S t)))
              (S (clk (set layer_id clamped true store (S t))))) as [Hhist' Hfut'].
  destruct (res (get_layer_state layer_id _ _)) as [planned|]; [|discriminate].
  cbn [res st clk].
  rewrite bind_run. touch_step. cbn [res st clk].
  intros _. eexists _, _. split; [reflexivity|].
  split; [rewrite Hhist', Hhist; reflexivity | rewrite Hfut', Hfut; reflexivity].
Qed.

Lemma service_undo_run self store t :
  svc_store self = Some store ->
  service_undo self t
  = match pop (history store) with
    | None => mkRun (Ok false) self t
    | Some (history', top) =>
        mkRun (Ok true)
          (mkService (svc_svg_text self) (svc_compiler self) (svc_layer_map_min self)
             (svc_layer_map_full self) (svc_compile_manifest self)
             (Some (mkStore (layer_tree store) top history' (future store ++ [current store])))
             (svc_engine self) top (S (svc_state_version self))) t
    end.
Proof.
  intros Hstore. unfold service_undo. rewrite bind_run. store_step Hstore.
  destruct (pop (history store)) as [[history' top]|] eqn:Hpop.
  - apply pop_Some_inv in Hpop. rewrite (undo_top store t _ _ Hpop). cbn [res st clk].
    rewrite bind_run. touch_step. reflexivity.
  - apply pop_nil_inv in Hpop. rewrite (undo_empty store t Hpop). cbn [res st clk].
    rewrite <- Hstore. destruct self; reflexivity.
Qed.

Lemma service_redo_run self store t :
  svc_store self = Some store ->
  service_redo self t
  = match pop (future store) with
    | None => mkRun (Ok false) self t
    | Some (future', top) =>
        mkRun (Ok true)
          (mkService (svc_svg_text self) (svc_compiler self) (svc_layer_map_min self)
             (svc_layer_map_full self) (svc_compile_manifest self)
             (Some (mkStore (layer_tree store) top (history store ++ [current store]) future'))
             (svc_engine self) top (S (svc_state_version self))) t
    end.
Proof.
  intros Hstore. unfold service_redo. rewrite bind_run. store_step Hstore.
  destruct (pop (future store)) as [[future' top]|] eqn:Hpop.
  - apply pop_Some_inv in Hpop. rewrite (redo_top store t _ _ Hpop). cbn [res st clk].
    rewrite bind_run. touch_step. reflexivity.
  - apply pop_nil_inv in Hpop. rewrite (redo_empty store t Hpop). cbn [res st clk].
    rewrite <- Hstore. destruct self; reflexivity.
Qed.

(** X20: a mutation is undone through the service.  After a
    [set_layer_state] that returned, the service's [undo] returns [True]
    without reading the clock: the store's state map and the external
    snapshot are the state map as it was before the mutation (with a default
    state for the layer, had the store none), the undo stack is as it was
    before the mutation, the engine's books keep the run, and the state
    version has grown once more.  A [redo] right after returns [True] and
    brings back the store and the snapshot the mutation left, the state
    version growing again. *)
Theorem service_undo_reverts_mutation (layer_id : string) (props : list (string * value))
    (output : list (string * value) * string) (self : RuntimeService) (t t' : nat)
    (store : StateStore) (engine : ExecutionEngine) :
  svc_store self = Some store ->
  svc_engine self = Some engine ->
  res (set_layer_state layer_id props self t) = Ok output ->
  let after := st (set_layer_state layer_id props self t) in
  let before := ensured layer_id store (S t) in
  let undone := service_undo after t' in
  let redone := service_redo (st undone) t' in
  (is_Some (current store !! layer_id) -> before = current store)
  /\ res undone = Ok true /\ clk undone = t'
  /\ (current <$> svc_store (st undone)) = Some before
  /\ (history <$> svc_store (st undone)) = Some (history store)
  /\ svc_dom_layers (st undone) = before
  /\ svc_state_version (st undone) = S (S (svc_state_version self))
  /\ svc_engine (st undone) = svc_engine after
  /\ res redone = Ok true
  /\ svc_store (st redone) = svc_store after
  /\ svc_dom_layers (st redone) = svc_dom_layers after
  /\ svc_state_version (st redone) = S (S (S (svc_state_version self))).
Proof.
  intros Hstore Hengine Hres. cbv zeta.
  split; [apply ensured_known|].
  destruct (set_layer_state_returned _ _ _ _ _ _ _ Hstore Hengine Hres)
    as (store' & engine' & -> & Hhist & Hfut).
  match goal with |- context [service_undo ?s t'] =>
    rewrite (service_undo_run s store' t' eq_refl), Hhist, pop_snoc, Hfut
  end.
  cbn [res st clk svc_store svc_engine svc_dom_layers svc_state_version fmap
       option_fmap option_map current history app svc_svg_text svc_compiler
       svc_layer_map_min svc_layer_map_full svc_compile_manifest].
  repeat (split; [reflexivity|]).
  match goal with |- context [service_redo ?s t'] =>
    rewrite (service_redo_run s _ t' eq_refl)
  end.
  cbn [future pop]. cbn [res st clk svc_store svc_engine svc_dom_layers svc_state_version
                        current history layer_tree svc_svg_text svc_compiler
                        svc_layer_map_min svc_layer_map_full svc_compile_manifest].
  rewrite <- Hhist, <- Hfut. destruct store'; repeat split; reflexivity.
Qed.

(** X21: nothing to undo.  On a service with no store, [undo] and [redo]
    raise [RuntimeError] and change nothing.  With an empty undo stack,
    [undo] returns [False] and leaves the service, its state version and
    the clock as they were, and so does [redo] with an empty redo stack; when
    either returns [True], the state version has grown by one and the
    external snapshot is the state map of the store. *)
Theorem service_undo_nothing (self : RuntimeService) (t : nat) :
  (svc_store self = None ->
   service_undo self t = mkRun (Raise (RuntimeError "State store is not initialized")) self t
   /\ service_redo self t
      = mkRun (Raise (RuntimeError "State store is not initialized")) self t)
  /\ (forall store,
        svc_store self = Some store ->
        (history store = [] -> service_undo self t = mkRun (Ok false) self t)
        /\ (future store = [] -> service_redo self t = mkRun (Ok false) self t)
        /\ (res (service_undo self t) = Ok true ->
            svc_state_version (st (service_undo self t)) = S (svc_state_version self)
            /\ (current <$> svc_store (st (service_undo self t)))
               = Some (svc_dom_layers (st (service_undo self t))))
        /\ (res (service_redo self t) = Ok true ->
            svc_state_version (st (service_redo self t)) = S (svc_state_version self)
            /\ (current <$> svc_store (st (service_redo self t)))
               = Some (svc_dom_layers (st (service_redo self t))))).
Proof.
  split.
  - intros Hnone. unfold service_undo, service_redo, on_store.
    rewrite !bind_run, Hnone. split; reflexivity.
  - intros store Hstore. split; [|split; [|split]].
    + intros Hh. rewrite (service_undo_run _ _ _ Hstore), Hh. reflexivity.
    + intros Hf. rewrite (service_redo_run _ _ _ Hstore), Hf. reflexivity.
    + rewrite (service_undo_run _ _ _ Hstore).
      destruct (pop (history store)) as [[h top]|]; [|discriminate].
      intros _. split; reflexivity.
    + rewrite (service_redo_run _ _ _ Hstore).
      destruct (pop (future store)) as [[f top]|]; [|discriminate].
      intros _. split; reflexivity.
Qed.

End ServiceUndo.
(** ** Compiling into the service *)

Section CompileSvg.
Context {rt : PyRuntime} {libs : CompilerLibs}.

Lemma from_layers_stacks {St} layers :
  forall store (s : St) t,
    exists built,
      from_layers layers store s t = mkRun (Ok built) s (t + length layers)
      /\ (history store = [] -> history built = [])
      /\ (future store = [] -> future built = []).
Proof.
  induction layers as [|layer rest IH]; intros store s t.
  - exists store. simpl. rewrite Nat.add_0_r. split; [reflexivity|]. split; intros H; exact H.
  - rewrite from_layers_cons. cbn [length]. rewrite Nat.add_succ_r.
    destruct (IH (mkStore (<[lid layer := children layer]> (layer_tree store))
                    (<[lid layer := default_state (defaultOrigin layer) (iso_of t)]>
                       (current store)) [] []) s (S t)) as (built & Hrun & Hh & Hf).
    exists built. split; [exact Hrun|]. split; intros _; [apply Hh | apply Hf]; reflexivity.
Qed.

Lemma compile_svg_run svg_text force self t :
  compile_svg svg_text force self t
  = if is_cached self svg_text force then mkRun (Ok tt) self t
    else (result <- compile (svc_compiler self) svg_text ;;
          store <- from_layer_map_full (layer_map_full result) ;;
          put (mkService svg_text (svc_compiler self) (Some (layer_map_min result))
                 (Some (layer_map_full result)) (compile_manifest result) (Some store)
                 (Some (mkEngine O ∅ ∅)) (current store) O)) self t.
Proof.
  unfold compile_svg, is_cached. step_by ltac:(idtac; reflexivity).
  fold (previous_manifest self).
  destruct (needs_recompile (svc_compiler self) svg_text (previous_manifest self) force)
    as [should reason].
  cbn [fst]. destruct (negb should && _ && _); reflexivity.
Qed.

(** What [compile_svg] does when it compiles. *)
Lemma compile_svg_fresh svg_text force self t root :
  is_cached self svg_text force = false ->
  fromstring svg_text = Some root ->
  frames root <= recursion_limit ->
  exists result store,
    compile (svc_compiler self) svg_text self t = mkRun (Ok result) self (S t)
    /\ from_layer_map_full (layer_map_full result) self (S t)
       = mkRun (Ok store) self (S t + length (layers (layer_map_full result)))
    /\ history store = [] /\ future store = []
    /\ compile_svg svg_text force self t
       = mkRun (Ok tt)
           (mkService svg_text (svc_compiler self) (Some (layer_map_min result))
              (Some (layer_map_full result)) (compile_manifest result) (Some store)
              (Some (mkEngine O ∅ ∅)) (current store) O)
           (S t + length (layers (layer_map_full result))).
Proof.
  intros Hcached Hroot Hframes.
  assert (Hcompile : exists result,
            compile (svc_compiler self) svg_text self t = mkRun (Ok result) self (S t)).
  { rewrite compile_run, Hroot. pose proof (collect_layers_run root) as Hrun.
    destruct (_collect_layers root); [|lia]. eexists. reflexivity. }
  destruct Hcompile as (result & Hcompile).
  destruct (from_layers_stacks (layers (layer_map_full result)) (mkStore ∅ ∅ [] []) self (S t))
    as (store & Hbuilt & Hh & Hf).
  exists result, store. split; [exact Hcompile|]. split; [exact Hbuilt|].
  split; [apply Hh; reflexivity|]. split; [apply Hf; reflexivity|].
  rewrite compile_svg_run, Hcached.
  step_by ltac:(idtac; exact Hcompile).
  step_by ltac:(idtac; exact Hbuilt).
  reflexivity.
Qed.

(** A compilation that raises leaves the service as it was. *)
Lemma compile_svg_raises svg_text force self t e t' :
  is_cached self svg_text force = false ->
  compile (svc_compiler self) svg_text self t = mkRun (Raise e) self t' ->
  compile_svg svg_text force self t = mkRun (Raise e) self t'.
Proof.
  intros Hcached Hcompile. rewrite compile_svg_run, Hcached.
  apply (bind_raise _ _ _ _ _ _ _ Hcompile).
Qed.

Lemma compile_svg_too_deep svg_text force self t root :
  is_cached self svg_text force = false ->
  fromstring svg_text = Some root ->
  recursion_limit < frames root ->
  compile_svg svg_text force self t = mkRun (Raise RecursionError) self (S t).
Proof.
  intros Hcached Hroot Hdeep. apply (compile_svg_raises _ _ _ _ _ _ Hcached).
  rewrite compile_run, Hroot. pose proof (collect_layers_run root) as Hrun.
  destruct (_collect_layers root) as [|e]; [lia|]. destruct Hrun as [-> _]. reflexivity.
Qed.

Lemma compile_svg_parse_error svg_text force self t :
  is_cached self svg_text force = false ->
  fromstring svg_text = None ->
  compile_svg svg_text force self t = mkRun (Raise ParseError) self t.
Proof.
  intros Hcached Hroot. apply (compile_svg_raises _ _ _ _ _ _ Hcached).
  rewrite compile_run, Hroot. reflexivity.
Qed.

Lemma needs_recompile_current self svg_text (manifest : gmap string value) :
  size manifest <> 0 ->
  manifest !! "sourceChecksum" = Some (VStr (source_checksum self svg_text)) ->
  manifest !! "compilerVersion" = Some (VStr (compiler_version self)) ->
  needs_recompile self svg_text (Some manifest) false = (false, None).
Proof.
  intros Hsize Hsum Hver. unfold needs_recompile.
  rewrite (bool_decide_false _ Hsize), Hsum, Hver. cbn [default from_option id].
  rewrite !(proj2 (py_eqb_str _ _) eq_refl). reflexivity.
Qed.

Lemma needs_recompile_changed self svg_text previous force :
  force = true
  \/ (previous ≫= (.!! "sourceChecksum")) <> Some (VStr (source_checksum self svg_text)) ->
  fst (needs_recompile self svg_text previous force) = true.
Proof.
  intros Hwhy. unfold needs_recompile.
  destruct force; [reflexivity|]. destruct Hwhy as [[=]|Hsum].
  destruct previous as [manifest|]; [|reflexivity]. cbn [mbind option_bind] in Hsum.
  destruct (bool_decide (size manifest = 0)); [reflexivity|].
  rewrite (proj2 (py_eqb_str_false _ _)); [reflexivity|].
  destruct (manifest !! "sourceChecksum") as [v|]; cbn [default from_option id];
    congruence.
Qed.

(** X22: compiling the same source again does nothing.  Once [compile_svg]
    has returned for a source text, forced or not, a [compile_svg] of the
    same text without [force] returns at once, with the service and the
    clock as they are: on the service as the first call left it, and on any
    service with the same compiler, layer maps and manifest, whatever its
    store, engine, snapshot and state version are, so that the states set
    since, the undo stack and the run records survive it. *)
Theorem compile_svg_is_cached (svg_text : string) (force : bool) (self : RuntimeService)
    (t : nat) :
  res (compile_svg svg_text force self t) = Ok tt ->
  let after := st (compile_svg svg_text force self t) in
  forall later t',
    svc_compiler later = svc_compiler after ->
    svc_layer_map_min later = svc_layer_map_min after ->
    svc_layer_map_full later = svc_layer_map_full after ->
    svc_compile_manifest later = svc_compile_manifest after ->
    compile_svg svg_text false later t' = mkRun (Ok tt) later t'.
Proof.
  intros Hres. cbv zeta. intros later t' Hcompiler Hmin Hfull Hmanifest.
  assert (Hlater : is_cached later svg_text false = true);
    [|rewrite compile_svg_run, Hlater; reflexivity].
  unfold is_cached, previous_manifest. rewrite Hcompiler, Hmin, Hfull, Hmanifest.
  clear later Hcompiler Hmin Hfull Hmanifest.
  destruct (is_cached self svg_text force) eqn:Hcached.
  - rewrite compile_svg_run, Hcached. cbn [st].
    destruct force; [|exact Hcached].
    unfold is_cached, needs_recompile in Hcached. discriminate.
  - destruct (fromstring svg_text) as [root|] eqn:Hroot.
    + destruct (Nat.le_gt_cases (frames root) recursion_limit) as [Hframes|Hdeep].
      * destruct (compile_svg_fresh svg_text force self t root Hcached Hroot Hframes)
          as (result & store & Hcompile & _ & _ & _ & ->).
        cbn [st svc_compiler svc_layer_map_min svc_layer_map_full svc_compile_manifest].
        apply (f_equal res) in Hcompile. cbn [res] in Hcompile.
        destruct (compile_manifest_lookups _ _ _ _ _ Hcompile) as (Hsum & Hver & Hsize).
        rewrite (bool_decide_false _ Hsize).
        rewrite (needs_recompile_current _ _ _ Hsize Hsum Hver).
        cbn [fst negb andb]. rewrite !bool_decide_true by (eexists; reflexivity).
        reflexivity.
      * rewrite (compile_svg_too_deep svg_text force self t root Hcached Hroot Hdeep) in Hres.
        discriminate.
    + rewrite (compile_svg_parse_error svg_text force self t Hcached Hroot) in Hres.
      discriminate.
Qed.

(** X23: a compilation starts the service anew.  When [compile_svg] is
    forced, or the manifest does not carry the checksum of the text, then for
    a source that parses into a document the frame budget suffices for it
    returns with the text, the layer maps and the manifest of that
    compilation, the store [from_layer_map_full] builds from the full map
    with empty undo and redo stacks, that store's state map as external
    snapshot, an engine with counter 0 and no run, and state version 0:
    states set before, the undo history and the run records are gone.  For a
    document that takes more frames than the budget it raises
    [RecursionError] with the service as it was, the clock read once, and
    for a source that does not parse it raises with the service and the
    clock as they were. *)
Theorem compile_svg_starts_anew (svg_text : string) (force : bool) (self : RuntimeService)
    (t : nat) :
  force = true
  \/ svc_compile_manifest self !! "sourceChecksum"
     <> Some (VStr (source_checksum (svc_compiler self) svg_text)) ->
  match fromstring svg_text with
  | None => compile_svg svg_text force self t = mkRun (Raise ParseError) self t
  | Some root =>
      (recursion_limit < frames root ->
       compile_svg svg_text force self t = mkRun (Raise RecursionError) self (S t))
      /\ (frames root <= recursion_limit ->
          let after := st (compile_svg svg_text force self t) in
          res (compile_svg svg_text force self t) = Ok tt
          /\ exists result store,
               res (compile (svc_compiler self) svg_text self t) = Ok result
               /\ res (from_layer_map_full (layer_map_full result) self (S t)) = Ok store
               /\ clk (compile_svg svg_text force self t)
                  = S t + length (layers (layer_map_full result))
               /\ svc_svg_text after = svg_text
               /\ svc_compiler after = svc_compiler self
               /\ svc_layer_map_min after = Some (layer_map_min result)
               /\ svc_layer_map_full after = Some (layer_map_full result)
               /\ svc_compile_manifest after = compile_manifest result
               /\ svc_store after = Some store
               /\ history store = [] /\ future store = []
               /\ svc_dom_layers after = current store
               /\ svc_engine after = Some (mkEngine 0 ∅ ∅)
               /\ svc_state_version after = 0)
  end.
Proof.
  intros Hwhy.
  assert (Hcached : is_cached self svg_text force = false).
  { unfold is_cached. rewrite needs_recompile_changed; [reflexivity|].
    destruct Hwhy as [->|Hsum]; [left; reflexivity | right].
    unfold previous_manifest. case_bool_decide as Hsize; [discriminate | exact Hsum]. }
  destruct (fromstring svg_text) as [root|] eqn:Hroot;
    [|apply (compile_svg_parse_error svg_text force self t Hcached Hroot)].
  split; [apply (compile_svg_too_deep svg_text force self t root Hcached Hroot)|].
  intros Hframes.
  destruct (compile_svg_fresh svg_text force self t root Hcached Hroot Hframes)
    as (result & store & Hcompile & Hbuilt & Hh & Hf & ->).
  cbv zeta. cbn [res st clk]. split; [reflexivity|]. exists result, store.
  rewrite Hcompile, Hbuilt. cbn [res svc_svg_text svc_compiler svc_layer_map_min
    svc_layer_map_full svc_compile_manifest svc_store svc_dom_layers svc_engine
    svc_state_version].
  repeat (split; [first [reflexivity | assumption]|]). reflexivity.
Qed.

End CompileSvg.
(** ** Run ids *)

Lemma digit_value_char (x : N) : (x < 10)%N -> digit_value (pretty_N_char x) = x.
Proof.
  intros Hx. rewrite <- (N2Nat.id x). assert (Hn : N.to_nat x < 10) by lia.
  revert Hn. generalize (N.to_nat x) as n. intros n Hn.
  do 10 (destruct n as [|n]; [reflexivity|]). lia.
Qed.

Lemma decimal_value_go (x : N) :
  forall s, decimal_value (pretty_N_go x s)
            = (x * 10 ^ N.of_nat (String.length s) + decimal_value s)%N.
Proof.
  induction (N.lt_wf_0 x) as [x _ IH]. intros s.
  destruct (decide (x = 0%N)) as [->|Hx].
  - rewrite pretty_N_go_0. lia.
  - rewrite pretty_N_go_step by lia.
    rewrite IH by (apply N.div_lt; lia).
    cbn [decimal_value String.length].
    rewrite digit_value_char by (apply N.mod_lt; lia).
    rewrite Nat2N.inj_succ, N.pow_succ_r'.
    pose proof (N.div_mod x 10 ltac:(lia)) as Hdiv.
    set (p := (10 ^ N.of_nat (String.length s))%N).
    set (q := (x `div` 10)%N) in *. set (r := (x `mod` 10)%N) in *.
    rewrite Hdiv. lia.
Qed.

Lemma decimal_value_pretty (n : nat) : decimal_value (pretty n) = N.of_nat n.
Proof.
  unfold pretty, pretty_nat, pretty, pretty_N.
  destruct (decide (N.of_nat n = 0%N)) as [->|_]; [reflexivity|].
  rewrite decimal_value_go. cbn [String.length decimal_value]. lia.
Qed.

Lemma decimal_value_zeros (k : nat) (digits : string) :
  decimal_value (of_chars (replicate k "0"%char) +:+ digits) = decimal_value digits.
Proof.
  induction k as [|k IH]; [reflexivity|].
  change (of_chars (replicate (S k) "0"%char) +:+ digits)
    with (String "0" (of_chars (replicate k "0"%char) +:+ digits)).
  cbn [decimal_value]. rewrite IH. change (digit_value "0") with 0%N. lia.
Qed.

Lemma run_name_inj (n m : nat) : run_name n = run_name m -> n = m.
Proof.
  intros H.
  change (String "r" (String "u" (String "n" (String "_" (zfill6 (pretty n)))))
          = String "r" (String "u" (String "n" (String "_" (zfill6 (pretty m)))))) in H.
  injection H as H. unfold zfill6 in H.
  apply (f_equal decimal_value) in H.
  rewrite !decimal_value_zeros, !decimal_value_pretty in H. lia.
Qed.

(** ** The engine's books stay in order *)

Section EngineBooks.
Context {rt : PyRuntime} {libs : CompilerLibs}.

Lemma books_ok_fresh e :
  books_ok e ->
  active_runs e !! run_name (S (_counter e)) = None
  /\ completed_runs e !! run_name (S (_counter e)) = None.
Proof.
  intros [Hactive Hdone]. split.
  - destruct (active_runs e !! run_name (S (_counter e))) as [run|] eqn:E; [|reflexivity].
    destruct (Hactive _ _ E) as (_ & _ & _ & _ & n & Hn & Hname).
    apply run_name_inj in Hname. lia.
  - destruct (completed_runs e !! run_name (S (_counter e))) as [run|] eqn:E; [|reflexivity].
    destruct (Hdone _ _ E) as (_ & _ & _ & n & Hn & Hname).
    apply run_name_inj in Hname. lia.
Qed.

Lemma named_run_next e active done rid :
  named_run e rid -> named_run (mkEngine (S (_counter e)) active done) rid.
Proof. intros (n & Hn & ->). exists n. cbn [_counter]. split; [lia | reflexivity]. Qed.

Lemma named_run_new e active done :
  named_run (mkEngine (S (_counter e)) active done) (run_name (S (_counter e))).
Proof. exists (S (_counter e)). cbn [_counter]. split; [lia | reflexivity]. Qed.

Lemma books_ok_counted e :
  books_ok e -> books_ok (mkEngine (S (_counter e)) (active_runs e) (completed_runs e)).
Proof.
  intros [Hactive Hdone]. split; cbn [active_runs completed_runs]; intros rid run Hrun.
  - destruct (Hactive _ _ Hrun) as (? & ? & ? & ? & ?).
    repeat split; try assumption. apply named_run_next. assumption.
  - destruct (Hdone _ _ Hrun) as (? & ? & ? & ?).
    repeat split; try assumption. apply named_run_next. assumption.
Qed.

(** The books with the next run taken and running. *)
Lemma books_ok_started e run :
  books_ok e ->
  run_id run = run_name (S (_counter e)) -> status run = "running" -> finished_at run = None ->
  books_ok (mkEngine (S (_counter e)) (<[run_name (S (_counter e)) := run]> (active_runs e))
              (completed_runs e)).
Proof.
  intros Hok Hid Hstatus Hfin. destruct (books_ok_fresh e Hok) as [_ Hfresh].
  destruct Hok as [Hactive Hdone].
  split; cbn [active_runs completed_runs]; intros rid run' Hrun.
  - destruct (decide (rid = run_name (S (_counter e)))) as [->|Hne].
    + rewrite lookup_insert_eq in Hrun. injection Hrun as <-.
      repeat split; try assumption. apply named_run_new.
    + rewrite lookup_insert_ne in Hrun by congruence.
      destruct (Hactive _ _ Hrun) as (? & ? & ? & ? & ?).
      repeat split; try assumption. apply named_run_next. assumption.
  - destruct (Hdone _ _ Hrun) as (? & ? & ? & ?).
    repeat split; try assumption. apply named_run_next. assumption.
Qed.

(** The books with the next run taken and finished. *)
Lemma books_ok_finished e active run :
  books_ok e ->
  run_id run = run_name (S (_counter e)) -> status run = "completed" ->
  is_Some (finished_at run) ->
  (forall rid, rid <> run_name (S (_counter e)) -> active !! rid = active_runs e !! rid) ->
  books_ok (mkEngine (S (_counter e)) (delete (run_name (S (_counter e))) active)
              (<[run_name (S (_counter e)) := run]> (completed_runs e))).
Proof.
  intros [Hactive Hdone] Hid Hstatus Hfin Hsame.
  split; cbn [active_runs completed_runs]; intros rid run' Hrun.
  - destruct (decide (rid = run_name (S (_counter e)))) as [->|Hne].
    + rewrite lookup_delete_eq in Hrun. discriminate.
    + rewrite lookup_delete_ne, Hsame in Hrun by congruence.
      rewrite lookup_insert_ne by congruence.
      destruct (Hactive _ _ Hrun) as (? & ? & ? & ? & ?).
      repeat split; try assumption. apply named_run_next. assumption.
  - destruct (decide (rid = run_name (S (_counter e)))) as [->|Hne].
    + rewrite lookup_insert_eq in Hrun. injection Hrun as <-.
      split; [assumption|]. split; [rewrite Hstatus; apply list_elem_of_here|].
      split; [assumption | apply named_run_new].
    + rewrite lookup_insert_ne in Hrun by congruence.
      destruct (Hdone _ _ Hrun) as (? & ? & ? & ?).
      repeat split; try assumption. apply named_run_next. assumption.
Qed.


Lemma cancel_run_run rid e t :
  cancel_run rid e t
  = match active_runs e !! rid with
    | None => mkRun (Ok false) e t
    | Some run =>
        mkRun (Ok true)
          (mkEngine (_counter e) (delete rid (active_runs e))
             (<[rid := mkRunRecord (run_id run) (kind run) "cancelled" (started_at run)
                         (Some (iso_of t)) (steps run)]> (completed_runs e)))
          (S t)
    end.
Proof.
  unfold cancel_run. step_by ltac:(idtac; reflexivity).
  destruct (active_runs e !! rid) as [run|]; [|reflexivity].
  step_by ltac:(idtac; reflexivity). step_by ltac:(idtac; reflexivity). reflexivity.
Qed.

Lemma books_ok_cancel rid :
  maintains books_ok (cancel_run rid) (fun _ => True).
Proof.
  intros e t [Hactive Hdone]. split; [|intros; exact I].
  rewrite cancel_run_run.
  destruct (active_runs e !! rid) as [run|] eqn:Hrun; [|split; assumption].
  destruct (Hactive _ _ Hrun) as (Hid & _ & _ & _ & Hnamed).
  cbn [st]. split; cbn [active_runs completed_runs]; intros rid' run' Hrun'.
  - destruct (decide (rid' = rid)) as [->|Hne].
    + rewrite lookup_delete_eq in Hrun'. discriminate.
    + rewrite lookup_delete_ne in Hrun' by congruence.
      rewrite lookup_insert_ne by congruence.
      destruct (Hactive _ _ Hrun') as (? & ? & ? & ? & (n & ? & ?)).
      repeat split; try assumption. exists n. split; assumption.
  - destruct (decide (rid' = rid)) as [->|Hne].
    + rewrite lookup_insert_eq in Hrun'. injection Hrun' as <-.
      cbn [run_id status finished_at].
      split; [assumption|]. split; [apply list_elem_of_further, list_elem_of_here|].
      split; [eexists; reflexivity|].
      destruct Hnamed as (n & ? & ?). exists n. split; assumption.
    + rewrite lookup_insert_ne in Hrun' by congruence.
      destruct (Hdone _ _ Hrun') as (? & ? & ? & (n & ? & ?)).
      repeat split; try assumption. exists n. split; assumption.
Qed.

Lemma on_store_none {A} (m : M StateStore A) self t :
  svc_store self = None ->
  on_store m self t = mkRun (Raise (RuntimeError "State store is not initialized")) self t.
Proof. intros H. unfold on_store. rewrite H. reflexivity. Qed.

Lemma run_set_no_store layer_id props self e t :
  svc_store self = None ->
  svc_engine self = Some e ->
  run_set layer_id props self t
  = mkRun (Raise (RuntimeError "State store is not initialized"))
      (with_engine
         (Some (mkEngine (S (_counter e))
                  (<[run_name (S (_counter e)) :=
                       mkRunRecord (run_name (S (_counter e))) "set" "running" (iso_of t)
                         None []]> (active_runs e))
                  (completed_runs e))) self)
      (S t).
Proof.
  intros Hstore Hengine. unfold run_set.
  step_by ltac:(idtac; apply next_run_id_run; exact Hengine).
  step_by ltac:(idtac; reflexivity).
  step_by ltac:(idtac; apply the_engine_run; reflexivity).
  step_by ltac:(idtac; reflexivity).
  cbn [_counter active_runs completed_runs].
  lazymatch goal with
  | |- bind (on_store ?m) ?f ?s ?t' = _ =>
      rewrite (bind_raise (on_store m) f s t' _ s t' (on_store_none m s t' Hstore))
  end.
  reflexivity.
Qed.

(** The engine [run_set] leaves, whatever the store does. *)
Lemma run_set_engine layer_id props self e t :
  svc_engine self = Some e ->
  let rid := run_name (S (_counter e)) in
  let started := mkRunRecord rid "set" "running" (iso_of t) None [] in
  svc_engine (st (run_set layer_id props self t))
  = Some (mkEngine (S (_counter e)) (<[rid := started]> (active_runs e)) (completed_runs e))
  \/ exists applied finished,
       svc_engine (st (run_set layer_id props self t))
       = Some (mkEngine (S (_counter e))
                 (delete rid (<[rid := mkRunRecord rid "set" "running" (iso_of t) None
                                         [mkStep layer_id "set" applied]]>
                                (<[rid := started]> (active_runs e))))
                 (<[rid := mkRunRecord rid "set" "completed" (iso_of t) (Some finished)
                             [mkStep layer_id "set" applied]]> (completed_runs e))).
Proof.
  intros Hengine. cbv zeta.
  destruct (svc_store self) as [store|] eqn:Hstore.
  - pose proof (run_set_run layer_id props self store e t Hstore Hengine) as Hrun.
    cbv zeta in Hrun. rewrite Hrun.
    destruct (res (set layer_id props true store (S t))) as [applied|]; [|left; reflexivity].
    right. eexists _, _.
    destruct (res (get_layer_state layer_id _ _)); reflexivity.
  - left. rewrite (run_set_no_store layer_id props self e t Hstore Hengine). reflexivity.
Qed.

Lemma run_set_no_engine layer_id props self t :
  svc_engine self = None -> st (run_set layer_id props self t) = self.
Proof.
  intros Hengine. unfold run_set, _next_run_id, the_engine.
  rewrite !bind_run. cbn [get res st clk]. rewrite Hengine. reflexivity.
Qed.

Lemma books_run_set layer_id props :
  maintains service_books_ok (run_set layer_id props) (fun _ => True).
Proof.
  intros self t Hok. split; [|intros; exact I].
  destruct (svc_engine self) as [e|] eqn:Hengine.
  - specialize (Hok e Hengine). intros e' He'.
    destruct (run_set_engine layer_id props self e t Hengine)
      as [Hrun | (applied & finished & Hrun)];
      rewrite Hrun in He'; injection He' as <-.
    + apply books_ok_started; [exact Hok | reflexivity..].
    + apply books_ok_finished; [exact Hok | reflexivity | reflexivity | eexists; reflexivity |].
      intros rid Hne. rewrite !lookup_insert_ne by congruence. reflexivity.
  - rewrite (run_set_no_engine _ _ _ _ Hengine). intros e He. congruence.
Qed.

Lemma touch_state_engine self t : svc_engine (st (_touch_state self t)) = svc_engine self.
Proof.
  unfold _touch_state. rewrite bind_run. cbn [get res st clk].
  destruct (svc_store self); reflexivity.
Qed.

Lemma books_touch_state : maintains service_books_ok _touch_state (fun _ => True).
Proof.
  intros self t Hok. split; [|intros; exact I].
  intros e. rewrite touch_state_engine. apply Hok.
Qed.

Lemma check_capabilities_keeps layer_id keys :
  maintains service_books_ok (check_capabilities layer_id keys) (fun _ => True).
Proof.
  intros self t Hok. split; [|intros; exact I].
  destruct (check_capabilities_reads layer_id keys self t) as [-> _]. exact Hok.
Qed.

Lemma books_set_layer_state layer_id props :
  maintains service_books_ok (set_layer_state layer_id props) (fun _ => True).
Proof.
  unfold set_layer_state.
  eapply maintains_bind; [apply maintains_get|]. intros self _.
  destruct (svc_store self), (svc_engine self); try apply maintains_raise.
  eapply maintains_bind; [apply maintains_lift_true|]. intros _ _.
  eapply maintains_bind; [apply check_capabilities_keeps|]. intros _ _.
  eapply maintains_bind; [apply maintains_lift_true|]. intros clamped _.
  eapply maintains_bind; [apply books_run_set|]. intros result _.
  eapply maintains_bind; [apply books_touch_state|]. intros _ _.
  apply maintains_ret_true.
Qed.

Lemma on_store_engine {A} (m : M StateStore A) self t :
  svc_engine (st (on_store m self t)) = svc_engine self.
Proof. unfold on_store. destruct (svc_store self); reflexivity. Qed.

Lemma books_on_store {A} (m : M StateStore A) :
  maintains service_books_ok (on_store m) (fun _ => True).
Proof.
  intros self t Hok. split; [|intros; exact I].
  intros e. rewrite on_store_engine. apply Hok.
Qed.

Lemma books_empty : books_ok (mkEngine 0 ∅ ∅).
Proof.
  split; cbn [active_runs completed_runs]; intros rid run Hrun;
    rewrite lookup_empty in Hrun; discriminate.
Qed.

Lemma books_compile_svg svg_text force :
  maintains service_books_ok (compile_svg svg_text force) (fun _ => True).
Proof.
  intros self t Hok. split; [|intros; exact I].
  destruct (is_cached self svg_text force) eqn:Hcached;
    [rewrite compile_svg_run, Hcached; exact Hok|].
  destruct (fromstring svg_text) as [root|] eqn:Hroot.
  - destruct (Nat.le_gt_cases (frames root) recursion_limit) as [Hframes|Hdeep].
    + destruct (compile_svg_fresh svg_text force self t root Hcached Hroot Hframes)
        as (result & store & _ & _ & _ & _ & ->).
      cbn [st]. intros e [= <-]. apply books_empty.
    + rewrite (compile_svg_too_deep svg_text force self t root Hcached Hroot Hdeep).
      exact Hok.
  - rewrite (compile_svg_parse_error svg_text force self t Hcached Hroot). exact Hok.
Qed.

(** X24: the engine's books stay in order.  The books of a new engine are
    in order, and whatever is called on the service or the engine, with any
    arguments and whether the call returns or raises, leaves them in order:
    every run record is filed under its own id, which is [run_] and a
    counter value the engine has reached; an active run is running, has no
    finishing time and is not among the completed runs; a completed run is
    completed or cancelled and has a finishing time.  Two counter values
    never give one id, so the id the next run takes is in neither book. *)
Theorem run_books_stay_in_order :
  books_ok (mkEngine 0 ∅ ∅)
  /\ (forall n m, run_name n = run_name m -> n = m)
  /\ (forall e, books_ok e ->
        active_runs e !! run_name (S (_counter e)) = None
        /\ completed_runs e !! run_name (S (_counter e)) = None)
  /\ (forall rid, maintains books_ok (cancel_run rid) (fun _ => True))
  /\ (forall layer_id props,
        maintains service_books_ok (run_set layer_id props) (fun _ => True))
  /\ (forall layer_id props,
        maintains service_books_ok (set_layer_state layer_id props) (fun _ => True))
  /\ (forall layer_id z,
        maintains service_books_ok (set_layer_depth layer_id z) (fun _ => True))
  /\ (forall layer_id effect,
        maintains service_books_ok (set_effect_layer layer_id effect) (fun _ => True))
  /\ maintains service_books_ok service_undo (fun _ => True)
  /\ maintains service_books_ok service_redo (fun _ => True)
  /\ (forall svg_text force,
        maintains service_books_ok (compile_svg svg_text force) (fun _ => True)).
Proof.
  split; [apply books_empty|]. split; [apply run_name_inj|].
  split; [apply books_ok_fresh|]. split; [apply books_ok_cancel|].
  split; [apply books_run_set|]. split; [apply books_set_layer_state|].
  split; [|split; [|split; [|split]]].
  - intros layer_id z. unfold set_layer_depth.
    eapply maintains_bind; [apply books_set_layer_state|]. intros output _.
    destruct (assoc "z" output.1); [apply maintains_lift_true | apply maintains_raise].
  - intros layer_id effect. unfold set_effect_layer.
    eapply maintains_bind; [apply maintains_get|]. intros self _.
    eapply maintains_bind; [apply maintains_lift_true|]. intros layer _.
    destruct (negb _); [apply maintains_raise|].
    eapply maintains_bind; [apply books_set_layer_state|]. intros _ _.
    apply maintains_ret_true.
  - unfold service_undo.
    eapply maintains_bind; [apply books_on_store|]. intros ok _.
    eapply maintains_bind; [|intros _ _; apply maintains_ret_true].
    destruct ok; [apply books_touch_state | apply maintains_ret_true].
  - unfold service_redo.
    eapply maintains_bind; [apply books_on_store|]. intros ok _.
    eapply maintains_bind; [|intros _ _; apply maintains_ret_true].
    destruct ok; [apply books_touch_state | apply maintains_ret_true].
  - apply books_compile_svg.
Qed.

Lemma set_layer_state_engine layer_id props self e t :
  svc_engine self = Some e ->
  svc_engine (st (set_layer_state layer_id props self t)) = Some e
  \/ exists clamped,
       svc_engine (st (set_layer_state layer_id props self t))
       = svc_engine (st (run_set layer_id clamped self t)).
Proof.
  intros Hengine. destruct (svc_store self) as [store|] eqn:Hstore.
  - rewrite (set_layer_state_run _ _ _ _ _ _ Hstore Hengine).
    destruct (_layer_full_by_id self layer_id); [|left; exact Hengine].
    destruct (res (check_capabilities layer_id (map fst props) self t));
      [|left; exact Hengine].
    destruct (_clamp_props self layer_id props) as [clamped|]; [|left; exact Hengine].
    right. exists clamped. rewrite bind_run.
    destruct (res (run_set layer_id clamped self t)); [|reflexivity].
    rewrite bind_run.
    destruct (res (_touch_state _ _)); cbn [ret st]; apply touch_state_engine.
  - left. unfold set_layer_state. rewrite bind_run. cbn [get res st clk].
    rewrite Hstore. exact Hengine.
Qed.

(** X25: a mutation keeps the run records.  On a service whose books are
    in order, [set_layer_state], with any arguments and whether it returns
    or raises, leaves an engine whose counter has not gone down and has
    grown by one at most, in which every run that was completed is completed
    with the same record, and every run that was active is active with the
    same record: the run a mutation takes never writes over a record. *)
Theorem mutation_keeps_run_records (layer_id : string) (props : list (string * value))
    (self : RuntimeService) (e : ExecutionEngine) (t : nat) :
  svc_engine self = Some e ->
  books_ok e ->
  exists e',
    svc_engine (st (set_layer_state layer_id props self t)) = Some e'
    /\ _counter e <= _counter e' <= S (_counter e)
    /\ (forall rid run, completed_runs e !! rid = Some run ->
                        completed_runs e' !! rid = Some run)
    /\ (forall rid run, active_runs e !! rid = Some run ->
                        active_runs e' !! rid = Some run).
Proof.
  intros Hengine Hok. destruct (books_ok_fresh e Hok) as [Hfresh Hfresh'].
  destruct (set_layer_state_engine layer_id props self e t Hengine)
    as [-> | (clamped & ->)].
  { exists e. split; [reflexivity|]. split; [lia|]. split; intros rid run H; exact H. }
  destruct (run_set_engine layer_id clamped self e t Hengine)
    as [-> | (applied & finished & ->)]; eexists; (split; [reflexivity|]);
    cbn [_counter active_runs completed_runs]; (split; [lia|]); split; intros rid run Hrun.
  - exact Hrun.
  - rewrite lookup_insert_ne by congruence. exact Hrun.
  - rewrite lookup_insert_ne by congruence. exact Hrun.
  - rewrite lookup_delete_ne, !lookup_insert_ne by congruence. exact Hrun.
Qed.

(** X26: cancelling a run.  [cancel_run] of an id that is not among the
    active runs (a completed or cancelled run, an unknown id) returns
    [False] and leaves the engine and the clock as they were.  For an active
    run it returns [True] and reads the clock once: the run is no longer
    active and is filed among the completed runs with status [cancelled],
    the time read, and its id, kind, start and steps as they were; the
    counter and the records under every other id are as they were; and a
    second [cancel_run] of the id returns [False]. *)
Theorem cancel_run_moves_record (rid : string) (e : ExecutionEngine) (t : nat) :
  let r := cancel_run rid e t in
  match active_runs e !! rid with
  | None => r = mkRun (Ok false) e t
  | Some run =>
      res r = Ok true /\ clk r = S t /\ _counter (st r) = _counter e
      /\ active_runs (st r) !! rid = None
      /\ completed_runs (st r) !! rid
         = Some (mkRunRecord (run_id run) (kind run) "cancelled" (started_at run)
                   (Some (iso_of t)) (steps run))
      /\ (forall other, other <> rid ->
            active_runs (st r) !! other = active_runs e !! other
            /\ completed_runs (st r) !! other = completed_runs e !! other)
      /\ (forall t', cancel_run rid (st r) t' = mkRun (Ok false) (st r) t')
  end.
Proof.
  cbv zeta. rewrite cancel_run_run.
  destruct (active_runs e !! rid) as [run|] eqn:Hrun; [|reflexivity].
  cbn [res st clk _counter active_runs completed_runs].
  split; [reflexivity|]. split; [reflexivity|]. split; [reflexivity|].
  split; [apply lookup_delete_eq|]. split; [apply lookup_insert_eq|]. split.
  - intros other Hne. rewrite lookup_delete_ne, lookup_insert_ne by congruence.
    split; reflexivity.
  - intros t'. rewrite cancel_run_run. cbn [active_runs].
    rewrite lookup_delete_eq. reflexivity.
Qed.

End EngineBooks.

(** * The theorems at concrete inputs *)

Section Closed.
#[local] Existing Instance demo_rt.
#[local] Existing Instance demo_libs.

(** Both sides of an equation computed by the bytecode machine of the
    kernel. *)
Ltac by_vm := lazymatch goal with |- ?l = ?r => vm_cast_no_check (eq_refl r) end.
Ltac split_all := cbv zeta; repeat match goal with |- _ /\ _ => split end.

(** C2, the claim as stated fails: raising the group from opacity 0.5 to 1
    is an opacity ratio of 2, and the child, at opacity 1 before, is at
    opacity 1 after and not at 2. *)
Lemma clamped_child_misses_ratio :
  let r := set "root_group" [("opacity", VNum 1)] true faded_store 3 in
  let opacity_of (s : StateStore) (id : string) := current s !! id ≫= (.!! "opacity") in
  res r = Ok (list_to_map [("opacity", VNum 1); ("lastUpdate", VStr "t3")])
  /\ opacity_of faded_store "root_group" = Some (VNum 0.5)
  /\ opacity_of (st r) "root_group" = Some (VNum 1)
  /\ opacity_of faded_store "child_a" = Some (VNum 1)
  /\ opacity_of (st r) "child_a" = Some (VNum 1)
  /\ (1 * (1 / 0.5))%float = 2%float
  /\ PrimFloat.eqb 1 2 = false.
Proof. split_all; by_vm. Qed.

Lemma propagation_follows_parent_witness :
  let items := [("x", VNum 10); ("scale", VNum 2)] in
  let r := set "root_group" items true demo_store 3 in
  describes (layer_tree demo_store) demo_tree
  /\ NoDup (lt_ids demo_tree)
  /\ lt_height demo_tree <= recursion_limit
  /\ res r = Ok (list_to_map [("x", VNum 10); ("scale", VNum 2); ("lastUpdate", VStr "t3")])
  /\ follows_parents (lt_edges demo_tree) (current demo_store) (current (st r)).
Proof.
  cbv zeta.
  assert (Hdesc : describes (layer_tree demo_store) demo_tree).
  { constructor; [by_vm|]. repeat constructor. }
  assert (Hnd : NoDup (lt_ids demo_tree)).
  { apply (bool_decide_unpack _). vm_compute. exact I. }
  assert (Hstate : forall now, numeric (demo_state now)).
  { intros now key Hk. apply list_elem_of_In in Hk. simpl in Hk.
    destruct Hk as [<-|[<-|[<-|[<-|[<-|[<-|[]]]]]]];
      [exists 0%float | exists 0%float | exists 0%float | exists 0%float
       | exists 1%float | exists 1%float]; reflexivity. }
  assert (Hknown : known_numeric (lt_ids demo_tree) (current demo_store)).
  { intros id Hid. apply list_elem_of_In in Hid. simpl in Hid.
    destruct Hid as [<-|[<-|[<-|[]]]];
      [exists (demo_state "t0") | exists (demo_state "t1") | exists (demo_state "t2")];
      (split; [by_vm | apply Hstate]). }
  assert (Hheight : lt_height demo_tree <= recursion_limit).
  { apply (bool_decide_unpack _). vm_compute. exact I. }
  assert (Hnorm : normalize_items [("x", VNum 10); ("scale", VNum 2)] ∅
                  = Ok (list_to_map [("x", VNum 10); ("scale", VNum 2)])) by by_vm.
  pose proof (propagation_follows_parent demo_tree _ _ demo_store 3
                Hdesc Hnd Hknown Hheight Hnorm) as H.
  cbv zeta in H. destruct H as (Hres & _ & Hfollow & _).
  split_all; assumption.
Defined.

(** C3, the claim as stated fails: a first [set] on a layer the store does
    not know snapshots the state map with the entry it has just created, so
    the [undo()] that follows returns [True] and leaves that entry in a
    state map that was empty before the call. *)
Lemma undo_keeps_created_layer :
  let after := set "ghost" [("x", VNum 1)] true empty_store 0 in
  let undone := undo (st after) (clk after) in
  res after = Ok (list_to_map [("x", VNum 1); ("lastUpdate", VStr "t1")])
  /\ res undone = Ok true
  /\ current empty_store !! "ghost" = None
  /\ current (st undone) !! "ghost" = Some (demo_state "t0").
Proof. split_all; by_vm. Qed.

Lemma undo_redo_exact_witness :
  let after := set_calls demo_calls demo_store 3 in
  let undone := times 2 undo after.1 after.2 in
  is_Some (current demo_store !! "child_a")
  /\ res undone = Ok [true; true]
  /\ current (st undone) = current demo_store
  /\ st (times 2 redo (st undone) (clk undone)) = after.1.
Proof.
  assert (Hknown : forall c, head demo_calls = Some c ->
                             is_Some (current demo_store !! sc_layer_id c)).
  { intros c [= <-]. exists (demo_state "t1"). by_vm. }
  pose proof (undo_redo_exact demo_calls demo_store 3 Hknown) as H.
  cbv zeta in H. destruct H as (H1 & H2 & _ & _ & H5 & _).
  split_all; [exists (demo_state "t1"); by_vm | assumption ..].
Defined.



(** C5, the claim as stated fails: on the lock example the live run returns
    a patch for the layer and the dry run returns none. *)
Lemma dry_run_returns_no_patch :
  let live := reconcile_with_dom idle_dom "dom" false 1e-6 locked_store 0 in
  let dry := reconcile_with_dom idle_dom "dom" true 1e-6 locked_store 0 in
  res live = Ok (mkReconcileResult ["child_a"]
                   {["child_a" := list_to_map [("x", VNum 7); ("status", VStr "locked")]]})
  /\ res dry = Ok (mkReconcileResult ["child_a"] ∅).
Proof. split_all; by_vm. Qed.

Lemma dry_run_reads_only_witness :
  let dry := reconcile_with_dom idle_dom "dom" true 1e-6 locked_store 0 in
  NoDup (map fst idle_dom)
  /\ st dry = locked_store
  /\ clk dry = 0%nat.
Proof.
  assert (Hnd : NoDup (map fst idle_dom)) by (apply NoDup_singleton).
  pose proof (dry_run_reads_only idle_dom "dom" 1e-6 locked_store 0 Hnd) as H.
  cbv zeta in H. destruct H as (H1 & H2 & _).
  split; [exact Hnd|]. split; assumption.
Defined.

(** C1, the claim as stated fails: the group [grp] gets its z-index after
    its child [box] and so the greater one. *)
Lemma parent_numbered_after_child :
  map (fun row => (lid row, zIndex row, children row, md_parent (metadata row)))
  <$> res_value (_collect_layers group_doc)
  = Some [("box", 0%nat, [], Some "grp"); ("grp", 1%nat, ["box"], None)].
Proof. by_vm. Qed.

(** C6, the claim as stated fails: the store's read of an unknown layer id
    raises nothing, returns the default state and adds it to a state map
    that was empty. *)
Lemma store_read_creates_layer :
  let read := get_layer_state "ghost" empty_store 0 in
  res read = Ok (default_state VNone "t0")
  /\ current empty_store !! "ghost" = None
  /\ current (st read) !! "ghost" = Some (default_state VNone "t0").
Proof. split_all; by_vm. Qed.

Lemma lenient_store_strict_lookup_witness :
  current empty_store !! "ghost" = None
  /\ layer_tree empty_store !! "ghost" = None
  /\ res (get_layer_state "ghost" empty_store 0) = Ok (default_state VNone (iso_of 0))
  /\ history (st (set "ghost" [("x", VNum 1)] true empty_store 0))
     = history empty_store ++ [<["ghost" := default_state VNone (iso_of 0)]> (current empty_store)].
Proof.
  assert (Hc : current empty_store !! "ghost" = None) by reflexivity.
  assert (Ht : layer_tree empty_store !! "ghost" = None) by reflexivity.
  pose proof (lenient_store_strict_lookup "ghost" [("x", VNum 1)] true empty_store 0 Hc Ht)
    as H.
  cbv zeta in H. destruct H as (_ & _ & Hhist & Hread & _).
  split_all; assumption.
Defined.



(** C9, the claim as stated fails: the unchanged outcome carries no reason
    string. *)
Lemma unchanged_has_no_reason :
  needs_recompile (mkLayerCompiler "0.1.0") demo_svg (Some demo_manifest) false
  = (false, None).
Proof. by_vm. Qed.

End Closed.

(** * The further properties at concrete inputs *)

Section ClosedMore.
#[local] Existing Instance demo_rt.
#[local] Existing Instance demo_libs.

Ltac by_vm := lazymatch goal with |- ?l = ?r => vm_cast_no_check (eq_refl r) end.
Ltac split_all := cbv zeta; repeat match goal with |- _ /\ _ => split end.

Lemma demo_store_ok : store_ok demo_store.
Proof.
  split; [|split; constructor].
  intros id state Hlook. unfold demo_store in Hlook. cbn [current] in Hlook.
  apply elem_of_list_to_map_2 in Hlook.
  repeat (apply elem_of_cons in Hlook as [Hlook|Hlook]);
    [injection Hlook as -> ->; apply state_ok_default ..|].
  inversion Hlook.
Qed.

Lemma numeric_fields_stay_valid_witness :
  store_ok demo_store
  /\ store_ok (st (set "root_group" [("opacity", VNum 7); ("x", VBool true)] true demo_store 3)).
Proof.
  pose proof (numeric_fields_stay_valid demo_store 3 demo_store_ok) as (Hset & _).
  split; [exact demo_store_ok | exact (Hset _ _ _)].
Defined.

Lemma undo_redo_inverse_witness :
  let s := st (set "child_a" [("x", VNum 12)] true demo_store 3) in
  res (undo s 4) = Ok true
  /\ res (redo (st (undo s 4)) (clk (undo s 4))) = Ok true
  /\ st (redo (st (undo s 4)) (clk (undo s 4))) = s.
Proof.
  cbv zeta.
  assert (Hundo : res (undo (st (set "child_a" [("x", VNum 12)] true demo_store 3)) 4)
                  = Ok true) by by_vm.
  pose proof (undo_redo_inverse true _ 4 Hundo) as (Hres & Hback & _).
  split; [exact Hundo|]. split; [exact Hres | exact Hback].
Defined.

Lemma set_touches_descendants_only_witness :
  let r := set "child_a" [("x", VNum 12)] true demo_store 3 in
  "child_b" <> "child_a"
  /\ ~ descends (layer_tree demo_store) "child_a" "child_b"
  /\ current (st r) !! "child_b" = current demo_store !! "child_b".
Proof.
  cbv zeta.
  assert (Hne : "child_b" <> "child_a") by discriminate.
  assert (Hout : ~ descends (layer_tree demo_store) "child_a" "child_b").
  { intros H. inversion H as [|a b c Hkid _]; subst.
    assert (Hkids : default [] (layer_tree demo_store !! "child_a") = []) by by_vm.
    rewrite Hkids in Hkid. inversion Hkid. }
  pose proof (set_touches_descendants_only "child_a" [("x", VNum 12)] true demo_store 3
                "child_b" Hne (fun _ => Hout)) as [Hsame _].
  split; [exact Hne|]. split; [exact Hout | exact Hsame].
Defined.

Lemma set_ignores_untracked_witness :
  let r := set "child_a" [("color", VStr "red"); ("x", VNum 12)] true demo_store 3 in
  ("color" ∉ TRACKED_FIELDS)
  /\ res r = Ok (list_to_map [("x", VNum 12); ("lastUpdate", VStr "t3")])
  /\ field_of (current (st r)) "child_a" "color" = None.
Proof.
  cbv zeta.
  assert (Hout : "color" ∉ TRACKED_FIELDS) by (apply (bool_decide_unpack _); vm_compute; exact I).
  pose proof (set_ignores_untracked "child_a" [("color", VStr "red"); ("x", VNum 12)] true
                demo_store 3 "color" Hout) as [Hkept _].
  split; [exact Hout|]. split; [by_vm|].
  rewrite (Hkept "child_a"). by_vm.
Defined.

Lemma store_authority_reads_only_witness :
  store_rules idle_dom "dom" locked_store
  /\ st (reconcile_with_dom idle_dom "dom" false 1e-6 locked_store 0) = locked_store.
Proof.
  assert (Hprefer : "dom" ∈ ["dom"; "store"]) by left.
  assert (Hrules : store_rules idle_dom "dom" locked_store).
  { intros id dom_state store_state Hin Hcur. left.
    apply list_elem_of_singleton in Hin. injection Hin as -> ->.
    unfold locked_store in Hcur. cbn [current] in Hcur.
    rewrite lookup_singleton_eq in Hcur. injection Hcur as <-. by_vm. }
  destruct (store_authority_reads_only idle_dom "dom" false 1e-6 locked_store 0
              Hprefer Hrules) as (result & Hrun & _).
  split; [exact Hrules|]. rewrite Hrun. reflexivity.
Defined.

Lemma reconcile_own_state_is_noop_witness :
  PrimFloat.leb 0 1e-6 = true
  /\ reconcile_with_dom demo_snapshot "dom" false 1e-6 demo_store 5
     = mkRun (Ok (mkReconcileResult [] ∅)) demo_store 5.
Proof.
  assert (Hprefer : "dom" ∈ ["dom"; "store"]) by left.
  assert (Htol : PrimFloat.leb 0 1e-6 = true) by reflexivity.
  assert (Hown : Forall (fun item => current demo_store !! item.1 = Some item.2
                                     /\ self_equal item.2) demo_snapshot).
  { repeat constructor; try apply self_equal_default; by_vm. }
  split; [exact Htol|].
  exact (reconcile_own_state_is_noop demo_snapshot "dom" false 1e-6 demo_store 5
           Hprefer Htol Hown).
Defined.

Lemma refused_mutation_changes_nothing_witness :
  is_Some (svc_store demo_service)
  /\ is_Some (svc_engine demo_service)
  /\ set_layer_state "ghost" [("x", VNum 1)] demo_service 10
     = mkRun (Raise (KeyError "ghost")) demo_service 10.
Proof.
  assert (Hstore : svc_store demo_service
                   = Some (default empty_store (svc_store demo_service))) by by_vm.
  assert (Hengine : svc_engine demo_service
                    = Some (default (mkEngine 0 ∅ ∅) (svc_engine demo_service))) by by_vm.
  assert (Hghost : _layer_full_by_id demo_service "ghost" = Raise (KeyError "ghost")) by by_vm.
  pose proof (refused_mutation_changes_nothing "ghost" [("x", VNum 1)] demo_service 10 _ _
                Hstore Hengine) as (Hunknown & _).
  split; [rewrite Hstore; eauto|]. split; [rewrite Hengine; eauto|].
  exact (Hunknown _ Hghost).
Defined.

Lemma box_layer_compiled : compiled_from (mkElement "rect" [("id", "box")] None []) box_layer.
Proof. unfold compiled_from. split_all; by_vm. Qed.

Lemma demo_service_compiled : compiled_service demo_service.
Proof.
  unfold compiled_service.
  assert (Hlayers : _collect_layers group_doc = Ok (layers_full demo_service)) by by_vm.
  exact (Forall2_exists_l _ _ _ (collect_layers_compiled group_doc _ Hlayers)).
Qed.

Lemma compiled_layers_refuse_no_prop_witness :
  compiled_service demo_service
  /\ _layer_full_by_id demo_service "box" = Ok box_layer
  /\ _has_capability demo_service "box" "rotation" = Ok true.
Proof.
  assert (Hlayer : _layer_full_by_id demo_service "box" = Ok box_layer) by by_vm.
  pose proof (compiled_layers_refuse_no_prop demo_service "box" box_layer _ 0
                demo_service_compiled Hlayer box_layer_compiled) as (Hall & _).
  split; [exact demo_service_compiled|]. split; [exact Hlayer | exact (Hall "rotation")].
Defined.

Lemma depth_clamped_at_service_witness :
  res (set_layer_depth "box" (VNum 999) demo_service 10) = Ok 200%float
  /\ PrimFloat.leb (-200) 200 = true
  /\ PrimFloat.leb 200 200 = true.
Proof.
  assert (Hlayer : _layer_full_by_id demo_service "box" = Ok box_layer) by by_vm.
  assert (Hmin : float_get (constraints box_layer) "minDepth" (-200) = Ok (-200)%float) by by_vm.
  assert (Hmax : float_get (constraints box_layer) "maxDepth" 200 = Ok 200%float) by by_vm.
  assert (Hle : PrimFloat.leb (-200) 200 = true) by reflexivity.
  assert (Hres : res (set_layer_depth "box" (VNum 999) demo_service 10) = Ok 200%float) by by_vm.
  pose proof (depth_clamped_at_service demo_service "box" box_layer (-200) 200 (VNum 999) 10
                200 Hlayer Hmin Hmax Hle Hres) as (_ & Hlow & Hhigh).
  split; [exact Hres|]. split; assumption.
Defined.

Lemma mutation_books_witness :
  let r := set_layer_state "box" [("x", VNum 5)] demo_service 10 in
  res r = Ok ([("x", VNum 5)], "run_000001")
  /\ svc_state_version (st r) = 1
  /\ (svc_engine (st r) ≫= fun e => status <$> completed_runs e !! "run_000001")
     = Some "completed"
  /\ (svc_store (st r) ≫= fun store => field_of (current store) "box" "x")
     = Some (VNum 5).
Proof.
  cbv zeta.
  assert (Hstore : svc_store demo_service
                   = Some (default empty_store (svc_store demo_service))) by by_vm.
  assert (Hengine : svc_engine demo_service
                    = Some (default (mkEngine 0 ∅ ∅) (svc_engine demo_service))) by by_vm.
  assert (Hres : res (set_layer_state "box" [("x", VNum 5)] demo_service 10)
                 = Ok ([("x", VNum 5)], "run_000001")) by by_vm.
  assert (Hkeys : NoDup (map fst [("x", VNum 5)])).
  { apply (bool_decide_unpack _). vm_compute. exact I. }
  assert (Hin : "x" ∈ TRACKED_FIELDS).
  { apply (bool_decide_unpack _). vm_compute. exact I. }
  assert (Hone : normalize_one "x" (VNum 5) = Ok (Some (VNum 5))) by by_vm.
  pose proof (mutation_books "box" [("x", VNum 5)] _ _ demo_service 10 _ _
                Hstore Hengine Hres) as (_ & _ & store' & engine' & record & written & H).
  cbv zeta in H.
  destruct H as (Hsto & Heng & _ & Hver & _ & _ & _ & Hdone & _ & _ & Hstatus & H).
  destruct H as (_ & _ & _ & _ & _ & _ & _ & _ & _ & Htracked).
  destruct (Htracked Hkeys "x" (VNum 5) eq_refl Hin) as (v' & Hone' & Hfield).
  rewrite Hone in Hone'. injection Hone' as <-.
  split; [exact Hres|]. split; [rewrite Hver; by_vm|].
  split.
  - rewrite Heng. cbn [mbind option_bind]. rewrite Hdone, lookup_insert_eq.
    cbn [fmap option_fmap option_map]. rewrite Hstatus. reflexivity.
  - rewrite Hsto. exact Hfield.
Defined.

Lemma refused_by_store_books_witness :
  let r := set_layer_state "box" [("x", VStr "abc")] demo_service 10 in
  res r = Raise (ValueError "could not convert string to float")
  /\ svc_state_version (st r) = svc_state_version demo_service
  /\ (svc_engine (st r) ≫= fun e => status <$> active_runs e !! "run_000001")
     = Some "running".
Proof.
  cbv zeta.
  assert (Hstore : svc_store demo_service
                   = Some (default empty_store (svc_store demo_service))) by by_vm.
  assert (Hengine : svc_engine demo_service
                    = Some (default (mkEngine 0 ∅ ∅) (svc_engine demo_service))) by by_vm.
  assert (Hlayer : _layer_full_by_id demo_service "box" = Ok box_layer) by by_vm.
  assert (Hcaps : Forall (fun key => _has_capability demo_service "box" key = Ok true)
                         (map fst [("x", VStr "abc")])).
  { repeat constructor. }
  assert (Hclamp : _clamp_props demo_service "box" [("x", VStr "abc")]
                   = Ok [("x", VStr "abc")]) by by_vm.
  assert (Hset : res (set "box" [("x", VStr "abc")] true
                        (default empty_store (svc_store demo_service)) 11)
                 = Raise (ValueError "could not convert string to float")) by by_vm.
  pose proof (refused_by_store_books "box" [("x", VStr "abc")] _ box_layer _ demo_service 10
                _ _ Hstore Hengine Hlayer Hcaps Hclamp Hset) as (Hres & store' & engine' & H).
  destruct H as (_ & Heng & _ & _ & Hactive & _ & Hver & _).
  split; [exact Hres|]. split; [exact Hver|].
  rewrite Heng. cbn [mbind option_bind].
  lazymatch type of Hactive with
  | context [active_runs engine' !! ?k] =>
      assert (Hrid : k = "run_000001") by by_vm; rewrite Hrid in Hactive
  end.
  rewrite Hactive. reflexivity.
Defined.

Lemma service_undo_reverts_mutation_witness :
  res (service_undo moved_service 20) = Ok true
  /\ svc_dom_layers (st (service_undo moved_service 20)) = svc_dom_layers demo_service
  /\ svc_state_version (st (service_undo moved_service 20)) = 2.
Proof.
  assert (Hstore : svc_store demo_service
                   = Some (default empty_store (svc_store demo_service))) by by_vm.
  assert (Hengine : svc_engine demo_service
                    = Some (default (mkEngine 0 ∅ ∅) (svc_engine demo_service))) by by_vm.
  assert (Hres : res (set_layer_state "box" [("x", VNum 5)] demo_service 10)
                 = Ok ([("x", VNum 5)], "run_000001")) by by_vm.
  pose proof (service_undo_reverts_mutation "box" [("x", VNum 5)] _ demo_service 10 20 _ _
                Hstore Hengine Hres) as H.
  cbv zeta in H. destruct H as (Hknown & Hundone & _ & _ & _ & Hdom & Hversion & _).
  split; [exact Hundone|]. split.
  - unfold moved_service. rewrite Hdom, Hknown; [by_vm|].
    apply (bool_decide_unpack _). vm_compute. exact I.
  - unfold moved_service. rewrite Hversion. by_vm.
Defined.

Lemma compile_svg_is_cached_witness :
  compile_svg demo_svg false moved_service 20 = mkRun (Ok tt) moved_service 20.
Proof.
  apply (compile_svg_is_cached demo_svg false blank_service 0); by_vm.
Defined.

Lemma compile_svg_starts_anew_witness :
  svc_state_version moved_service = 1
  /\ svc_state_version (st (compile_svg demo_svg true moved_service 20)) = 0
  /\ svc_engine (st (compile_svg demo_svg true moved_service 20)) = Some (mkEngine 0 ∅ ∅)
  /\ compile_svg "<svg" true moved_service 20 = mkRun (Raise ParseError) moved_service 20.
Proof.
  split; [by_vm|].
  pose proof (compile_svg_starts_anew demo_svg true moved_service 20 (or_introl eq_refl)) as H.
  assert (Hroot : fromstring demo_svg = Some group_doc) by by_vm.
  rewrite Hroot in H. cbv zeta in H.
  assert (Hframes : frames group_doc <= recursion_limit).
  { apply (bool_decide_unpack _). vm_compute. exact I. }
  destruct H as (_ & H). specialize (H Hframes).
  destruct H as (_ & result & store & _ & _ & _ & _ & _ & _ & _ & _ & _ & _ & _ & _ & He & Hv).
  split; [exact Hv|]. split; [exact He|].
  pose proof (compile_svg_starts_anew "<svg" true moved_service 20 (or_introl eq_refl)) as H.
  assert (Hnone : fromstring "<svg" = None) by by_vm.
  rewrite Hnone in H. exact H.
Defined.

Lemma mutation_keeps_run_records_witness :
  exists e',
    svc_engine (st (set_layer_state "box" [("x", VNum 5)] demo_service 10)) = Some e'
    /\ 0 <= _counter e' <= 1.
Proof.
  assert (Hengine : svc_engine demo_service = Some (mkEngine 0 ∅ ∅)) by by_vm.
  destruct (mutation_keeps_run_records "box" [("x", VNum 5)] demo_service _ 10
              Hengine books_empty) as (e' & He' & Hcount & _).
  exists e'. split; [exact He' | exact Hcount].
Defined.

End ClosedMore.
